(** * ARIA process executor and storage instrumentation

    A shallow embedding of
      - [aria/storage/instrumentation.py]: the worker-side change tracker
        ([_Instrumentation], [_Value]) and the parent-side applier
        ([apply_tracked_changes], [_validate_version_id]);
      - [aria/orchestrator/workflows/executor/process.py]: the frame codec
        ([_send_message], [_recv_message], [_recv_bytes]), the worker-side
        [_Messenger], the session patch [_patch_ctx] and the parent-side
        [ProcessExecutor].

    Python dictionaries that are only read and written by key are [gmap]s;
    dictionaries the code iterates over with [.items()] are association
    lists, iterated in list order.  Code that can raise returns a [result];
    code that mutates an object before raising returns the mutated state
    next to the [result]. *)

From Stdlib Require Import ZArith NArith Lia.
From Stdlib.Strings Require Import Byte.
From stdpp Require Import gmap strings pretty list fin_maps.
From Equations Require Import Equations.

Local Open Scope string_scope.
Local Open Scope list_scope.

(** ** Python values and exceptions *)

(** The scalar values that travel through the tracked attributes.  [PStub]
    is the module-level sentinel [_STUB = object()]. *)
Inductive pyval :=
| PNone
| PStub
| PInt (z : Z)
| PStr (s : string).

#[global] Instance pyval_eq_dec : EqDecision pyval.
Proof. solve_decision. Defined.

#[global] Instance byte_eq_dec : EqDecision byte := Byte.byte_eq_dec.

(** Python truthiness ([if x:]). The sentinel is a plain object: truthy. *)
Definition truthy (v : pyval) : bool :=
  match v with
  | PNone => false
  | PStub => true
  | PInt z => negb (Z.eqb z 0)
  | PStr s => negb (String.eqb s "")
  end.

(** [a != b] on scalars. *)
Definition py_ne (a b : pyval) : bool := negb (bool_decide (a = b)).

(** [copy.deepcopy]: values are immutable trees here, so the copy is an
    equal value (what the copy buys in Python is the absence of sharing). *)
Definition deepcopy (v : pyval) : pyval := v.

(** An exception object: its class and its [message]. *)
Record exn := Exn { exc_type : string; message : string }.

#[global] Instance exn_eq_dec : EqDecision exn.
Proof. solve_decision. Defined.

Inductive result (A : Type) :=
| Ok (a : A)
| Raise (e : exn).
Arguments Ok {A} a.
Arguments Raise {A} e.

(** A keyword-argument dictionary / serialized entity: field name to value. *)
Abbreviation kwargs := (gmap string pyval).

(** ** instrumentation.py: the worker side *)

Module Instrumentation.

Definition _VERSION_ID_COL : string := "version".
Definition _NEW_INSTANCE : string := "NEW_INSTANCE".

(** [class _Value]: the pair (initial, current). *)
Record _Value := Value { initial : pyval; current : pyval }.

#[global] Instance _Value_eq_dec : EqDecision _Value.
Proof. solve_decision. Defined.

(** What [tracked_changes[model][id][key]] holds: the [_Value] of a scalar
    attribute, or the list of serialized members the append listener
    collects for a collection attribute. *)
Inductive tracked :=
| Scalar (v : _Value)
| Appended (items : list kwargs).

(** An entity as the hooks see it: its model name, its [id] and the
    attributes it carries ([__dict__]). *)
Record entity := Entity {
  __modelname__ : string;
  entity_id : Z;
  __dict__ : gmap string pyval
}.

Definition AttributeError (name : string) : exn :=
  Exn "AttributeError" ("object has no attribute '" +:+ name +:+ "'").

Definition getattr (target : entity) (name : string) : result pyval :=
  match __dict__ target !! name with
  | Some v => Ok v
  | None => Raise (AttributeError name)
  end.

(** An entry of the registry's ['modified'] table maps an attribute to the
    constructor of its native type ([str] in [_INSTRUMENTED]); calling the
    constructor may raise. *)
Definition attribute_type := pyval -> result pyval.

(** Python's [str]. *)
Definition py_str (v : pyval) : string :=
  match v with
  | PNone => "None"
  | PStub => "<object object>"
  | PInt z => pretty z
  | PStr s => s
  end.

Definition str : attribute_type := fun v => Ok (PStr (py_str v)).

(** The instrumentation context ([class _Instrumentation]); the listener
    registrations and the model handle play no part in what follows. *)
Record _Instrumentation := Instr {
  tracked_changes : gmap string (gmap Z (gmap string tracked));
  new_instances_as_dict : gmap string (gmap string kwargs);
  _instances_to_expunge : list entity
}.

Definition empty_instrumentation : _Instrumentation := Instr ∅ ∅ [].

(** [tracked_changes.setdefault(mapi_name, {}).setdefault(id, {})]: the
    dictionary the two [setdefault]s return ... *)
Definition tracked_attributes_of (self : _Instrumentation) (mapi_name : string) (id : Z)
  : gmap string tracked :=
  default ∅ (default ∅ (tracked_changes self !! mapi_name) !! id).

(** The entry of an entity in [tracked_changes], if it has one. *)
Definition tracked_entry (self : _Instrumentation) (mapi_name : string) (id : Z)
  : option (gmap string tracked) :=
  tracked_changes self !! mapi_name ≫= (fun tracked_instances => tracked_instances !! id).

(** ... and the context once that dictionary, which the context shares,
    holds [tracked_attributes] (the [setdefault]s create what is missing). *)
Definition set_tracked_attributes (self : _Instrumentation) (mapi_name : string) (id : Z)
    (tracked_attributes : gmap string tracked) : _Instrumentation :=
  {| tracked_changes :=
       <[mapi_name := <[id := tracked_attributes]>
                        (default ∅ (tracked_changes self !! mapi_name))]>
         (tracked_changes self);
     new_instances_as_dict := new_instances_as_dict self;
     _instances_to_expunge := _instances_to_expunge self |}.

(** [None if value is None else copy.deepcopy(attribute_type(value))]. *)
Definition coerced_copy (ty : attribute_type) (value : pyval) : result pyval :=
  if decide (value = PNone) then Ok PNone
  else match ty value with
       | Ok v => Ok (deepcopy v)
       | Raise e => Raise e
       end.

(** What [coerced_copy] computes when nothing raises: [c] is [None] for a
    null [value], a deep copy of [ty(value)] otherwise. *)
Definition is_coerced_copy (ty : attribute_type) (value c : pyval) : Prop :=
  (value = PNone /\ c = PNone) \/
  (value <> PNone /\ exists v, ty value = Ok v /\ c = deepcopy v).

(** The ['set'] listener of [_register_set_attribute_listener] for the
    attribute [key]; its return value replaces the assigned value
    ([retval=True]). *)
Definition set_attribute_listener (key : string) (ty : attribute_type)
    (self : _Instrumentation) (target : entity) (value : pyval)
  : _Instrumentation * result pyval :=
  let mapi_name := __modelname__ target in
  let tracked_attributes := tracked_attributes_of self mapi_name (entity_id target) in
  match coerced_copy ty value with
  | Raise e =>
      (set_tracked_attributes self mapi_name (entity_id target) tracked_attributes, Raise e)
  | Ok current =>
      (set_tracked_attributes self mapi_name (entity_id target)
         (<[key := Scalar (Value PStub current)]> tracked_attributes),
       Ok current)
  end.

(** The version capture at the head of the ['load'] / ['refresh'] /
    ['refresh_flush'] listener: [hasattr(target, 'version')] is the presence
    of the attribute, [setdefault] keeps a version tracked before. *)
Definition capture_version (target : entity) (tracked_attributes : gmap string tracked)
  : gmap string tracked :=
  match __dict__ target !! _VERSION_ID_COL with
  | Some version =>
      match tracked_attributes !! _VERSION_ID_COL with
      | Some _ => tracked_attributes
      | None => <[_VERSION_ID_COL := Scalar (Value PStub version)]> tracked_attributes
      end
  | None => tracked_attributes
  end.

(** [target.__dict__[name] = value]. *)
Definition with_attribute (target : entity) (name : string) (value : pyval) : entity :=
  {| __modelname__ := __modelname__ target;
     entity_id := entity_id target;
     __dict__ := <[name := value]> (__dict__ target) |}.

(** [tracked_attributes[attribute_name].current]. *)
Definition current_of (name : string) (t : option tracked) : result pyval :=
  match t with
  | Some (Scalar v) => Ok (current v)
  | Some (Appended _) => Raise (AttributeError "current")
  | None => Raise (Exn "KeyError" name)
  end.

(** One round of the listener's loop over [instrumented_attributes.items()]. *)
Definition track_attribute (name : string) (ty : attribute_type)
    (target : entity) (tracked_attributes : gmap string tracked)
  : (entity * gmap string tracked) * result unit :=
  let recorded :=
    match tracked_attributes !! name with
    | Some _ => (tracked_attributes, Ok tt)
    | None =>
        match getattr target name with
        | Raise e => (tracked_attributes, Raise e)
        | Ok initial =>
            match coerced_copy ty initial with
            | Raise e => (tracked_attributes, Raise e)
            | Ok current =>
                (<[name := Scalar (Value initial current)]> tracked_attributes, Ok tt)
            end
        end
    end in
  match recorded with
  | (tracked_attributes, Raise e) => ((target, tracked_attributes), Raise e)
  | (tracked_attributes, Ok _) =>
      match current_of name (tracked_attributes !! name) with
      | Raise e => ((target, tracked_attributes), Raise e)
      | Ok current => ((with_attribute target name current, tracked_attributes), Ok tt)
      end
  end.

Fixpoint track_attributes (instrumented_attributes : list (string * attribute_type))
    (target : entity) (tracked_attributes : gmap string tracked)
  : (entity * gmap string tracked) * result unit :=
  match instrumented_attributes with
  | [] => ((target, tracked_attributes), Ok tt)
  | (name, ty) :: rest =>
      match track_attribute name ty target tracked_attributes with
      | (st, Raise e) => (st, Raise e)
      | ((target, tracked_attributes), Ok _) =>
          track_attributes rest target tracked_attributes
      end
  end.

(** The listener of [_register_instance_listeners] for a class whose model
    name is [mapi_name] and whose scalar instrumented attributes are
    [instrumented_attributes]. It changes the context and the entity in
    place, also when it raises half way. *)
Definition instance_listener (mapi_name : string)
    (instrumented_attributes : list (string * attribute_type))
    (self : _Instrumentation) (target : entity)
  : (_Instrumentation * entity) * result unit :=
  let tracked_attributes :=
    capture_version target (tracked_attributes_of self mapi_name (entity_id target)) in
  match track_attributes instrumented_attributes target tracked_attributes with
  | ((target', tracked_attributes), r) =>
      ((set_tracked_attributes self mapi_name (entity_id target) tracked_attributes,
        target'), r)
  end.

(** [_new_instance_id]. *)
Definition _new_instance_id (self : _Instrumentation) : string :=
  _NEW_INSTANCE +:+ "_" +:+ pretty (length (_instances_to_expunge self)).

(** The ['after_attach'] listener of [_register_new_instance_listener], for
    an instance of the instrumented class. [instance.to_dict()] updated with
    the private fields is the entity's field map. *)
Definition new_instance_listener (self : _Instrumentation) (instance : entity)
  : _Instrumentation :=
  let expunge := _instances_to_expunge self ++ [instance] in
  let self1 := {| tracked_changes := tracked_changes self;
                  new_instances_as_dict := new_instances_as_dict self;
                  _instances_to_expunge := expunge |} in
  let tracked_instances :=
    default ∅ (new_instances_as_dict self !! __modelname__ instance) in
  let key := _new_instance_id self1 in
  let tracked_attributes := default ∅ (tracked_instances !! key) in
  {| tracked_changes := tracked_changes self;
     new_instances_as_dict :=
       <[__modelname__ instance :=
           <[key := __dict__ instance ∪ tracked_attributes]> tracked_instances]>
         (new_instances_as_dict self);
     _instances_to_expunge := expunge |}.

(** [_Instrumentation.clear(target=None)]. An entity object is truthy, so
    [if target:] tells a given entity from [None]. *)
Definition clear (self : _Instrumentation) (target : option entity) : _Instrumentation :=
  {| tracked_changes :=
       match target with
       | Some target =>
           let mapi_name := __modelname__ target in
           let tracked_instances := default ∅ (tracked_changes self !! mapi_name) in
           <[mapi_name := delete (entity_id target) tracked_instances]>
             (tracked_changes self)
       | None => ∅
       end;
     new_instances_as_dict := ∅;
     _instances_to_expunge := [] |}.

(** *** The parent side: applying the tracked changes *)

(** An ORM instance in the parent's session: its [id] ([None] until the
    storage assigns one), its attributes, SQLAlchemy's [committed_state]
    (for each attribute changed since the load, the value it was loaded
    with) and the members added to its collections. *)
#[warnings="-register-all"]
Inductive Instance := Inst {
  inst_id : option Z;
  inst_attrs : gmap string pyval;
  committed_state : gmap string pyval;
  inst_collections : list (string * Instance)
}.

(** [setattr(instance, name, value)] on a mapped attribute: SQLAlchemy
    remembers the loaded value in [committed_state] at the first change. *)
Definition setattr (instance : Instance) (name : string) (value : pyval) : Instance :=
  {| inst_id := inst_id instance;
     inst_attrs := <[name := value]> (inst_attrs instance);
     committed_state :=
       match committed_state instance !! name, inst_attrs instance !! name with
       | None, Some loaded => <[name := loaded]> (committed_state instance)
       | _, _ => committed_state instance
       end;
     inst_collections := inst_collections instance |}.

(** [getattr(instance, attribute_name)[new_attr] = new_attr]. *)
Definition collection_add (instance : Instance) (attribute_name : string)
    (new_attr : Instance) : Instance :=
  {| inst_id := inst_id instance;
     inst_attrs := inst_attrs instance;
     committed_state := committed_state instance;
     inst_collections := inst_collections instance ++ [(attribute_name, new_attr)] |}.

(** The model storage handed to the applier ([aria.storage], outside this
    module): [getattr(model, name)] gives the mapi of a model, which offers
    [model_cls], [put], [get], [update] and its session's [rollback]. *)
Class Storage (S : Type) := {
  has_mapi : S -> string -> bool;
  model_cls : S -> string -> kwargs -> result Instance;
  put : string -> Instance -> S -> S * result Instance;
  get : string -> Z -> S -> S * result Instance;
  update : string -> Instance -> S -> S * result unit;
  rollback : string -> S -> S
}.

(** A value of [new_instances[model]]: the field map the worker sent, or,
    once the applier has handled it, the instance that replaced it. *)
Inductive new_entry :=
| NewKwargs (kw : kwargs)
| NewInstance (instance : Instance).

(** The calls the applier makes, in the order it makes them. *)
Inductive event :=
| EvConstruct (mapi_name : string) (kw : kwargs)
| EvPut (mapi_name : string) (instance : Instance)
| EvGet (mapi_name : string) (instance_id : Z)
| EvSetattr (mapi_name : string) (instance_id : Z) (attribute_name : string) (value : pyval)
| EvAppend (mapi_name : string) (instance_id : Z) (attribute_name : string) (new_attr : Instance)
| EvRollback (mapi_name : string)
| EvUpdate (mapi_name : string) (instance : Instance)
| EvLogError (successes : gmap string (gmap (option Z) kwargs)).

Definition is_put (ev : event) : bool :=
  match ev with EvPut _ _ => true | _ => false end.

(** The [.items()] of the two dictionaries the applier walks through. *)
Definition tracked_changes_items : Type :=
  list (string * list (Z * list (string * tracked))).
Definition new_instances_items : Type :=
  list (string * list (string * new_entry)).

(** [d[key] = value] on the items of a dictionary. *)
Fixpoint setitem {V} (key : string) (value : V) (d : list (string * V))
  : list (string * V) :=
  match d with
  | [] => [(key, value)]
  | (k, v) :: rest =>
      if String.eqb k key then (k, value) :: rest
      else (k, v) :: setitem key value rest
  end.

Fixpoint getitem {V} (key : string) (d : list (string * V)) : option V :=
  match d with
  | [] => None
  | (k, v) :: rest => if String.eqb k key then Some v else getitem key rest
  end.

(** What one call of the applier works on: the storage, the calls made so
    far, the caller's [new_instances] dictionary (changed in place) and the
    local [successfully_updated_changes]. *)
Record state (S : Type) := State {
  store : S;
  trace : list event;
  new_instances : new_instances_items;
  successfully_updated_changes : gmap string (gmap (option Z) kwargs)
}.
Arguments State {S}.
Arguments store {S}.
Arguments trace {S}.
Arguments new_instances {S}.
Arguments successfully_updated_changes {S}.

Section Applier.
Context {S : Type} `{!Storage S}.

Definition M (A : Type) : Type := state S -> state S * result A.

#[global] Instance M_ret : MRet M := fun A a st => (st, Ok a).
#[global] Instance M_bind : MBind M := fun A B f m st =>
  match m st with
  | (st', Ok a) => f a st'
  | (st', Raise e) => (st', Raise e)
  end.

Definition raise {A} (e : exn) : M A := fun st => (st, Raise e).

(** A call into the storage layer, noted in the trace when it is made. *)
Definition call {A} (ev : event) (op : S -> S * result A) : M A := fun st =>
  let '(s, r) := op (store st) in
  (State s (trace st ++ [ev]) (new_instances st) (successfully_updated_changes st), r).

Definition note (ev : event) : M unit := call ev (fun s => (s, Ok tt)).

(** [mapi = getattr(model, mapi_name)]. *)
Definition getattr_model (mapi_name : string) : M unit := fun st =>
  if has_mapi (store st) mapi_name then (st, Ok tt)
  else (st, Raise (AttributeError mapi_name)).

(** [successfully_updated_changes[mapi_name] = dict()]. *)
Definition reset_successes (mapi_name : string) : M unit := fun st =>
  (State (store st) (trace st) (new_instances st)
     (<[mapi_name := ∅]> (successfully_updated_changes st)), Ok tt).

(** [successfully_updated_changes[mapi_name][id] = value]; the outer key
    was created by [reset_successes] before. *)
Definition record_success (mapi_name : string) (id : option Z) (value : kwargs)
  : M unit := fun st =>
  (State (store st) (trace st) (new_instances st)
     (<[mapi_name := <[id := value]>
                       (default ∅ (successfully_updated_changes st !! mapi_name))]>
        (successfully_updated_changes st)), Ok tt).

(** [new_instance[tmp_id] = instance], where [new_instance] is the
    dictionary [new_instances[mapi_name]]. *)
Definition replace_new_instance (mapi_name tmp_id : string) (instance : Instance)
  : M unit := fun st =>
  (State (store st) (trace st)
     (setitem mapi_name
        (setitem tmp_id (NewInstance instance)
           (default [] (getitem mapi_name (new_instances st))))
        (new_instances st))
     (successfully_updated_changes st), Ok tt).

Fixpoint for_each {A} (body : A -> M unit) (items : list A) : M unit :=
  match items with
  | [] => mret tt
  | x :: rest => body x ;; for_each body rest
  end.

Fixpoint fold_each {A B} (body : B -> A -> M B) (acc : B) (items : list A) : M B :=
  match items with
  | [] => mret acc
  | x :: rest => acc ← body acc x; fold_each body acc rest
  end.

Definition not_a_mapping : exn :=
  Exn "TypeError" "type object argument after ** must be a mapping".

(** Lines 266-270: one entry of [new_instance.items()]. An instance left
    there by an earlier round is no mapping, so [**] raises. *)
Definition handle_new_instance (mapi_name : string)
    (entry : string * new_entry) : M unit :=
  let '(tmp_id, new_instance_kwargs) := entry in
  match new_instance_kwargs with
  | NewInstance _ => raise not_a_mapping
  | NewKwargs kw =>
      instance ← call (EvConstruct mapi_name kw) (fun s => (s, model_cls s mapi_name kw));
      instance ← call (EvPut mapi_name instance) (put mapi_name instance);
      record_success mapi_name (inst_id instance) kw;;
      replace_new_instance mapi_name tmp_id instance
  end.

(** Lines 263-270: the loop over [new_instances.items()]. It rebinds the
    function's [mapi_name] and [mapi]: the result is the name they are
    bound to when the loop ends. *)
Fixpoint handle_new_instances (items : new_instances_items) (mapi_name : string)
  : M string :=
  match items with
  | [] => mret mapi_name
  | (mapi_name, new_instance) :: rest =>
      reset_successes mapi_name;;
      getattr_model mapi_name;;
      for_each (handle_new_instance mapi_name) new_instance;;
      handle_new_instances rest mapi_name
  end.

Definition version_conflict (version_id object_version_id : pyval) : exn :=
  Exn "StorageError"
    ("Version conflict: committed and object " +:+ _VERSION_ID_COL +:+ " differ "
     +:+ "[committed " +:+ _VERSION_ID_COL +:+ "=" +:+ py_str version_id
     +:+ ", object " +:+ _VERSION_ID_COL +:+ "=" +:+ py_str object_version_id +:+ "]").

(** [_validate_version_id(instance, mapi)]. *)
Definition _validate_version_id (instance : Instance) (mapi_name : string) : M unit :=
  let version_id := default PNone (committed_state instance !! _VERSION_ID_COL) in
  if truthy version_id then
    match inst_attrs instance !! _VERSION_ID_COL with
    | None => raise (AttributeError _VERSION_ID_COL)
    | Some object_version_id =>
        if py_ne object_version_id version_id then
          call (EvRollback mapi_name) (fun s => (rollback mapi_name s, Ok tt));;
          raise (version_conflict version_id object_version_id)
        else mret tt
    end
  else mret tt.

(** Lines 280-283: one item of a collection diff. ([item.pop] also takes
    the tag out of the caller's diff, which the applier does not read
    again.) *)
Definition append_item (mapi_name : string) (instance_id : Z) (attribute_name : string)
    (instance : Instance) (item : kwargs) : M Instance :=
  match item !! "_MODEL_CLS" with
  | None => raise (Exn "KeyError" "_MODEL_CLS")
  | Some (PStr model_name) =>
      getattr_model model_name;;
      let item := delete "_MODEL_CLS" item in
      new_attr ← call (EvConstruct model_name item) (fun s => (s, model_cls s model_name item));
      note (EvAppend mapi_name instance_id attribute_name new_attr);;
      mret (collection_add instance attribute_name new_attr)
  | Some _ => raise (Exn "TypeError" "getattr(): attribute name must be string")
  end.

(** Lines 275-286: one entry of [tracked_attributes.items()]; [instance] is
    the local variable, [None] until the entity has been fetched. *)
Definition apply_attribute (mapi_name : string) (instance_id : Z)
    (instance : option Instance) (entry : string * tracked) : M (option Instance) :=
  let '(attribute_name, value) := entry in
  instance ← match instance with
             | Some instance => mret instance
             | None => call (EvGet mapi_name instance_id) (get mapi_name instance_id)
             end;
  match value with
  | Appended items =>
      instance ← fold_each (append_item mapi_name instance_id attribute_name) instance items;
      mret (Some instance)
  | Scalar value =>
      if py_ne (initial value) (current value) then
        note (EvSetattr mapi_name instance_id attribute_name (current value));;
        mret (Some (setattr instance attribute_name (current value)))
      else mret (Some instance)
  end.

(** Lines 288-289: the version check, then [mapi.update(instance)]. *)
Definition validate_and_update (mapi_name : string) (instance : Instance) : M unit :=
  _validate_version_id instance mapi_name;;
  call (EvUpdate mapi_name instance) (update mapi_name instance).

(** Lines 272-289: one entry of [tracked_instances.items()]. *)
Definition apply_instance (mapi_name : string)
    (entry : Z * list (string * tracked)) : M unit :=
  let '(instance_id, tracked_attributes) := entry in
  record_success mapi_name (Some instance_id) ∅;;
  instance ← fold_each (apply_attribute mapi_name instance_id) None tracked_attributes;
  match instance with
  | Some instance => validate_and_update mapi_name instance
  | None => mret tt
  end.

(** Lines 258-289: one entry of [tracked_changes.items()]. The loop over
    the new instances sits inside it and leaves [mapi_name] and [mapi]
    bound to its own last model. *)
Definition apply_model (entry : string * list (Z * list (string * tracked))) : M unit :=
  let '(mapi_name, tracked_instances) := entry in
  reset_successes mapi_name;;
  getattr_model mapi_name;;
  mapi_name ← (fun st => handle_new_instances (new_instances st) mapi_name st);
  for_each (apply_instance mapi_name) tracked_instances.

(** [json.dumps] cannot serialize the sentinel object. *)
Definition json_serializable (successes : gmap string (gmap (option Z) kwargs)) : bool :=
  bool_decide (map_Forall (fun _ by_id =>
    map_Forall (fun _ (kw : kwargs) => map_Forall (fun _ v => v ≠ PStub) kw) by_id) successes).

(** The [except BaseException] block: drop the empty entries, log, re-raise
    (a failure of [json.dumps] takes the place of the exception). *)
Definition log_and_reraise (e : exn) : M unit := fun st =>
  let successes := filter (fun kv => kv.2 ≠ ∅) (successfully_updated_changes st) in
  let st := State (store st) (trace st) (new_instances st) successes in
  if json_serializable successes then
    (note (EvLogError successes);; raise e) st
  else (st, Raise (Exn "TypeError" "is not JSON serializable")).

(** [apply_tracked_changes(tracked_changes, new_instances, model)]. *)
Definition apply_tracked_changes (tracked_changes : tracked_changes_items)
    (new_instances : new_instances_items) (model : S) : state S * result unit :=
  match for_each apply_model tracked_changes (State model [] new_instances ∅) with
  | (st, Ok _) => (st, Ok tt)
  | (st, Raise e) => log_and_reraise e st
  end.

End Applier.

(** *** Reading the trace *)

(** The kind of call an event stands for, and the mapi it went to. *)
Definition call_of (ev : event) : string * string :=
  match ev with
  | EvConstruct m _ => ("model_cls", m)
  | EvPut m _ => ("put", m)
  | EvGet m _ => ("get", m)
  | EvSetattr m _ _ _ => ("setattr", m)
  | EvAppend m _ _ _ => ("append", m)
  | EvRollback m => ("rollback", m)
  | EvUpdate m _ => ("update", m)
  | EvLogError _ => ("logger.error", "")
  end.

(** The state once the session was rolled back, the call noted. *)
Definition rolled_back {S : Type} `{!Storage S} (mapi_name : string) (st : state S)
  : state S :=
  State (rollback mapi_name (store st)) (trace st ++ [EvRollback mapi_name])
    (new_instances st) (successfully_updated_changes st).

(** The state once [setattr(instance, attribute_name, value)] was noted. *)
Definition assigned {S : Type} (mapi_name : string) (instance_id : Z)
    (attribute_name : string) (value : pyval) (st : state S) : state S :=
  State (store st) (trace st ++ [EvSetattr mapi_name instance_id attribute_name value])
    (new_instances st) (successfully_updated_changes st).

(** A computation adds to the trace, and only events that satisfy [P]. *)
Definition adds_only {S : Type} (P : event -> Prop) {A} (m : M (S := S) A) : Prop :=
  forall st : state S, exists evs, trace (m st).1 = trace st ++ evs /\ Forall P evs.

(** An assignment the trace shows stems from a scalar entry of the diff
    whose [initial] differs from its [current], the value assigned. *)
Definition from_dirty_entry (tracked_changes : tracked_changes_items) (ev : event) : Prop :=
  match ev with
  | EvSetattr _ instance_id attribute_name value =>
      exists mapi_name tracked_instances tracked_attributes v,
        (mapi_name, tracked_instances) ∈ tracked_changes /\
        (instance_id, tracked_attributes) ∈ tracked_instances /\
        (attribute_name, Scalar v) ∈ tracked_attributes /\
        current v = value /\ initial v <> current v
  | _ => True
  end.

(** *** More of the worker side *)

(** What the append listener stores for a new member of a collection: the
    member's field map ([to_dict()] updated with the private fields), tagged
    with its model name. *)
Definition serialize_member (value : entity) : kwargs :=
  <["_MODEL_CLS" := PStr (__modelname__ value)]> (__dict__ value).

(** The ['append'] listener of [_register_append_to_attribute_listener] for
    the collection attribute [key] ([initiator.key]). A [_Value] tracked
    under that key has no [append]. *)
Definition append_listener (key : string) (self : _Instrumentation)
    (target value : entity) : _Instrumentation * result unit :=
  let mapi_name := __modelname__ target in
  let tracked_attributes := tracked_attributes_of self mapi_name (entity_id target) in
  match tracked_attributes !! key with
  | Some (Scalar _) =>
      (set_tracked_attributes self mapi_name (entity_id target) tracked_attributes,
       Raise (AttributeError "append"))
  | Some (Appended collection) =>
      (set_tracked_attributes self mapi_name (entity_id target)
         (<[key := Appended (collection ++ [serialize_member value])]> tracked_attributes),
       Ok tt)
  | None =>
      (set_tracked_attributes self mapi_name (entity_id target)
         (<[key := Appended [serialize_member value]]> tracked_attributes),
       Ok tt)
  end.

(** The id [_new_instance_id] gives once [k] instances are queued. *)
Definition temp_id (k : nat) : string := _NEW_INSTANCE +:+ "_" +:+ pretty k.

(** The field map recorded for a new instance, if any. *)
Definition new_instance_entry (self : _Instrumentation) (mapi_name tmp_id : string)
  : option kwargs :=
  new_instances_as_dict self !! mapi_name ≫= (fun tracked_instances => tracked_instances !! tmp_id).

(** *** More on the trace of the applier *)

Definition is_rollback (ev : event) : bool :=
  match ev with EvRollback _ => true | _ => false end.

Definition is_log_error (ev : event) : bool :=
  match ev with EvLogError _ => true | _ => false end.

(** A storage call other than a rollback. *)
Definition is_plain_call (ev : event) : Prop :=
  is_rollback ev = false /\ is_log_error ev = false.

(** How the calls a computation adds may end: plain calls only when it
    returns, plain calls and then at most one rollback when it raises. *)
Definition ends_cleanly {A} (evs : list event) (r : result A) : Prop :=
  match r with
  | Ok _ => Forall is_plain_call evs
  | Raise _ =>
      exists plain, Forall is_plain_call plain /\
        (evs = plain \/ exists mapi_name, evs = plain ++ [EvRollback mapi_name])
  end.

(** The entries of [new_instances] that are still field maps. *)
Definition is_kwargs (entry : new_entry) : bool :=
  match entry with NewKwargs _ => true | NewInstance _ => false end.

Definition count_kwargs (new_instances : new_instances_items) : nat :=
  sum_list ((fun item => length (List.filter is_kwargs item.2.*2)) <$> new_instances).

(** The keys of a dictionary's items are distinct, also within each of the
    dictionaries it holds. *)
Definition distinct_keys (new_instances : new_instances_items) : Prop :=
  NoDup new_instances.*1 /\ Forall (fun item => NoDup item.2.*1) new_instances.

(** *** What the listeners and the applier leave behind *)

(** What is recorded after the instances [queue] were attached, one after
    the other, to a context that held no new instance. *)
Definition records_exactly (self : _Instrumentation) (queue : list entity) : Prop :=
  _instances_to_expunge self = queue /\
  forall m tmp kw,
    new_instance_entry self m tmp = Some kw <->
    exists k instance, queue !! k = Some instance /\ m = __modelname__ instance /\
                       tmp = temp_id (S k) /\ kw = __dict__ instance.

(** The members appended to a collection attribute of one entity, one after
    the other. *)
Definition append_all (key : string) (target : entity) (self : _Instrumentation)
    (members : list entity) : _Instrumentation :=
  foldl (fun self value => (append_listener key self target value).1) self members.

(** The calls the applier makes for the members of a collection: each child
    is constructed, then added. *)
Definition rebuilt_calls (mapi_name : string) (instance_id : Z) (attribute_name : string)
    (members : list entity) (children : list Instance) : list event :=
  mjoin (zip_with (fun value child =>
                     [EvConstruct (__modelname__ value) (__dict__ value);
                      EvAppend mapi_name instance_id attribute_name child])
           members children).

(** The instance once [children] were added to its collection. *)
Definition with_members (instance : Instance) (attribute_name : string)
    (children : list Instance) : Instance :=
  foldl (fun instance child => collection_add instance attribute_name child)
    instance children.

(** A computation of the applier adds calls that end cleanly. *)
Definition stops_at_rollback {S : Type} {A} (m : M (S := S) A) : Prop :=
  forall st : state S, exists evs,
    trace (m st).1 = trace st ++ evs /\ ends_cleanly evs (m st).2.

(** The number of [mapi.put] calls among the calls made. *)
Definition puts (evs : list event) : nat := length (filter (fun ev => is_put ev) evs).

(** A computation that calls no [put] and leaves [new_instances] alone. *)
Definition puts_nothing {S : Type} {A} (m : M (S := S) A) : Prop :=
  forall st : state S,
    new_instances (m st).1 = new_instances st /\
    exists evs, trace (m st).1 = trace st ++ evs /\ puts evs = 0.

(** A computation that calls [put] at most [k] times. *)
Definition puts_at_most {S : Type} (k : nat) {A} (m : M (S := S) A) : Prop :=
  forall st : state S, exists evs, trace (m st).1 = trace st ++ evs /\ puts evs <= k.

(** Every entry of the dictionary of one model holds an instance. *)
Definition all_handled (new_instance : list (string * new_entry)) : Prop :=
  Forall (fun entry => is_kwargs entry.2 = false) new_instance.

End Instrumentation.

(** ** process.py: frame codec *)

Module Process.

(** [_INT_FMT = 'I'] and [_INT_SIZE = struct.calcsize(_INT_FMT)]: a native
    unsigned int, four bytes. *)
Definition _INT_SIZE : nat := 4.

(** A connected stream socket, seen from the reader.
    - [pending]: the bytes the peer sends before it closes its end;
    - [schedule]: how the network cuts them into reads: the k-th [recv]
      delivers at most [S (schedule k)] bytes (everything asked for once the
      schedule is used up);
    - [sent]: the bytes written so far;
    - [closed]: [close()] was called. *)
Record connection := Connection {
  pending : list byte;
  schedule : list nat;
  sent : list byte;
  closed : bool
}.

(** [connection.recv(count)]: at most [count] bytes, at least one unless
    nothing is pending, in which case the empty string (EOF). *)
Definition recv (c : connection) (count : nat) : list byte * connection :=
  let k := match schedule c with
           | [] => count
           | s :: _ => Nat.min count (S s)
           end in
  (take k (pending c),
   {| pending := drop k (pending c);
      schedule := tail (schedule c);
      sent := sent c;
      closed := closed c |}).

(** The [while True] loop of [_recv_bytes]; [result] is the [io.BytesIO]
    buffer. [count] strictly decreases with every non-empty read. *)
Equations? _recv_bytes_loop (c : connection) (count : nat) (result : list byte)
  : list byte * connection by wf count lt :=
  _recv_bytes_loop c 0 result := (result, c);
  _recv_bytes_loop c (S n) result with recv c (S n) := {
    | ([], c') := (result, c');
    | (b :: read, c') :=
        _recv_bytes_loop c' (S n - length (b :: read)) (result ++ b :: read) }.
Proof. simpl. lia. Qed.

Definition _recv_bytes (c : connection) (count : nat) : list byte * connection :=
  _recv_bytes_loop c count [].

Definition struct_error : exn :=
  Exn "struct.error" "unpack requires a string argument of length 4".

(** [struct.unpack('I', data)[0]] on a little-endian machine. *)
Definition unpack_I (data : list byte) : result N :=
  match data with
  | [b0; b1; b2; b3] =>
      Ok (Byte.to_N b0 + 256 * (Byte.to_N b1 + 256 * (Byte.to_N b2 + 256 * Byte.to_N b3)))%N
  | _ => Raise struct_error
  end.

(** [struct.pack('I', n)]. *)
Definition pack_I (n : N) : result (list byte) :=
  if (n <? 2 ^ 32)%N then
    match Byte.of_N (n mod 256), Byte.of_N (n / 256 mod 256),
          Byte.of_N (n / 65536 mod 256), Byte.of_N (n / 16777216 mod 256) with
    | Some b0, Some b1, Some b2, Some b3 => Ok [b0; b1; b2; b3]
    | _, _, _, _ => Raise struct_error
    end
  else Raise (Exn "struct.error" "integer out of range for 'I' format code").

Section Codec.
(** The payload type and [jsonpickle]'s two functions. *)
Context {A : Type} (dumps : A -> list byte) (loads : list byte -> result A).

(** [_recv_message(connection)]. *)
Definition _recv_message (c : connection) : connection * result A :=
  let '(header, c1) := _recv_bytes c _INT_SIZE in
  match unpack_I header with
  | Raise e => (c1, Raise e)
  | Ok msg_metadata_len =>
      let '(msg, c2) := _recv_bytes c1 (N.to_nat msg_metadata_len) in
      (c2, loads msg)
  end.

(** [_send_message(connection, message)]: the packed length, then the data. *)
Definition _send_message (c : connection) (msg : A) : connection * result unit :=
  let data := dumps msg in
  match pack_I (N.of_nat (length data)) with
  | Raise e => (c, Raise e)
  | Ok msg_metadata =>
      ({| pending := pending c; schedule := schedule c;
          sent := sent c ++ msg_metadata ++ data; closed := closed c |}, Ok tt)
  end.

End Codec.

(** ** process.py: messenger, session patch, executor *)

(** A request frame: the dictionary [_Messenger._send_message] builds. *)
Record request := Request {
  req_type : string;
  req_task_id : option string;
  req_exception : option exn;
  req_traceback : string;
  req_tracked_changes : Instrumentation.tracked_changes_items;
  req_new_instances : Instrumentation.new_instances_items
}.

(** A response frame: [{}], or [{'exception': e}]. *)
Record response := Response { resp_exception : option exn }.

Definition UPDATE_TRACKED_CHANGES_FAILED_STR : string :=
  "Some changes failed writing to storage. For more info refer to the log.".

(** [sock.close()]. *)
Definition close_socket (c : connection) : connection :=
  {| pending := pending c; schedule := schedule c; sent := sent c; closed := true |}.

(** What [sock.connect(('localhost', port))] leads to: a connection whose
    [pending] bytes are what the listener will answer, or an error. *)
Definition network : Type := nat -> result connection.

Record _Messenger := Messenger { task_id : option string; port : nat }.

Section Messenger.
(** [jsonpickle.dumps] on requests, [jsonpickle.loads] on responses, and the
    two helpers of [aria.utils.exceptions]. *)
Context (dumps : request -> list byte) (loads : list byte -> result response).
Context (wrap_if_needed : option exn -> option exn) (get_exception_as_string : string).

(** [_Messenger._send_message]: the socket it used, if it got one, and how
    the call ended. *)
Definition _Messenger_send_message (self : _Messenger) (net : network) (type : string)
    (tracked_changes : option Instrumentation.tracked_changes_items)
    (new_instances : option Instrumentation.new_instances_items)
    (exception : option exn) : option connection * result unit :=
  match net (port self) with
  | Raise e => (None, Raise e)
  | Ok sock =>
      let '(sock, r) :=
        match _send_message dumps sock
                {| req_type := type;
                   req_task_id := task_id self;
                   req_exception := wrap_if_needed exception;
                   req_traceback := get_exception_as_string;
                   req_tracked_changes := default [] tracked_changes;
                   req_new_instances := default [] new_instances |} with
        | (sock, Raise e) => (sock, Raise e)
        | (sock, Ok _) =>
            match _recv_message loads sock with
            | (sock, Raise e) => (sock, Raise e)
            | (sock, Ok response) =>
                match resp_exception response with
                | Some response_exception => (sock, Raise response_exception)
                | None => (sock, Ok tt)
                end
            end
        end in
      (Some (close_socket sock), r)
  end.

(** [_Messenger.closed()]. *)
Definition closed_message (self : _Messenger) (net : network)
  : option connection * result unit :=
  _Messenger_send_message self net "closed" None None None.

End Messenger.

(** [_patch_ctx]: [session.refresh] before the patch reloads the entity and
    fires the ['refresh'] event, which reaches the instance listener when
    the entity's class is instrumented ([registered]). *)
Definition original_refresh (reload : Instrumentation.entity -> Instrumentation.entity)
    (registered : option (string * list (string * Instrumentation.attribute_type)))
    (instrument : Instrumentation._Instrumentation) (target : Instrumentation.entity)
  : (Instrumentation._Instrumentation * Instrumentation.entity) * result unit :=
  match registered with
  | Some (mapi_name, instrumented_attributes) =>
      Instrumentation.instance_listener mapi_name instrumented_attributes
        instrument (reload target)
  | None => ((instrument, reload target), Ok tt)
  end.

(** [patched_refresh(target)]. *)
Definition patched_refresh (reload : Instrumentation.entity -> Instrumentation.entity)
    (registered : option (string * list (string * Instrumentation.attribute_type)))
    (instrument : Instrumentation._Instrumentation) (target : Instrumentation.entity)
  : (Instrumentation._Instrumentation * Instrumentation.entity) * result unit :=
  original_refresh reload registered
    (Instrumentation.clear instrument (Some target)) target.

(** A task, as far as the executor looks into it: its [id]. *)
Record Task := MkTask { tid : string }.

(** What the executor reports through [BaseExecutor] ([_task_started],
    [_task_failed], [_task_succeeded]) and what it asks of the applier. *)
Inductive executor_event :=
| Applied (task : Task) (calls : list Instrumentation.event) (outcome : result unit)
| TaskStarted (task : Task)
| TaskFailed (task : Task) (exception : option exn) (traceback : option string)
| TaskSucceeded (task : Task).

(** The executor: its stopped flag, its task registry, the model storage its
    tasks' contexts refer to, what happened so far, the sockets its own
    messenger used, whether the server socket is closed and how often the
    listener thread was joined. *)
Record ProcessExecutor (S : Type) := Executor {
  _stopped : bool;
  _tasks : gmap string Task;
  model : S;
  history : list executor_event;
  _messenger : _Messenger;
  messenger_sockets : list (option connection);
  _server_socket_closed : bool;
  _listener_thread_joins : nat
}.
Arguments Executor {S}.
Arguments _stopped {S}.
Arguments _tasks {S}.
Arguments model {S}.
Arguments history {S}.
Arguments _messenger {S}.
Arguments messenger_sockets {S}.
Arguments _server_socket_closed {S}.
Arguments _listener_thread_joins {S}.

Section Executor.
Context {S : Type} `{!Instrumentation.Storage S}.
Context (dumps : request -> list byte) (loads : list byte -> result response).
Context (wrap_if_needed : option exn -> option exn) (get_exception_as_string : string).

(** [ProcessExecutor.close()]. *)
Definition close (net : network) (self : ProcessExecutor S)
  : ProcessExecutor S * result unit :=
  if _stopped self then (self, Ok tt)
  else
    let '(sock, r) :=
      closed_message dumps loads wrap_if_needed get_exception_as_string
        (_messenger self) net in
    match r with
    | Raise e =>
        (Executor true (_tasks self) (model self) (history self) (_messenger self)
           (messenger_sockets self ++ [sock]) (_server_socket_closed self)
           (_listener_thread_joins self), Raise e)
    | Ok _ =>
        (Executor true (_tasks self) (model self) (history self) (_messenger self)
           (messenger_sockets self ++ [sock]) true
           (Datatypes.S (_listener_thread_joins self)), Ok tt)
    end.

Definition with_tasks (self : ProcessExecutor S) (tasks : gmap string Task)
  : ProcessExecutor S :=
  Executor (_stopped self) tasks (model self) (history self) (_messenger self)
    (messenger_sockets self) (_server_socket_closed self) (_listener_thread_joins self).

Definition report (self : ProcessExecutor S) (ev : executor_event)
  : ProcessExecutor S :=
  Executor (_stopped self) (_tasks self) (model self) (history self ++ [ev])
    (_messenger self) (messenger_sockets self) (_server_socket_closed self)
    (_listener_thread_joins self).

(** [self._tasks.pop(task_id)]. *)
Definition _remove_task (self : ProcessExecutor S) (task_id : string)
  : ProcessExecutor S * result Task :=
  match _tasks self !! task_id with
  | Some task => (with_tasks self (delete task_id (_tasks self)), Ok task)
  | None => (self, Raise (Exn "KeyError" task_id))
  end.

(** [self._tasks[task_id]]. *)
Definition lookup_task (self : ProcessExecutor S) (task_id : string) : result Task :=
  match _tasks self !! task_id with
  | Some task => Ok task
  | None => Raise (Exn "KeyError" task_id)
  end.

(** [ProcessExecutor._apply_tracked_changes(task, request)]. *)
Definition _apply_tracked_changes (self : ProcessExecutor S) (task : Task)
    (request : request) : ProcessExecutor S * result unit :=
  let '(st, r) :=
    Instrumentation.apply_tracked_changes (req_tracked_changes request)
      (req_new_instances request) (model self) in
  (Executor (_stopped self) (_tasks self) (Instrumentation.store st)
     (history self ++ [Applied task (Instrumentation.trace st) r])
     (_messenger self) (messenger_sockets self) (_server_socket_closed self)
     (_listener_thread_joins self), r).

(** [e.message += suffix]. *)
Definition add_message (e : exn) (suffix : string) : exn :=
  Exn (exc_type e) (message e +:+ suffix).

Definition _handle_task_started_request (self : ProcessExecutor S) (task_id : string)
  : ProcessExecutor S * result unit :=
  match lookup_task self task_id with
  | Raise e => (self, Raise e)
  | Ok task => (report self (TaskStarted task), Ok tt)
  end.

Definition _handle_task_succeeded_request (self : ProcessExecutor S) (task_id : string)
    (request : request) : ProcessExecutor S * result unit :=
  match _remove_task self task_id with
  | (self, Raise e) => (self, Raise e)
  | (self, Ok task) =>
      match _apply_tracked_changes self task request with
      | (self, Raise e) =>
          (report self
             (TaskFailed task (Some (add_message e UPDATE_TRACKED_CHANGES_FAILED_STR)) None),
           Ok tt)
      | (self, Ok _) => (report self (TaskSucceeded task), Ok tt)
      end
  end.

Definition _handle_task_failed_request (self : ProcessExecutor S) (task_id : string)
    (request : request) : ProcessExecutor S * result unit :=
  match _remove_task self task_id with
  | (self, Raise e) => (self, Raise e)
  | (self, Ok task) =>
      match _apply_tracked_changes self task request with
      | (self, Raise e) =>
          (report self
             (TaskFailed task
                (Some (add_message e
                   ("Task failed due to "
                    +:+ from_option message "None" (req_exception request) +:+ "."
                    +:+ UPDATE_TRACKED_CHANGES_FAILED_STR)))
                (Some get_exception_as_string)),
           Ok tt)
      | (self, Ok _) =>
          (report self
             (TaskFailed task (req_exception request) (Some (req_traceback request))),
           Ok tt)
      end
  end.

(** [_handle_apply_tracked_changes_request]: the error, if any, goes into
    the response. *)
Definition _handle_apply_tracked_changes_request (self : ProcessExecutor S)
    (task_id : string) (request : request)
  : ProcessExecutor S * result response :=
  match lookup_task self task_id with
  | Raise e => (self, Raise e)
  | Ok task =>
      match _apply_tracked_changes self task request with
      | (self, Raise e) => (self, Ok (Response (wrap_if_needed (Some e))))
      | (self, Ok _) => (self, Ok (Response None))
      end
  end.

End Executor.

(** ** process.py: the other messages, the listener, [_execute] *)

Section MessengerOperations.
Context (dumps : request -> list byte) (loads : list byte -> result response).
Context (wrap_if_needed : option exn -> option exn) (get_exception_as_string : string).

(** [_Messenger.started()]. *)
Definition started_message (self : _Messenger) (net : network)
  : option connection * result unit :=
  _Messenger_send_message dumps loads wrap_if_needed get_exception_as_string
    self net "started" None None None.

(** [_Messenger.succeeded(tracked_changes, new_instances)]. *)
Definition succeeded_message (self : _Messenger) (net : network)
    (tracked_changes : option Instrumentation.tracked_changes_items)
    (new_instances : option Instrumentation.new_instances_items)
  : option connection * result unit :=
  _Messenger_send_message dumps loads wrap_if_needed get_exception_as_string
    self net "succeeded" tracked_changes new_instances None.

(** [_Messenger.failed(tracked_changes, new_instances, exception)]. *)
Definition failed_message (self : _Messenger) (net : network)
    (tracked_changes : option Instrumentation.tracked_changes_items)
    (new_instances : option Instrumentation.new_instances_items)
    (exception : option exn) : option connection * result unit :=
  _Messenger_send_message dumps loads wrap_if_needed get_exception_as_string
    self net "failed" tracked_changes new_instances exception.

(** [_Messenger.apply_tracked_changes(tracked_changes, new_instances)]. *)
Definition apply_tracked_changes_message (self : _Messenger) (net : network)
    (tracked_changes : option Instrumentation.tracked_changes_items)
    (new_instances : option Instrumentation.new_instances_items)
  : option connection * result unit :=
  _Messenger_send_message dumps loads wrap_if_needed get_exception_as_string
    self net "apply_tracked_changes" tracked_changes new_instances None.

End MessengerOperations.

(** How one round of the listener's loop ends. *)
Inductive loop_control := Continue | Break.

Section Listener.
Context {S : Type} `{!Instrumentation.Storage S}.
(** [jsonpickle.loads] on requests, [jsonpickle.dumps] on responses. *)
Context (loads : list byte -> result request) (dumps : response -> list byte).
Context (wrap_if_needed : option exn -> option exn) (get_exception_as_string : string).

(** [ProcessExecutor._check_closed()]. *)
Definition _check_closed (self : ProcessExecutor S) : result unit :=
  if _stopped self then Raise (Exn "RuntimeError" "Executor closed") else Ok tt.

(** [ProcessExecutor._execute(task)]; [spawn] stands for what follows the
    registration: the arguments file, the environment and [Popen]. *)
Definition _execute (spawn : Task -> result unit) (self : ProcessExecutor S)
    (task : Task) : ProcessExecutor S * result unit :=
  match _check_closed self with
  | Raise e => (self, Raise e)
  | Ok _ => (with_tasks self (<[tid task := task]> (_tasks self)), spawn task)
  end.

(** [request['task_id']] handed to a handler: every handler starts by
    looking the id up in the registry, where [None] is no key. *)
Definition with_task_id {A} (self : ProcessExecutor S) (task_id : option string)
    (handler : string -> ProcessExecutor S * result A) : ProcessExecutor S * result A :=
  match task_id with
  | Some task_id => handler task_id
  | None => (self, Raise (Exn "KeyError" "None"))
  end.

Definition invalid_request_type (request_type : string) : exn :=
  Exn "RuntimeError" ("Invalid request type: " +:+ request_type).

(** The body of the [with self._accept_request() as (request, response)]
    block of [_listener]: the executor and the response dictionary as the
    block leaves them, and whether it ran to its end, broke out of the loop
    or raised. *)
Definition dispatch (self : ProcessExecutor S) (request : request)
  : (ProcessExecutor S * response) * result loop_control :=
  let request_type := req_type request in
  let plain (handled : ProcessExecutor S * result unit) :=
    match handled with
    | (self, Ok _) => ((self, Response None), Ok Continue)
    | (self, Raise e) => ((self, Response None), Raise e)
    end in
  if String.eqb request_type "closed" then ((self, Response None), Ok Break)
  else if String.eqb request_type "started" then
    plain (with_task_id self (req_task_id request)
             (fun task_id => _handle_task_started_request self task_id))
  else if String.eqb request_type "succeeded" then
    plain (with_task_id self (req_task_id request)
             (fun task_id => _handle_task_succeeded_request self task_id request))
  else if String.eqb request_type "failed" then
    plain (with_task_id self (req_task_id request)
             (fun task_id =>
                _handle_task_failed_request get_exception_as_string self task_id request))
  else if String.eqb request_type "apply_tracked_changes" then
    match with_task_id self (req_task_id request)
            (fun task_id =>
               _handle_apply_tracked_changes_request wrap_if_needed self task_id request) with
    | (self, Ok response) => ((self, response), Ok Continue)
    | (self, Raise e) => ((self, Response None), Raise e)
    end
  else ((self, Response None), Raise (invalid_request_type request_type)).

(** The response [_accept_request] sends: what the block left in it, or the
    exception the block raised. *)
Definition final_response (left : response) (r : result loop_control) : response :=
  match r with
  | Raise e => Response (wrap_if_needed (Some e))
  | Ok _ => left
  end.

(** One round of [_listener] on what [accept()] gave, [_accept_request]
    included: the request is read, the block runs, an exception it raises is
    put into the response, the response is sent and the connection closed.
    The result is what the round leaves for the [except] of the loop. *)
Definition serve (accepted : result connection) (self : ProcessExecutor S)
  : (ProcessExecutor S * option connection) * result loop_control :=
  match accepted with
  | Raise e => ((self, None), Raise e)
  | Ok connection =>
      match _recv_message loads connection with
      | (connection, Raise e) => ((self, Some (close_socket connection)), Raise e)
      | (connection, Ok message) =>
          let '((self, response), r) := dispatch self message in
          match _send_message dumps connection (final_response response r) with
          | (connection, Raise e) => ((self, Some (close_socket connection)), Raise e)
          | (connection, Ok _) => ((self, Some (close_socket connection)), r)
          end
      end
  end.

(** [_listener], on the outcomes of the [accept()] calls to come: the
    executor, the connections served and the errors logged at debug level.
    (The stopped flag is the one the executor has when the loop starts;
    another thread setting it is outside this model.) *)
Fixpoint _listener (accepts : list (result connection)) (self : ProcessExecutor S)
  : ProcessExecutor S * list (option connection) * list exn :=
  if _stopped self then (self, [], [])
  else
    match accepts with
    | [] => (self, [], [])
    | accepted :: accepts =>
        match serve accepted self with
        | ((self, connection), Ok Break) => (self, [connection], [])
        | ((self, connection), Ok Continue) =>
            let '(self, connections, logged) := _listener accepts self in
            (self, connection :: connections, logged)
        | ((self, connection), Raise e) =>
            let '(self, connections, logged) := _listener accepts self in
            (self, connection :: connections, e :: logged)
        end
    end.

End Listener.

(** The bytes written to a connection between two of its states. *)
Definition written (before after : connection) : list byte :=
  drop (length (sent before)) (sent after).

(** What serving requests may change in the executor: the registry may lose
    tasks, the storage may change, reports may be added; the rest stays. *)
Definition served_within {S : Type} (before after : ProcessExecutor S) : Prop :=
  _stopped after = _stopped before /\
  _messenger after = _messenger before /\
  messenger_sockets after = messenger_sockets before /\
  _server_socket_closed after = _server_socket_closed before /\
  _listener_thread_joins after = _listener_thread_joins before /\
  _tasks after ⊆ _tasks before /\
  exists reported, history after = history before ++ reported.

(** A connection the listener is done with: none was accepted, or it is
    closed. *)
Definition released (served : option connection) : Prop :=
  match served with
  | Some connection => closed connection = true
  | None => True
  end.

End Process.

(** ** A storage and inputs to run the definitions on *)

Module Examples.
Import Instrumentation Process.

(** An in-memory model storage: one table of instances per model, the next
    free id, and the number of rollbacks of its session. *)
Record mem := Mem {
  tables : gmap string (gmap Z Instance);
  next_id : Z;
  rollbacks : nat
}.

Definition not_found : exn := Exn "StorageError" "Requested instance not found".

Definition mem_put (mapi_name : string) (instance : Instance) (s : mem)
  : mem * result Instance :=
  let stored := Inst (Some (next_id s)) (inst_attrs instance) ∅
                     (inst_collections instance) in
  (Mem (<[mapi_name := <[next_id s := stored]> (default ∅ (tables s !! mapi_name))]>
          (tables s))
       (next_id s + 1) (rollbacks s),
   Ok stored).

Definition mem_get (mapi_name : string) (instance_id : Z) (s : mem)
  : mem * result Instance :=
  match tables s !! mapi_name ≫= (fun table => table !! instance_id) with
  | Some instance => (s, Ok instance)
  | None => (s, Raise not_found)
  end.

Definition mem_update (mapi_name : string) (instance : Instance) (s : mem)
  : mem * result unit :=
  match inst_id instance with
  | Some instance_id =>
      let stored := Inst (inst_id instance) (inst_attrs instance) ∅
                         (inst_collections instance) in
      (Mem (<[mapi_name := <[instance_id := stored]>
                             (default ∅ (tables s !! mapi_name))]> (tables s))
           (next_id s) (rollbacks s),
       Ok tt)
  | None => (s, Raise not_found)
  end.

#[global] Instance mem_storage : Storage mem := {|
  has_mapi s mapi_name := bool_decide (is_Some (tables s !! mapi_name));
  model_cls _ _ kw := Ok (Inst None kw ∅ []);
  put := mem_put;
  get := mem_get;
  update := mem_update;
  rollback _ s := Mem (tables s) (next_id s) (S (rollbacks s))
|}.

(** A node with id 1, state "a", version 1; no logs yet. *)
Definition node1 : Instance :=
  Inst (Some 1%Z) {[ "state" := PStr "a"; "version" := PInt 1 ]} ∅ [].

Definition model0 : mem :=
  Mem {[ "node" := {[ 1%Z := node1 ]}; "task" := ∅; "log" := ∅ ]} 2 0.

(** The same node on the worker side. *)
Definition node1_entity : entity :=
  Entity "node" 1 {[ "state" := PStr "a"; "version" := PInt 1 ]}.

(** A log entry the worker created. *)
Definition log_kwargs : kwargs := {[ "msg" := PStr "hello"; "level" := PStr "info" ]}.

Definition one_log : new_instances_items :=
  [("log", [("NEW_INSTANCE_1", NewKwargs log_kwargs)])].

(** A toy [jsonpickle]: requests are sent as their type, and the response
    payload "{}" is the empty dictionary, any other an exception. *)
Definition dumps0 (r : request) : list byte := String.list_byte_of_string (req_type r).

Definition boom : exn := Exn "StorageError" "Version conflict".

Definition loads0 (data : list byte) : result response :=
  if decide (data = String.list_byte_of_string "{}") then Ok (Response None)
  else Ok (Response (Some boom)).

(** The bytes of a frame whose payload is [payload]. *)
Definition frame (payload : string) : list byte :=
  let data := String.list_byte_of_string payload in
  match pack_I (N.of_nat (length data)) with
  | Ok msg_metadata => msg_metadata ++ data
  | Raise _ => []
  end.

(** A listener that answers the empty dictionary, the answer arriving in
    pieces of one and two bytes. *)
Definition net_ok : network := fun _ => Ok (Connection (frame "{}") [0; 1; 0] [] false).

(** A listener that answers with an exception. *)
Definition net_exception : network :=
  fun _ => Ok (Connection (frame "{'exception': ...}") [2; 0; 3] [] false).

(** More of the toy [jsonpickle]. A request travels as its type; the reader
    is told the rest of it: it is about task "t1" and carries the diff
    [tracked_changes]. *)
Definition loads_request0 (tracked_changes : tracked_changes_items) (data : list byte)
  : result request :=
  Ok (Request (String.string_of_list_byte data) (Some "t1") None "" tracked_changes []).

(** A response travels as "{}" or as a placeholder for its exception, which
    [loads0] reads as [boom]; [wrap0] turns every exception into [boom]. *)
Definition dumps_response0 (r : response) : list byte :=
  String.list_byte_of_string
    match resp_exception r with
    | None => "{}"
    | Some _ => "{'exception': ...}"
    end.

Definition wrap0 (e : option exn) : option exn :=
  match e with
  | Some _ => Some boom
  | None => None
  end.

(** An executor with the task "t1" registered, over [model0]. *)
Definition executor0 : ProcessExecutor mem :=
  Executor false {[ "t1" := MkTask "t1" ]} model0 [] (Messenger None 5000) [] false 0.

(** A diff that sets the state of the node [id] to "b". *)
Definition state_change (id : Z) : tracked_changes_items :=
  [("node", [(id, [("state", Scalar (Value PStub (PStr "b")))])])].

End Examples.

(** * Properties *)

(** ** Frame codec *)

Import Process.

Lemma take_then_rest {A} (l : list A) (k n : nat) :
  k <= n ->
  take k l ++ take (n - length (take k l)) (drop k l) = take n l /\
  drop (n - length (take k l)) (drop k l) = drop n l.
Proof.
  intros Hkn. rewrite length_take.
  destruct (Nat.le_gt_cases (length l) k) as [Hl | Hl].
  - rewrite (take_ge l k), (drop_ge l k), (take_ge l n), (drop_ge l n) by lia.
    rewrite take_nil, drop_nil, app_nil_r. done.
  - replace (k `min` length l) with k by lia. split.
    + rewrite take_take_drop. f_equal. lia.
    + rewrite drop_drop. f_equal. lia.
Qed.

Lemma recv_cases (c : connection) (n : nat) :
  exists k, 0 < k <= S n /\
    recv c (S n) =
      (take k (pending c),
       Connection (drop k (pending c)) (tail (schedule c)) (sent c) (closed c)).
Proof.
  unfold recv. destruct (schedule c) as [| s ?].
  - exists (S n). split; [lia | done].
  - exists (Nat.min (S n) (S s)). split; [lia | done].
Qed.

Lemma _recv_bytes_loop_spec (c : connection) (count : nat) (result : list byte) :
  (_recv_bytes_loop c count result).1 = result ++ take count (pending c) /\
  pending (_recv_bytes_loop c count result).2 = drop count (pending c) /\
  sent (_recv_bytes_loop c count result).2 = sent c /\
  closed (_recv_bytes_loop c count result).2 = closed c.
Proof.
  revert c result. induction count as [count IH] using lt_wf_ind. intros c result.
  destruct count as [| n].
  - simp _recv_bytes_loop. simpl. by rewrite take_0, drop_0, app_nil_r.
  - simp _recv_bytes_loop.
    destruct (recv_cases c n) as (k & [Hk Hle] & Hrecv).
    rewrite Hrecv. destruct (take k (pending c)) as [| b read] eqn:Htake.
    + simpl. assert (pending c = []) as Hnil.
      { destruct (pending c); [done |]. destruct k; [lia | done]. }
      rewrite Hnil, take_nil, drop_nil, app_nil_r. done.
    + simpl.
      pose proof (take_then_rest (pending c) k (S n) Hle) as [Ht Hd].
      rewrite Htake in Ht, Hd. simpl in Ht, Hd.
      edestruct (IH (n - length read)) as (H1 & H2 & H3 & H4); [lia |].
      rewrite H1, H2, H3, H4. simpl. rewrite Hd. split; [| done].
      rewrite <- Ht. by rewrite <- app_assoc.
Qed.

Lemma _recv_bytes_spec (c : connection) (count : nat) :
  (_recv_bytes c count).1 = take count (pending c) /\
  pending (_recv_bytes c count).2 = drop count (pending c) /\
  sent (_recv_bytes c count).2 = sent c /\
  closed (_recv_bytes c count).2 = closed c.
Proof. unfold _recv_bytes. apply (_recv_bytes_loop_spec c count []). Qed.

Lemma unpack_I_length (data : list byte) (n : N) :
  unpack_I data = Ok n -> length data = _INT_SIZE.
Proof.
  destruct data as [| ? [| ? [| ? [| ? [| ? ?]]]]]; simpl; try discriminate. done.
Qed.

Lemma _recv_message_spec {A} (loads : list byte -> result A) (c : connection) :
  match unpack_I (take _INT_SIZE (pending c)) with
  | Ok len =>
      (_recv_message loads c).2
        = loads (take (N.to_nat len) (drop _INT_SIZE (pending c))) /\
      pending (_recv_message loads c).1
        = drop (N.to_nat len) (drop _INT_SIZE (pending c))
  | Raise e =>
      (_recv_message loads c).2 = Raise e /\
      pending (_recv_message loads c).1 = drop _INT_SIZE (pending c)
  end /\
  sent (_recv_message loads c).1 = sent c /\
  closed (_recv_message loads c).1 = closed c.
Proof.
  unfold _recv_message.
  destruct (_recv_bytes_spec c _INT_SIZE) as (Hh & Hp & Hs & Hc).
  destruct (_recv_bytes c _INT_SIZE) as [header c1]. simpl in Hh, Hp, Hs, Hc.
  subst header. destruct (unpack_I _) as [len | e]; [| simpl; by rewrite Hp].
  destruct (_recv_bytes_spec c1 (N.to_nat len)) as (Hm & Hp' & Hs' & Hc').
  destruct (_recv_bytes c1 (N.to_nat len)) as [msg c2]. simpl in *.
  subst msg. rewrite Hp', Hs', Hc', Hp. done.
Qed.

(** C8. Whatever the way the network cuts the stream into reads,
    [_recv_bytes(connection, n)] returns the first [n] pending bytes and
    leaves the rest: exactly [n] bytes when at least [n] arrive before EOF,
    and everything that arrived (a shorter prefix) when EOF comes first.
    [_recv_message] reads the first four bytes as the length and then that
    many bytes as the payload it decodes (a header cut short by EOF makes
    [struct.unpack] raise). *)
Theorem recv_bytes_exact_and_recv_message_framing :
  (forall (c : connection) (n : nat),
      (_recv_bytes c n).1 = take n (pending c) /\
      pending (_recv_bytes c n).2 = drop n (pending c) /\
      (n <= length (pending c) -> length (_recv_bytes c n).1 = n) /\
      (length (pending c) < n ->
         (_recv_bytes c n).1 = pending c /\ pending (_recv_bytes c n).2 = [])) /\
  (forall (A : Type) (loads : list byte -> result A) (c : connection),
      match unpack_I (take _INT_SIZE (pending c)) with
      | Ok len =>
          length (take _INT_SIZE (pending c)) = 4 /\
          (_recv_message loads c).2
            = loads (take (N.to_nat len) (drop _INT_SIZE (pending c))) /\
          pending (_recv_message loads c).1
            = drop (N.to_nat len) (drop _INT_SIZE (pending c))
      | Raise e =>
          (_recv_message loads c).2 = Raise e /\
          pending (_recv_message loads c).1 = drop _INT_SIZE (pending c)
      end).
Proof.
  split.
  - intros c n. destruct (_recv_bytes_spec c n) as (H1 & H2 & _).
    rewrite H1, H2. repeat split.
    + intros Hn. rewrite length_take. lia.
    + rewrite take_ge by lia. done.
    + rewrite drop_ge by lia. done.
  - intros A loads c. destruct (_recv_message_spec loads c) as [H _].
    destruct (unpack_I (take _INT_SIZE (pending c))) as [len | e] eqn:Hu; [| done].
    split; [| done]. by apply unpack_I_length in Hu.
Qed.

Lemma recv_bytes_exact_and_recv_message_framing_witness :
  let c := Connection (Examples.frame "hello" ++ Examples.frame "x") [0; 2; 0; 1] [] false in
  (_recv_bytes c 4).1 = [x05; x00; x00; x00] /\
  length (_recv_bytes c 4).1 = 4 /\
  (_recv_bytes c 40).1 = pending c /\
  (_recv_message (fun data => Ok (String.string_of_list_byte data)) c).2 = Ok "hello".
Proof.
  intros c.
  destruct recv_bytes_exact_and_recv_message_framing as [Hbytes Hmsg].
  destruct (Hbytes c 4) as (H1 & _ & H2 & _).
  destruct (Hbytes c 40) as (_ & _ & _ & H3).
  specialize (Hmsg string (fun data => Ok (String.string_of_list_byte data)) c).
  split; [rewrite H1; reflexivity |].
  split; [apply H2; vm_compute; lia |].
  split; [apply H3; vm_compute; lia |].
  assert (unpack_I (take _INT_SIZE (pending c)) = Ok 5%N) as Hlen by reflexivity.
  rewrite Hlen in Hmsg. destruct Hmsg as (_ & Hm & _). rewrite Hm. reflexivity.
Defined.

(** ** Messenger *)

(** C7. Once [_Messenger._send_message] has connected, it closes the socket
    before it returns, however the exchange ends; and when the request went
    out and a response frame came back, the call raises the response's
    [exception] if it carries one and returns normally otherwise. *)
Theorem messenger_raises_response_exception_and_closes
    (dumps : request -> list byte) (loads : list byte -> result response)
    (wrap_if_needed : option exn -> option exn) (get_exception_as_string : string)
    (self : _Messenger) (net : network) (type : string)
    (tracked_changes : option Instrumentation.tracked_changes_items)
    (new_instances : option Instrumentation.new_instances_items)
    (exception : option exn) (sock : connection) :
  net (port self) = Ok sock ->
  let request := Request type (task_id self) (wrap_if_needed exception)
                   get_exception_as_string (default [] tracked_changes)
                   (default [] new_instances) in
  let outcome := _Messenger_send_message dumps loads wrap_if_needed
                   get_exception_as_string self net type tracked_changes
                   new_instances exception in
  (exists sock', outcome.1 = Some sock' /\ closed sock' = true) /\
  (forall sock1 sock2 response,
      _send_message dumps sock request = (sock1, Ok tt) ->
      _recv_message loads sock1 = (sock2, Ok response) ->
      outcome.1 = Some (close_socket sock2) /\
      outcome.2 = match resp_exception response with
                  | Some response_exception => Raise response_exception
                  | None => Ok tt
                  end).
Proof.
  intros Hnet request outcome. subst outcome request.
  unfold _Messenger_send_message. rewrite Hnet. split.
  - destruct (_send_message dumps sock _) as [s1 [[] | e]]; simpl.
    + destruct (_recv_message loads s1) as [s2 [response | e]]; simpl.
      * destruct (resp_exception response); simpl; eauto.
      * eauto.
    + eauto.
  - intros sock1 sock2 response Hsend Hrecv. rewrite Hsend, Hrecv.
    destruct (resp_exception response); done.
Qed.

Lemma messenger_raises_response_exception_and_closes_witness :
  let send net := _Messenger_send_message Examples.dumps0 Examples.loads0
                    (fun e => e) "" (Messenger (Some "task-1") 5000) net
                    "succeeded" None None None in
  (send Examples.net_exception).2 = Raise Examples.boom /\
  (send Examples.net_ok).2 = Ok tt /\
  (exists sock, (send Examples.net_exception).1 = Some sock /\ closed sock = true) /\
  (exists sock, (send Examples.net_ok).1 = Some sock /\ closed sock = true).
Proof.
  intros send.
  pose (c1 := Connection (Examples.frame "{'exception': ...}") [2; 0; 3] [] false).
  pose (c2 := Connection (Examples.frame "{}") [0; 1; 0] [] false).
  destruct (messenger_raises_response_exception_and_closes
              Examples.dumps0 Examples.loads0 (fun e => e) ""
              (Messenger (Some "task-1") 5000) Examples.net_exception
              "succeeded" None None None c1 eq_refl) as [Hclosed1 Hraise].
  destruct (messenger_raises_response_exception_and_closes
              Examples.dumps0 Examples.loads0 (fun e => e) ""
              (Messenger (Some "task-1") 5000) Examples.net_ok
              "succeeded" None None None c2 eq_refl) as [Hclosed2 Hreturn].
  pose (request := Request "succeeded" (Some "task-1") None "" [] []).
  pose (s1 := (_send_message Examples.dumps0 c1 request).1).
  pose (s2 := (_send_message Examples.dumps0 c2 request).1).
  destruct (Hraise s1 (_recv_message Examples.loads0 s1).1 (Response (Some Examples.boom)))
    as [_ H1]; [vm_compute; reflexivity | vm_compute; reflexivity |].
  destruct (Hreturn s2 (_recv_message Examples.loads0 s2).1 (Response None))
    as [_ H2]; [vm_compute; reflexivity | vm_compute; reflexivity |].
  split; [exact H1 |]. split; [exact H2 |]. split; [exact Hclosed1 | exact Hclosed2].
Defined.

(** ** Worker-side instrumentation *)

Import Instrumentation.

Lemma tracked_entry_set (self : _Instrumentation) (m : string) (i : Z)
    (ta : gmap string tracked) :
  tracked_entry (set_tracked_attributes self m i ta) m i = Some ta.
Proof.
  unfold tracked_entry, set_tracked_attributes. simpl.
  rewrite lookup_insert_eq. simpl. by rewrite lookup_insert_eq.
Qed.

Lemma tracked_entry_set_ne (self : _Instrumentation) (m m' : string) (i i' : Z)
    (ta : gmap string tracked) :
  (m', i') <> (m, i) ->
  tracked_entry (set_tracked_attributes self m i ta) m' i' = tracked_entry self m' i'.
Proof.
  intros Hne. unfold tracked_entry, set_tracked_attributes. simpl.
  destruct (decide (m = m')) as [-> | Hm].
  - rewrite lookup_insert_eq. simpl.
    rewrite lookup_insert_ne by congruence.
    destruct (tracked_changes self !! m'); simpl; [done | apply lookup_empty].
  - by rewrite lookup_insert_ne.
Qed.

Lemma tracked_attributes_of_entry (self : _Instrumentation) (m : string) (i : Z) :
  tracked_attributes_of self m i = default ∅ (tracked_entry self m i).
Proof.
  unfold tracked_attributes_of, tracked_entry.
  destruct (tracked_changes self !! m); simpl; [done | by rewrite lookup_empty].
Qed.

Lemma tracked_attributes_of_set (self : _Instrumentation) (m : string) (i : Z)
    (ta : gmap string tracked) :
  tracked_attributes_of (set_tracked_attributes self m i ta) m i = ta.
Proof. by rewrite tracked_attributes_of_entry, tracked_entry_set. Qed.

Lemma coerced_copy_Ok (ty : attribute_type) (value c : pyval) :
  coerced_copy ty value = Ok c <-> is_coerced_copy ty value c.
Proof.
  unfold coerced_copy, is_coerced_copy. destruct (decide (value = PNone)) as [-> | Hne].
  - split; [intros [= <-]; by left | intros [[_ ->] | [? _]]; done].
  - destruct (ty value) as [v | e]; split.
    + intros [= <-]. right. eauto.
    + intros [[? _] | (_ & v' & [= <-] & ->)]; done.
    + done.
    + intros [[? _] | (_ & v' & ? & _)]; done.
Qed.

(** C10. [clear(target)] drops the entry of that one entity from the tracked
    changes and keeps the entry of every other entity, but empties the whole
    new-instances dictionary and the expunge list; the patched
    [session.refresh], which clears the target first, therefore leaves no
    recorded new instance behind. *)
Theorem clear_target_keeps_others_but_drops_all_new_instances
    (self : _Instrumentation) (target : entity) :
  let self' := clear self (Some target) in
  tracked_entry self' (__modelname__ target) (entity_id target) = None /\
  (forall m i, (m, i) <> (__modelname__ target, entity_id target) ->
     tracked_entry self' m i = tracked_entry self m i) /\
  new_instances_as_dict self' = ∅ /\
  _instances_to_expunge self' = [] /\
  (forall reload registered,
     let refreshed := (patched_refresh reload registered self target).1.1 in
     new_instances_as_dict refreshed = ∅ /\ _instances_to_expunge refreshed = []).
Proof.
  simpl. split; [| split; [| split; [done | split; [done |]]]].
  - unfold tracked_entry, clear. simpl. rewrite lookup_insert_eq. simpl.
    apply lookup_delete_eq.
  - intros m i Hne. unfold tracked_entry, clear. simpl.
    destruct (decide (__modelname__ target = m)) as [<- | Hm].
    + rewrite lookup_insert_eq. simpl. rewrite lookup_delete_ne by congruence.
      destruct (tracked_changes self !! __modelname__ target); simpl;
        [done | apply lookup_empty].
    + by rewrite lookup_insert_ne.
  - intros reload registered. unfold patched_refresh, original_refresh.
    destruct registered as [[mapi_name attrs] |]; [| done].
    unfold instance_listener.
    destruct (track_attributes _ _ _) as [[target' ta] r]. done.
Qed.

Lemma clear_target_keeps_others_but_drops_all_new_instances_witness :
  let node2 := Entity "node" 2 {[ "state" := PStr "b" ]} in
  let log := Entity "log" 0 {[ "msg" := PStr "hello" ]} in
  let tracking :=
    new_instance_listener
      (set_attribute_listener "state" str
         (set_attribute_listener "state" str empty_instrumentation
            Examples.node1_entity (PStr "x")).1
         node2 (PStr "y")).1
      log in
  new_instances_as_dict tracking !! "log" = Some {[ "NEW_INSTANCE_1" := __dict__ log ]} /\
  tracked_entry (clear tracking (Some Examples.node1_entity)) "node" 1 = None /\
  tracked_entry (clear tracking (Some Examples.node1_entity)) "node" 2
    = Some {[ "state" := Scalar (Value PStub (PStr "y")) ]} /\
  new_instances_as_dict (clear tracking (Some Examples.node1_entity)) = ∅ /\
  new_instances_as_dict
    (patched_refresh (fun e => e) (Some ("node", [("state", str)])) tracking
       Examples.node1_entity).1.1 = ∅.
Proof.
  intros node2 log tracking.
  destruct (clear_target_keeps_others_but_drops_all_new_instances tracking
              Examples.node1_entity) as (Hgone & Hothers & Hnew & _ & Hrefresh).
  split; [vm_compute; reflexivity |].
  split; [exact Hgone |].
  split; [rewrite (Hothers "node" 2%Z) by discriminate; vm_compute; reflexivity |].
  split; [exact Hnew |].
  apply (Hrefresh (fun e => e) (Some ("node", [("state", str)]))).
Defined.

(** C2, as the code has it. Assigning an instrumented scalar attribute
    records, under the attribute's key, a [_Value] whose [initial] is the
    sentinel [_STUB] (whatever was tracked for the attribute before, a first
    observed value included, is replaced) and whose [current] is a deep copy
    of the coerced new value, [None] for a null value; that [current] is
    what the hook returns. Every other tracked attribute and every other
    entity keep their entries. *)
Theorem set_listener_records_stub_and_coerced_copy
    (key : string) (ty : attribute_type) (self : _Instrumentation)
    (target : entity) (value c : pyval) :
  is_coerced_copy ty value c ->
  let mapi_name := __modelname__ target in
  let self' := (set_attribute_listener key ty self target value).1 in
  (set_attribute_listener key ty self target value).2 = Ok c /\
  tracked_attributes_of self' mapi_name (entity_id target) !! key
    = Some (Scalar (Value PStub c)) /\
  (forall k, k <> key ->
     tracked_attributes_of self' mapi_name (entity_id target) !! k
     = tracked_attributes_of self mapi_name (entity_id target) !! k) /\
  (forall m i, (m, i) <> (mapi_name, entity_id target) ->
     tracked_entry self' m i = tracked_entry self m i) /\
  new_instances_as_dict self' = new_instances_as_dict self.
Proof.
  intros Hc%coerced_copy_Ok. simpl. unfold set_attribute_listener. rewrite Hc. simpl.
  rewrite tracked_attributes_of_set. split; [done |].
  split; [apply lookup_insert_eq |].
  split; [intros k Hk; by rewrite lookup_insert_ne |].
  split; [| done]. intros m i Hne. by apply tracked_entry_set_ne.
Qed.

Lemma set_listener_records_stub_and_coerced_copy_witness :
  let assigned := set_attribute_listener "state" str empty_instrumentation
                    Examples.node1_entity (PInt 7) in
  let nulled := set_attribute_listener "state" str assigned.1
                  Examples.node1_entity PNone in
  assigned.2 = Ok (PStr "7") /\
  tracked_attributes_of assigned.1 "node" 1 !! "state"
    = Some (Scalar (Value PStub (PStr "7"))) /\
  nulled.2 = Ok PNone /\
  tracked_attributes_of nulled.1 "node" 1 !! "state" = Some (Scalar (Value PStub PNone)).
Proof.
  intros assigned nulled.
  destruct (set_listener_records_stub_and_coerced_copy "state" str
              empty_instrumentation Examples.node1_entity (PInt 7) (PStr "7"))
    as (H1 & H2 & _).
  { right. split; [discriminate |]. exists (PStr "7"). split; reflexivity. }
  destruct (set_listener_records_stub_and_coerced_copy "state" str
              assigned.1 Examples.node1_entity PNone PNone)
    as (H3 & H4 & _).
  { left. split; reflexivity. }
  split; [exact H1 |]. split; [exact H2 |]. split; [exact H3 | exact H4].
Defined.

(** C2, as stated, fails. The node was loaded with state "a" (the first
    observed value, which the load listener recorded as [initial]); after the
    assignment of "b" the recorded [initial] is the sentinel, not "a"; and
    after the assignment of [None] the recorded [initial] is the sentinel,
    not [None]. *)
Lemma set_listener_initial_is_stub_not_first_observed :
  let loaded := (instance_listener "node" [("state", str)] empty_instrumentation
                   Examples.node1_entity).1 in
  let assigned := (set_attribute_listener "state" str loaded.1 loaded.2 (PStr "b")).1 in
  let nulled := (set_attribute_listener "state" str loaded.1 loaded.2 PNone).1 in
  tracked_attributes_of loaded.1 "node" 1 !! "state"
    = Some (Scalar (Value (PStr "a") (PStr "a"))) /\
  (exists v, tracked_attributes_of assigned "node" 1 !! "state" = Some (Scalar v) /\
             initial v <> PStr "a") /\
  (exists v, tracked_attributes_of nulled "node" 1 !! "state" = Some (Scalar v) /\
             current v = PNone /\ initial v <> PNone).
Proof.
  split; [vm_compute; reflexivity |]. split.
  - exists (Value PStub (PStr "b")). split; [vm_compute; reflexivity | discriminate].
  - exists (Value PStub PNone). split; [vm_compute; reflexivity |].
    split; [reflexivity | discriminate].
Qed.

(** *** The load / refresh listener *)

Lemma track_attribute_tracked (name : string) (ty : attribute_type) (target : entity)
    (ta : gmap string tracked) (v : _Value) :
  ta !! name = Some (Scalar v) ->
  track_attribute name ty target ta = ((with_attribute target name (current v), ta), Ok tt).
Proof. intros H. unfold track_attribute. rewrite H. simpl. by rewrite H. Qed.

Lemma track_attribute_fresh (name : string) (ty : attribute_type) (target : entity)
    (ta : gmap string tracked) (x c : pyval) :
  ta !! name = None ->
  __dict__ target !! name = Some x ->
  coerced_copy ty x = Ok c ->
  track_attribute name ty target ta
  = ((with_attribute target name c, <[name := Scalar (Value x c)]> ta), Ok tt).
Proof.
  intros Hta Hx Hc. unfold track_attribute, getattr. rewrite Hta, Hx, Hc. simpl.
  by rewrite lookup_insert_eq.
Qed.

Lemma capture_version_lookup_None (target : entity) (ta : gmap string tracked)
    (a : string) :
  capture_version target ta !! a = None <->
  ta !! a = None /\ (a <> _VERSION_ID_COL \/ __dict__ target !! _VERSION_ID_COL = None).
Proof.
  unfold capture_version.
  destruct (__dict__ target !! _VERSION_ID_COL) as [version |] eqn:Hv.
  - destruct (ta !! _VERSION_ID_COL) as [t |] eqn:Ht.
    + split; [| by intros [? _]]. intros Ha. split; [done |]. left. congruence.
    + destruct (decide (a = _VERSION_ID_COL)) as [-> | Hne].
      * rewrite lookup_insert_eq. split; [done | intros [_ [? | ?]]; done].
      * rewrite lookup_insert_ne by done. split; [intros; split; eauto | by intros [? _]].
  - split; [intros; split; eauto | by intros [? _]].
Qed.

Lemma capture_version_lookup_Some (target : entity) (ta : gmap string tracked)
    (a : string) (t : tracked) :
  ta !! a = Some t -> capture_version target ta !! a = Some t.
Proof.
  intros Ha. unfold capture_version.
  destruct (__dict__ target !! _VERSION_ID_COL) as [version |]; [| done].
  destruct (ta !! _VERSION_ID_COL) as [t' |] eqn:Ht; [done |].
  rewrite lookup_insert_ne; [done | congruence].
Qed.

(** What the loop of the listener leaves behind, for a registry whose
    attribute names are distinct, on an entity that carries the attributes
    still to be tracked (with values their coercions accept), and tracked
    attributes that hold [_Value]s under those names. *)
Lemma track_attributes_spec (attrs : list (string * attribute_type)) :
  forall (target : entity) (ta : gmap string tracked),
  NoDup attrs.*1 ->
  (forall a ty, (a, ty) ∈ attrs -> ta !! a = None ->
     exists x c, __dict__ target !! a = Some x /\ coerced_copy ty x = Ok c) ->
  (forall a ty t, (a, ty) ∈ attrs -> ta !! a = Some t -> exists v, t = Scalar v) ->
  exists target' ta',
    track_attributes attrs target ta = ((target', ta'), Ok tt) /\
    __modelname__ target' = __modelname__ target /\
    entity_id target' = entity_id target /\
    (forall a t, ta !! a = Some t -> ta' !! a = Some t) /\
    (forall a, a ∉ attrs.*1 ->
       ta' !! a = ta !! a /\ __dict__ target' !! a = __dict__ target !! a) /\
    (forall a ty, (a, ty) ∈ attrs ->
       (ta !! a = None ->
          exists x c, __dict__ target !! a = Some x /\ coerced_copy ty x = Ok c /\
                      ta' !! a = Some (Scalar (Value x c))) /\
       (exists v, ta' !! a = Some (Scalar v) /\
                  __dict__ target' !! a = Some (current v))).
Proof.
  induction attrs as [| [name ty] rest IH]; intros target ta Hnodup Hfresh Hscalar.
  - exists target, ta. simpl. do 5 (split; [done |]).
    intros a ty' Hin. by apply elem_of_nil in Hin.
  - simpl in Hnodup. apply NoDup_cons in Hnodup as [Hname Hrest].
    (* one round of the loop *)
    assert (exists c ta1,
      track_attribute name ty target ta = ((with_attribute target name c, ta1), Ok tt) /\
      ta1 !! name = Some (Scalar (Value (match ta !! name with
                                          | Some (Scalar v) => initial v
                                          | _ => default PNone (__dict__ target !! name)
                                          end) c)) /\
      (forall a, a <> name -> ta1 !! a = ta !! a) /\
      (forall t, ta !! name = Some t -> ta1 = ta) /\
      (ta !! name = None ->
         exists x, __dict__ target !! name = Some x /\ coerced_copy ty x = Ok c))
      as (c & ta1 & Hstep & Hname1 & Hother1 & Hsame1 & Hnew1).
    { destruct (ta !! name) as [t |] eqn:Hta.
      - destruct (Hscalar name ty t) as [v ->]; [left | done |].
        exists (current v), ta. rewrite (track_attribute_tracked _ _ _ _ v Hta).
        repeat split; try done. by destruct v.
      - destruct (Hfresh name ty) as (x & c & Hx & Hc); [left | done |].
        exists c, (<[name := Scalar (Value x c)]> ta).
        rewrite (track_attribute_fresh _ _ _ _ x c Hta Hx Hc). rewrite Hx. simpl.
        repeat split; try done.
        + apply lookup_insert_eq.
        + intros a Ha. by rewrite lookup_insert_ne.
        + intros _. eauto. }
    (* the rest of the loop *)
    destruct (IH (with_attribute target name c) ta1) as
      (target' & ta' & Hrun & Hm & Hid & Hkeep & Hout & Hin); [done | | |].
    { intros a ty' Ha Hnone.
      assert (a <> name) as Hne.
      { intros ->. apply Hname. apply list_elem_of_fmap. by exists (name, ty'). }
      rewrite Hother1 in Hnone by done.
      destruct (Hfresh a ty') as (x & c' & Hx & Hc'); [by right | done |].
      exists x, c'. split; [| done]. simpl. by rewrite lookup_insert_ne. }
    { intros a ty' t Ha Hsome.
      assert (a <> name) as Hne.
      { intros ->. apply Hname. apply list_elem_of_fmap. by exists (name, ty'). }
      rewrite Hother1 in Hsome by done. by apply (Hscalar a ty'); [right |]. }
    exists target', ta'. simpl. rewrite Hstep, Hrun.
    destruct (Hout name Hname) as [Hta'name Hdictname].
    split; [done |]. split; [done |]. split; [done |].
    split; [| split].
    + intros a t Ha. apply Hkeep.
      destruct (decide (a = name)) as [-> | Hne].
      * by rewrite (Hsame1 t Ha).
      * by rewrite Hother1.
    + intros a Ha. apply not_elem_of_cons in Ha as [Hne Ha].
      destruct (Hout a Ha) as [H1 H2]. rewrite H1, H2, Hother1 by done.
      split; [done |]. simpl. by rewrite lookup_insert_ne.
    + intros a ty' Ha. apply elem_of_cons in Ha as [[= -> ->] | Ha].
      * split.
        -- intros Hnone. destruct (Hnew1 Hnone) as (x & Hx & Hc).
           exists x, c. rewrite Hta'name, Hname1, Hnone, Hx. done.
        -- eexists. rewrite Hta'name, Hdictname. split; [exact Hname1 |].
           simpl. apply lookup_insert_eq.
      * assert (a <> name) as Hne.
        { intros ->. apply Hname. apply list_elem_of_fmap. by exists (name, ty'). }
        destruct (Hin a ty' Ha) as [Hfresh' Hcur]. split; [| done].
        intros Hnone. rewrite <- Hother1 in Hnone by done.
        destruct (Hfresh' Hnone) as (x & c' & Hx & Hc' & Hrec).
        exists x, c'. simpl in Hx. rewrite lookup_insert_ne in Hx by done. done.
Qed.

(** C5. On a load or refresh of an instrumented entity the listener, for a
    registry with distinct attribute names, on an entity that carries the
    attributes still to be tracked (with values their coercions accept) and
    whose tracked attributes hold [_Value]s under the registry's names,
    returns normally and
    - records, for every instrumented scalar attribute not yet tracked when
      the loop reaches it (that is, after the version capture), a [_Value]
      whose [initial] is the entity's stored value and whose [current] is a
      deep copy of its coercion, both [None] for a null stored value;
    - leaves every [_Value] tracked before as it was;
    - overwrites the entity's in-memory attribute with the tracked [current];
    - captures the version of an entity that has one as
      [_Value(_STUB, version)], unless a version was tracked already. *)
Theorem instance_listener_tracks_loaded_entity
    (mapi_name : string) (attrs : list (string * attribute_type))
    (self : _Instrumentation) (target : entity) :
  let before := tracked_attributes_of self mapi_name (entity_id target) in
  let at_loop := capture_version target before in
  NoDup attrs.*1 ->
  (forall a ty, (a, ty) ∈ attrs -> at_loop !! a = None ->
     exists x c, __dict__ target !! a = Some x /\ is_coerced_copy ty x c) ->
  (forall a ty t, (a, ty) ∈ attrs -> at_loop !! a = Some t -> exists v, t = Scalar v) ->
  exists self' target',
    instance_listener mapi_name attrs self target = ((self', target'), Ok tt) /\
    let after := tracked_attributes_of self' mapi_name (entity_id target) in
    (forall a ty, (a, ty) ∈ attrs -> at_loop !! a = None ->
       exists x c, __dict__ target !! a = Some x /\ is_coerced_copy ty x c /\
                   after !! a = Some (Scalar (Value x c))) /\
    (forall a t, before !! a = Some t -> after !! a = Some t) /\
    (forall a ty, (a, ty) ∈ attrs ->
       exists v, after !! a = Some (Scalar v) /\
                 __dict__ target' !! a = Some (current v)) /\
    (forall version, __dict__ target !! _VERSION_ID_COL = Some version ->
       before !! _VERSION_ID_COL = None ->
       after !! _VERSION_ID_COL = Some (Scalar (Value PStub version))).
Proof.
  intros before at_loop Hnodup Hfresh Hscalar.
  destruct (track_attributes_spec attrs target at_loop Hnodup)
    as (target' & ta' & Hrun & _ & _ & Hkeep & _ & Hin); [| done |].
  { intros a ty Ha Hnone. destruct (Hfresh a ty Ha Hnone) as (x & c & Hx & Hc).
    exists x, c. by rewrite coerced_copy_Ok. }
  exists (set_tracked_attributes self mapi_name (entity_id target) ta'), target'.
  split.
  { unfold instance_listener. fold before. fold at_loop. by rewrite Hrun. }
  simpl. rewrite tracked_attributes_of_set.
  split; [| split; [| split]].
  - intros a ty Ha Hnone. destruct (Hin a ty Ha) as [Hnew _].
    destruct (Hnew Hnone) as (x & c & Hx & Hc & Hrec).
    exists x, c. by rewrite <- coerced_copy_Ok.
  - intros a t Ha. apply Hkeep. by apply capture_version_lookup_Some.
  - intros a ty Ha. by destruct (Hin a ty Ha) as [_ Hcur].
  - intros version Hv Hnone. apply Hkeep. unfold at_loop, capture_version.
    rewrite Hv, Hnone. apply lookup_insert_eq.
Qed.

Lemma instance_listener_tracks_loaded_entity_witness :
  let node := Entity "node" 1 {[ "state" := PInt 3; "name" := PNone; "version" := PInt 7 ]} in
  let self := (set_attribute_listener "kind" str empty_instrumentation node (PStr "k")).1 in
  let loaded := instance_listener "node" [("state", str); ("name", str); ("kind", str)]
                  self node in
  let after := tracked_attributes_of loaded.1.1 "node" 1 in
  loaded.2 = Ok tt /\
  after !! "state" = Some (Scalar (Value (PInt 3) (PStr "3"))) /\
  after !! "name" = Some (Scalar (Value PNone PNone)) /\
  after !! "kind" = Some (Scalar (Value PStub (PStr "k"))) /\
  after !! "version" = Some (Scalar (Value PStub (PInt 7))) /\
  __dict__ loaded.1.2 !! "state" = Some (PStr "3") /\
  __dict__ loaded.1.2 !! "kind" = Some (PStr "k").
Proof.
  intros node self loaded after.
  destruct (instance_listener_tracks_loaded_entity "node"
              [("state", str); ("name", str); ("kind", str)] self node)
    as (self' & target' & Hrun & Hnew & Hkeep & Hcur & Hversion).
  { compute_done. }
  { intros a ty Ha Hnone.
    repeat (apply elem_of_cons in Ha as [Heq | Ha]; [injection Heq as -> -> |]).
    - exists (PInt 3), (PStr "3"). split; [reflexivity |]. right.
      split; [discriminate |]. by exists (PStr "3").
    - exists PNone, PNone. split; [reflexivity |]. by left.
    - vm_compute in Hnone. discriminate.
    - by apply elem_of_nil in Ha. }
  { intros a ty t Ha Hsome.
    repeat (apply elem_of_cons in Ha as [Heq | Ha]; [injection Heq as -> -> |]).
    - vm_compute in Hsome. discriminate.
    - vm_compute in Hsome. discriminate.
    - vm_compute in Hsome. injection Hsome as <-. eauto.
    - by apply elem_of_nil in Ha. }
  subst loaded after. rewrite Hrun. simpl in *.
  split; [done |].
  destruct (Hnew "state" str) as (x & c & Hx & Hc & Hrec);
    [set_solver | vm_compute; reflexivity |].
  destruct (Hnew "name" str) as (x' & c' & Hx' & Hc' & Hrec');
    [set_solver | vm_compute; reflexivity |].
  vm_compute in Hx, Hx'. injection Hx as <-. injection Hx' as <-.
  destruct Hc as [[? _] | (_ & v & Hv & ->)]; [done |]. injection Hv as <-.
  destruct Hc' as [[_ ->] | [? _]]; [| done].
  split; [exact Hrec |]. split; [exact Hrec' |].
  split; [apply Hkeep; vm_compute; reflexivity |].
  split; [apply Hversion; vm_compute; reflexivity |].
  destruct (Hcur "state" str) as (v1 & Hv1 & Hd1); [set_solver |].
  destruct (Hcur "kind" str) as (v2 & Hv2 & Hd2); [set_solver |].
  rewrite Hrec in Hv1. injection Hv1 as <-.
  rewrite (Hkeep "kind" (Scalar (Value PStub (PStr "k")))) in Hv2
    by (vm_compute; reflexivity).
  injection Hv2 as <-. split; [exact Hd1 | exact Hd2].
Defined.

(** ** The applier *)

Section ApplierProperties.
Context {S : Type} `{!Storage S}.

Lemma _validate_version_id_conflict (instance : Instance) (mapi_name : string)
    (st : state S) (version_id object_version_id : pyval) :
  committed_state instance !! _VERSION_ID_COL = Some version_id ->
  inst_attrs instance !! _VERSION_ID_COL = Some object_version_id ->
  truthy version_id = true ->
  object_version_id <> version_id ->
  _validate_version_id instance mapi_name st
  = (rolled_back mapi_name st, Raise (version_conflict version_id object_version_id)).
Proof.
  intros Hc Ho Ht Hne. unfold _validate_version_id. rewrite Hc, Ho. simpl. rewrite Ht.
  unfold py_ne. rewrite bool_decide_eq_false_2 by done. reflexivity.
Qed.

Lemma _validate_version_id_pass (instance : Instance) (mapi_name : string)
    (st : state S) (object_version_id : pyval) :
  inst_attrs instance !! _VERSION_ID_COL = Some object_version_id ->
  truthy (default PNone (committed_state instance !! _VERSION_ID_COL)) = false \/
  committed_state instance !! _VERSION_ID_COL = Some object_version_id ->
  _validate_version_id instance mapi_name st = (st, Ok tt).
Proof.
  intros Ho Hcase. unfold _validate_version_id.
  destruct (truthy _) eqn:Ht; [| done]. destruct Hcase as [? | Hc]; [done |].
  rewrite Ho, Hc. simpl. unfold py_ne. by rewrite bool_decide_eq_true_2.
Qed.

End ApplierProperties.

(** C4, as the code has it. For an entity with a version attribute,
    [_validate_version_id] rolls the session back and then raises the
    version-conflict [StorageError] exactly when the committed state holds a
    truthy version (neither [None] nor 0) that differs from the object's
    version, and the entity is then not updated; when the two are equal, or
    the committed state holds no version or a falsy one, it raises nothing
    and [mapi.update] is called. The two versions compared are those the
    applier's assignment of the diff's version entry leaves: the committed
    state keeps the version the parent fetched, the object gets the version
    the worker captured at load time. *)
Theorem validate_version_id_conflict_iff_truthy_and_different
    {S : Type} `{!Storage S} (instance : Instance) (mapi_name : string)
    (st : state S) (object_version_id : pyval) :
  inst_attrs instance !! _VERSION_ID_COL = Some object_version_id ->
  let version_id := default PNone (committed_state instance !! _VERSION_ID_COL) in
  (truthy version_id = true -> object_version_id <> version_id ->
     _validate_version_id instance mapi_name st
     = (rolled_back mapi_name st, Raise (version_conflict version_id object_version_id)) /\
     validate_and_update mapi_name instance st
     = (rolled_back mapi_name st, Raise (version_conflict version_id object_version_id))) /\
  (truthy version_id = false \/ object_version_id = version_id ->
     _validate_version_id instance mapi_name st = (st, Ok tt) /\
     validate_and_update mapi_name instance st
     = call (EvUpdate mapi_name instance) (update mapi_name instance) st) /\
  (forall (fetched : Instance) (stored captured : pyval),
     inst_attrs fetched !! _VERSION_ID_COL = Some stored ->
     committed_state fetched !! _VERSION_ID_COL = None ->
     committed_state (setattr fetched _VERSION_ID_COL captured) !! _VERSION_ID_COL
     = Some stored /\
     inst_attrs (setattr fetched _VERSION_ID_COL captured) !! _VERSION_ID_COL
     = Some captured).
Proof.
  intros Ho version_id. split; [| split]; cycle 2.
  { intros fetched stored captured Hs Hc. unfold setattr. simpl. rewrite Hs, Hc.
    split; apply lookup_insert_eq. }
  - intros Ht Hne.
    assert (committed_state instance !! _VERSION_ID_COL = Some version_id) as Hc.
    { subst version_id. destruct (committed_state instance !! _VERSION_ID_COL); done. }
    pose proof (_validate_version_id_conflict instance mapi_name st _ _ Hc Ho Ht Hne) as Hv.
    split; [done |]. unfold validate_and_update, mbind, M_bind. by rewrite Hv.
  - intros Hcase.
    assert (_validate_version_id instance mapi_name st = (st, Ok tt)) as Hv.
    { apply (_validate_version_id_pass _ _ _ object_version_id Ho).
      destruct Hcase as [? | Heq]; [by left |].
      destruct (truthy version_id) eqn:Ht; [right | by left].
      subst version_id. destruct (committed_state instance !! _VERSION_ID_COL); simpl in *;
        [congruence | done]. }
    split; [done |]. unfold validate_and_update, mbind, M_bind. by rewrite Hv.
Qed.

Lemma validate_version_id_conflict_iff_truthy_and_different_witness :
  let stale := Inst (Some 1%Z) {[ "version" := PInt 1 ]} {[ "version" := PInt 2 ]} [] in
  let fresh := Inst (Some 1%Z) {[ "version" := PInt 1 ]} {[ "version" := PInt 1 ]} [] in
  let st := State Examples.model0 [] [] ∅ in
  _validate_version_id stale "node" st
  = (rolled_back "node" st, Raise (version_conflict (PInt 2) (PInt 1))) /\
  validate_and_update "node" fresh st
  = call (EvUpdate "node" fresh) (update "node" fresh) st.
Proof.
  intros stale fresh st. split.
  - apply (validate_version_id_conflict_iff_truthy_and_different stale "node" st (PInt 1));
      [reflexivity | reflexivity | discriminate].
  - apply (proj1 (proj2 (validate_version_id_conflict_iff_truthy_and_different
                           fresh "node" st (PInt 1) eq_refl)));
      right; reflexivity.
Defined.

(** C4, as stated, fails for a committed version 0: it differs from the
    object's version 1, yet nothing is rolled back and nothing is raised;
    and through the applier, a diff that carries the version 1 captured at
    load time is written over a stored version 0 without a conflict. *)
Lemma committed_version_zero_is_never_a_conflict :
  let instance := Inst (Some 1%Z) {[ "version" := PInt 1 ]} {[ "version" := PInt 0 ]} [] in
  let st := State Examples.model0 [] [] ∅ in
  let stored := Inst (Some 1%Z) {[ "state" := PStr "a"; "version" := PInt 0 ]} ∅ [] in
  let model := Examples.Mem {[ "node" := {[ 1%Z := stored ]} ]} 2 0 in
  let diff := [("node", [(1%Z, [("version", Scalar (Value PStub (PInt 1)))])])] in
  committed_state instance !! _VERSION_ID_COL <> inst_attrs instance !! _VERSION_ID_COL /\
  _validate_version_id instance "node" st = (st, Ok tt) /\
  (apply_tracked_changes diff [] model).2 = Ok tt /\
  Examples.rollbacks (store (apply_tracked_changes diff [] model).1) = 0.
Proof.
  split; [discriminate |]. split; [reflexivity |]. split; vm_compute; reflexivity.
Qed.

(** *** What the applier assigns *)

Section AssignmentProperties.
Context {S : Type} `{!Storage S}.

Lemma adds_only_silent (P : event -> Prop) {A} (m : M (S := S) A) :
  (forall st, trace (m st).1 = trace st) -> adds_only P m.
Proof. intros H st. exists []. by rewrite H, app_nil_r. Qed.

Lemma adds_only_ret (P : event -> Prop) {A} (a : A) : adds_only P (mret a : M (S := S) A).
Proof. by apply adds_only_silent. Qed.

Lemma adds_only_raise (P : event -> Prop) {A} (e : exn) : adds_only P (raise (S := S) e : M A).
Proof. by apply adds_only_silent. Qed.

Lemma adds_only_call (P : event -> Prop) {A} (ev : event) (op : S -> S * result A) :
  P ev -> adds_only P (call (S := S) ev op).
Proof.
  intros HP st. exists [ev]. unfold call. destruct (op (store st)). simpl.
  split; [done | by constructor].
Qed.

Lemma adds_only_bind (P : event -> Prop) {A B} (m : M (S := S) A) (f : A -> M (S := S) B) :
  adds_only P m -> (forall a, adds_only P (f a)) -> adds_only P (m ≫= f).
Proof.
  intros Hm Hf st. unfold mbind, M_bind. destruct (Hm st) as (evs1 & H1 & HP1).
  destruct (m st) as [st1 [a | e]]; simpl in *.
  - destruct (Hf a st1) as (evs2 & H2 & HP2). exists (evs1 ++ evs2).
    rewrite H2, H1, app_assoc. split; [done | by apply Forall_app].
  - by exists evs1.
Qed.

Lemma adds_only_for_each (P : event -> Prop) {A} (body : A -> M (S := S) unit) (items : list A) :
  (forall x, x ∈ items -> adds_only P (body x)) -> adds_only P (for_each body items).
Proof.
  induction items as [| x rest IH]; intros Hbody; simpl.
  - apply adds_only_ret.
  - apply adds_only_bind; [apply Hbody; left |].
    intros _. apply IH. intros y Hy. apply Hbody. by right.
Qed.

Lemma adds_only_fold_each (P : event -> Prop) {A B} (body : B -> A -> M (S := S) B)
    (items : list A) :
  (forall acc x, x ∈ items -> adds_only P (body acc x)) ->
  forall acc, adds_only P (fold_each body acc items).
Proof.
  induction items as [| x rest IH]; intros Hbody acc; simpl.
  - apply adds_only_ret.
  - apply adds_only_bind; [apply Hbody; left |].
    intros acc'. apply IH. intros acc'' y Hy. apply Hbody. by right.
Qed.

End AssignmentProperties.

Section AssignedEntries.
Context {S : Type} `{!Storage S}.
Context (T : tracked_changes_items).

Create HintDb applier.
Local Hint Resolve adds_only_ret adds_only_raise : applier.
Local Hint Extern 1 (adds_only _ (call _ _)) =>
  (apply adds_only_call; exact I) : applier.
Local Hint Extern 1 (adds_only _ (note _)) =>
  (apply adds_only_call; exact I) : applier.

Local Ltac silent := apply adds_only_silent; intros ?; try done.

Lemma adds_only_getattr_model (m : string) :
  adds_only (from_dirty_entry T) (getattr_model (S := S) m).
Proof. silent. unfold getattr_model. by destruct (has_mapi _ _). Qed.

Lemma adds_only_reset_successes (m : string) :
  adds_only (from_dirty_entry T) (reset_successes (S := S) m).
Proof. silent. Qed.

Lemma adds_only_record_success (m : string) (i : option Z) (kw : kwargs) :
  adds_only (from_dirty_entry T) (record_success (S := S) m i kw).
Proof. silent. Qed.

Lemma adds_only_replace_new_instance (m tmp_id : string) (i : Instance) :
  adds_only (from_dirty_entry T) (replace_new_instance (S := S) m tmp_id i).
Proof. silent. Qed.

Local Hint Resolve adds_only_getattr_model adds_only_reset_successes
  adds_only_record_success adds_only_replace_new_instance : applier.

Lemma adds_only_handle_new_instance (m : string) (entry : string * new_entry) :
  adds_only (from_dirty_entry T) (handle_new_instance (S := S) m entry).
Proof.
  destruct entry as [tmp_id [kw | i]]; simpl; [| auto with applier].
  do 3 (apply adds_only_bind; [auto with applier | intros ?]). auto with applier.
Qed.

Lemma adds_only_handle_new_instances (items : new_instances_items) (m : string) :
  adds_only (from_dirty_entry T) (handle_new_instances (S := S) items m).
Proof.
  revert m. induction items as [| [m' new_instance] rest IH]; intros m; simpl.
  - auto with applier.
  - do 2 (apply adds_only_bind; [auto with applier | intros ?]).
    apply adds_only_bind; [| intros ?; apply IH].
    apply adds_only_for_each. intros ? _. apply adds_only_handle_new_instance.
Qed.

Lemma adds_only__validate_version_id (i : Instance) (m : string) :
  adds_only (from_dirty_entry T) (_validate_version_id (S := S) i m).
Proof.
  unfold _validate_version_id. destruct (truthy _); [| auto with applier].
  destruct (inst_attrs i !! _VERSION_ID_COL); [| auto with applier].
  destruct (py_ne _ _); [| auto with applier].
  apply adds_only_bind; [auto with applier | intros ?; auto with applier].
Qed.

Lemma adds_only_append_item (m : string) (id : Z) (a : string) (i : Instance)
    (item : kwargs) :
  adds_only (from_dirty_entry T) (append_item (S := S) m id a i item).
Proof.
  unfold append_item. destruct (item !! "_MODEL_CLS") as [[| | |] |]; auto with applier.
  do 3 (apply adds_only_bind; [auto with applier | intros ?]). auto with applier.
Qed.

Lemma adds_only_apply_attribute (m m0 : string) (id : Z)
    (tracked_instances : list (Z * list (string * tracked)))
    (tracked_attributes : list (string * tracked))
    (instance : option Instance) (entry : string * tracked) :
  (m0, tracked_instances) ∈ T ->
  (id, tracked_attributes) ∈ tracked_instances ->
  entry ∈ tracked_attributes ->
  adds_only (from_dirty_entry T) (apply_attribute (S := S) m id instance entry).
Proof.
  intros HT Hinst Hentry. destruct entry as [a value]. simpl.
  apply adds_only_bind; [destruct instance; auto with applier | intros i].
  destruct value as [v | items].
  - unfold py_ne. case_bool_decide as Hdirty; simpl; [auto with applier |].
    apply adds_only_bind; [| intros ?; auto with applier].
    apply adds_only_call. simpl. exists m0, tracked_instances, tracked_attributes, v.
    done.
  - apply adds_only_bind; [| intros ?; auto with applier].
    apply adds_only_fold_each. intros ? ? _. apply adds_only_append_item.
Qed.

Lemma adds_only_apply_instance (m m0 : string)
    (tracked_instances : list (Z * list (string * tracked)))
    (entry : Z * list (string * tracked)) :
  (m0, tracked_instances) ∈ T ->
  entry ∈ tracked_instances ->
  adds_only (from_dirty_entry T) (apply_instance (S := S) m entry).
Proof.
  intros HT Hentry. destruct entry as [id tracked_attributes]. simpl.
  apply adds_only_bind; [auto with applier | intros _].
  apply adds_only_bind.
  - apply adds_only_fold_each. intros acc x Hx.
    by apply (adds_only_apply_attribute m m0 id tracked_instances tracked_attributes).
  - intros [i |]; [| auto with applier]. unfold validate_and_update.
    apply adds_only_bind; [apply adds_only__validate_version_id | intros ?].
    auto with applier.
Qed.

Lemma adds_only_apply_model (entry : string * list (Z * list (string * tracked))) :
  entry ∈ T -> adds_only (from_dirty_entry T) (apply_model (S := S) entry).
Proof.
  intros HT. destruct entry as [m0 tracked_instances]. simpl.
  do 2 (apply adds_only_bind; [auto with applier | intros ?]).
  apply adds_only_bind.
  - intros st. apply adds_only_handle_new_instances.
  - intros m. apply adds_only_for_each. intros x Hx.
    by apply (adds_only_apply_instance m m0 tracked_instances).
Qed.

Lemma apply_tracked_changes_assigns_only_dirty_entries
    (N : new_instances_items) (model : S) :
  Forall (from_dirty_entry T) (trace (apply_tracked_changes T N model).1).
Proof.
  unfold apply_tracked_changes.
  destruct (adds_only_for_each (from_dirty_entry T) apply_model T
              (fun x Hx => adds_only_apply_model x Hx) (State model [] N ∅))
    as (evs & Htrace & Hevs).
  destruct (for_each apply_model T _) as [st [[] | e]]; simpl in *.
  - by rewrite Htrace.
  - unfold log_and_reraise. destruct (json_serializable _); simpl.
    + rewrite Htrace. simpl. apply Forall_app. split; [done | by repeat constructor].
    + by rewrite Htrace.
Qed.

(** A call noted in the trace stays there. *)
Lemma adds_only_keeps (P : event -> Prop) {A} (m : M (S := S) A) (st : state S)
    (ev : event) :
  adds_only P m -> ev ∈ trace st -> ev ∈ trace (m st).1.
Proof.
  intros Hm Hev. destruct (Hm st) as (evs & -> & _). apply elem_of_app. by left.
Qed.

(** A scalar entry whose [initial] differs from its [current] is assigned
    whenever the round of the loop that reaches it returns. *)
Lemma apply_attribute_assigns (m : string) (id : Z) (instance : option Instance)
    (a : string) (v : _Value) (st st' : state S) (r : option Instance) :
  initial v <> current v ->
  apply_attribute m id instance (a, Scalar v) st = (st', Ok r) ->
  EvSetattr m id a (current v) ∈ trace st'.
Proof.
  intros Hdirty. unfold apply_attribute, mbind, M_bind, py_ne.
  rewrite bool_decide_eq_false_2 by done. simpl.
  destruct (match instance with
            | Some i => mret i
            | None => call (EvGet m id) (get m id)
            end st) as [st1 [i | e]]; [| done].
  unfold note, call. simpl. intros [= <- _].
  simpl. apply elem_of_app. right. apply list_elem_of_singleton. done.
Qed.

Lemma fold_apply_attribute_assigns (m m0 : string) (id : Z)
    (tracked_instances : list (Z * list (string * tracked)))
    (tracked_attributes : list (string * tracked)) :
  (m0, tracked_instances) ∈ T ->
  (id, tracked_attributes) ∈ tracked_instances ->
  forall (rest : list (string * tracked)) (instance : option Instance)
         (st st' : state S) (r : option Instance),
  (forall entry, entry ∈ rest -> entry ∈ tracked_attributes) ->
  fold_each (apply_attribute m id) instance rest st = (st', Ok r) ->
  forall a v, (a, Scalar v) ∈ rest -> initial v <> current v ->
  EvSetattr m id a (current v) ∈ trace st'.
Proof.
  intros HT Hinst.
  induction rest as [| entry rest IH]; intros instance st st' r Hsub Hrun a v Hin Hdirty.
  - by apply elem_of_nil in Hin.
  - cbn [fold_each] in Hrun. unfold mbind at 1, M_bind at 1 in Hrun.
    destruct (apply_attribute m id instance entry st) as [st1 [instance1 | e]] eqn:Hstep;
      [| done].
    apply elem_of_cons in Hin as [<- | Hin].
    + pose proof (apply_attribute_assigns _ _ _ _ _ _ _ _ Hdirty Hstep) as Hev.
      pose proof (adds_only_keeps (from_dirty_entry T)
                    (fold_each (apply_attribute m id) instance1 rest) st1 _
                    (adds_only_fold_each _ _ rest
                       (fun acc x Hx =>
                          adds_only_apply_attribute m m0 id tracked_instances
                            tracked_attributes acc x HT Hinst
                            (Hsub x (list_elem_of_further _ _ _ Hx)))
                       instance1) Hev) as Hkept.
      by rewrite Hrun in Hkept.
    + apply (IH instance1 st1 st' r); [| done | done | done].
      intros x Hx. apply Hsub. by right.
Qed.

Lemma apply_instance_assigns (m m0 : string)
    (tracked_instances : list (Z * list (string * tracked)))
    (id : Z) (tracked_attributes : list (string * tracked)) (st st' : state S) :
  (m0, tracked_instances) ∈ T ->
  (id, tracked_attributes) ∈ tracked_instances ->
  apply_instance m (id, tracked_attributes) st = (st', Ok tt) ->
  forall a v, (a, Scalar v) ∈ tracked_attributes -> initial v <> current v ->
  EvSetattr m id a (current v) ∈ trace st'.
Proof.
  intros HT Hinst Hrun a v Hin Hdirty.
  unfold apply_instance, mbind, M_bind, record_success in Hrun. simpl in Hrun.
  destruct (fold_each (apply_attribute m id) None tracked_attributes _)
    as [st1 [instance | e]] eqn:Hfold; [| done].
  pose proof (fold_apply_attribute_assigns m m0 id tracked_instances tracked_attributes
                HT Hinst tracked_attributes None _ st1 instance (fun _ H => H) Hfold
                a v Hin Hdirty) as Hev.
  destruct instance as [instance |]; [| by injection Hrun as <-].
  assert (adds_only (from_dirty_entry T) (validate_and_update (S := S) m instance)) as Hadds.
  { unfold validate_and_update.
    apply adds_only_bind; [apply adds_only__validate_version_id | intros ?].
    auto with applier. }
  pose proof (adds_only_keeps _ _ st1 _ Hadds Hev) as Hkept.
  by rewrite Hrun in Hkept.
Qed.

Lemma for_each_apply_instance_assigns (m m0 : string)
    (tracked_instances : list (Z * list (string * tracked))) :
  (m0, tracked_instances) ∈ T ->
  forall (rest : list (Z * list (string * tracked))) (st st' : state S),
  (forall entry, entry ∈ rest -> entry ∈ tracked_instances) ->
  for_each (apply_instance m) rest st = (st', Ok tt) ->
  forall id tracked_attributes a v,
  (id, tracked_attributes) ∈ rest -> (a, Scalar v) ∈ tracked_attributes ->
  initial v <> current v ->
  EvSetattr m id a (current v) ∈ trace st'.
Proof.
  intros HT. induction rest as [| entry rest IH];
    intros st st' Hsub Hrun id tracked_attributes a v Hentry Hin Hdirty.
  - by apply elem_of_nil in Hentry.
  - cbn [for_each] in Hrun. unfold mbind at 1, M_bind at 1 in Hrun.
    destruct (apply_instance m entry st) as [st1 [[] | e]] eqn:Hstep; [| done].
    apply elem_of_cons in Hentry as [<- | Hentry].
    + pose proof (apply_instance_assigns m m0 tracked_instances id tracked_attributes
                    st st1 HT (Hsub _ (list_elem_of_here _ _)) Hstep a v Hin Hdirty) as Hev.
      pose proof (adds_only_keeps (from_dirty_entry T)
                    (for_each (apply_instance m) rest) st1 _
                    (adds_only_for_each _ _ rest
                       (fun x Hx =>
                          adds_only_apply_instance m m0 tracked_instances x HT
                            (Hsub x (list_elem_of_further _ _ _ Hx)))) Hev) as Hkept.
      by rewrite Hrun in Hkept.
    + eapply (IH st1 st'); [| exact Hrun | exact Hentry | exact Hin | exact Hdirty].
      intros x Hx. apply Hsub. by right.
Qed.

(** The mapi named in the assignments of one model of the diff is the one
    the loop over the new instances left bound. *)
Lemma apply_model_assigns (m0 : string)
    (tracked_instances : list (Z * list (string * tracked))) (st st' : state S) :
  (m0, tracked_instances) ∈ T ->
  apply_model (m0, tracked_instances) st = (st', Ok tt) ->
  exists m, forall id tracked_attributes a v,
    (id, tracked_attributes) ∈ tracked_instances -> (a, Scalar v) ∈ tracked_attributes ->
    initial v <> current v ->
    EvSetattr m id a (current v) ∈ trace st'.
Proof.
  intros HT Hrun. unfold apply_model, mbind, M_bind, reset_successes, getattr_model in Hrun.
  simpl in Hrun. destruct (has_mapi (store st) m0); [| done].
  destruct (handle_new_instances _ m0 _) as [st1 [m | e]]; [| done].
  exists m. intros id tracked_attributes a v Hentry Hin Hdirty.
  by apply (for_each_apply_instance_assigns m m0 tracked_instances HT tracked_instances
              st1 st' (fun _ H => H) Hrun id tracked_attributes a v).
Qed.

Lemma for_each_apply_model_assigns :
  forall (rest : tracked_changes_items) (st st' : state S),
  (forall entry, entry ∈ rest -> entry ∈ T) ->
  for_each apply_model rest st = (st', Ok tt) ->
  forall m0 tracked_instances id tracked_attributes a v,
  (m0, tracked_instances) ∈ rest ->
  (id, tracked_attributes) ∈ tracked_instances -> (a, Scalar v) ∈ tracked_attributes ->
  initial v <> current v ->
  exists m, EvSetattr m id a (current v) ∈ trace st'.
Proof.
  induction rest as [| entry rest IH];
    intros st st' Hsub Hrun m0 tracked_instances id tracked_attributes a v
      Hmodel Hentry Hin Hdirty.
  - by apply elem_of_nil in Hmodel.
  - cbn [for_each] in Hrun. unfold mbind at 1, M_bind at 1 in Hrun.
    destruct (apply_model entry st) as [st1 [[] | e]] eqn:Hstep; [| done].
    apply elem_of_cons in Hmodel as [<- | Hmodel].
    + destruct (apply_model_assigns m0 tracked_instances st st1
                  (Hsub _ (list_elem_of_here _ _)) Hstep) as [m Hm].
      exists m.
      pose proof (adds_only_keeps (from_dirty_entry T) (for_each apply_model rest) st1 _
                    (adds_only_for_each _ _ rest
                       (fun x Hx =>
                          adds_only_apply_model x (Hsub x (list_elem_of_further _ _ _ Hx))))
                    (Hm id tracked_attributes a v Hentry Hin Hdirty)) as Hkept.
      by rewrite Hrun in Hkept.
    + eapply (IH st1 st');
        [| exact Hrun | exact Hmodel | exact Hentry | exact Hin | exact Hdirty].
      intros x Hx. apply Hsub. by right.
Qed.

(** A call that returns has assigned every scalar entry of the diff whose
    [initial] differs from its [current]. *)
Lemma apply_tracked_changes_assigns_every_dirty_entry
    (N : new_instances_items) (model : S) :
  (apply_tracked_changes T N model).2 = Ok tt ->
  forall m0 tracked_instances id tracked_attributes a v,
  (m0, tracked_instances) ∈ T ->
  (id, tracked_attributes) ∈ tracked_instances -> (a, Scalar v) ∈ tracked_attributes ->
  initial v <> current v ->
  exists m, EvSetattr m id a (current v) ∈ trace (apply_tracked_changes T N model).1.
Proof.
  unfold apply_tracked_changes.
  destruct (for_each apply_model T _) as [st [[] | e]] eqn:Hrun; simpl.
  - intros _ m0 tracked_instances id tracked_attributes a v.
    by apply (for_each_apply_model_assigns T _ st (fun _ H => H) Hrun).
  - unfold log_and_reraise. by destruct (json_serializable _).
Qed.

End AssignedEntries.



(** *** New instances *)

(** C1 fails on the code. The loop over [new_instances] sits inside the loop
    over [tracked_changes]: with no tracked changes the applier makes no call
    at all, so no new instance is constructed or persisted, and the
    dictionary of new instances is returned as it came. *)
Theorem empty_tracked_changes_persist_no_new_instance
    {S : Type} `{!Storage S} (N : new_instances_items) (model : S) :
  apply_tracked_changes [] N model = (State model [] N ∅, Ok tt) /\
  filter (fun ev => is_put ev) (trace (apply_tracked_changes [] N model).1) = [].
Proof. split; reflexivity. Qed.

(** The same nesting at work on the example storage. A log entry sent
    without tracked changes is lost. Sent with the tracked changes of two
    models, it is persisted in the first round and makes the second round
    raise, the dictionary holding an instance by then. Sent with a change of
    node 1, it is persisted, after which the node is looked up through the
    mapi of the logs, where the loop left [mapi]. *)
Lemma new_instances_loop_runs_once_per_tracked_model :
  let two_models := [("task", []); ("node", [])] in
  let node_change := [("node", [(1%Z, [("state", Scalar (Value PStub (PStr "b")))])])] in
  trace (apply_tracked_changes [] Examples.one_log Examples.model0).1 = [] /\
  call_of <$> trace (apply_tracked_changes two_models Examples.one_log Examples.model0).1
    = [("model_cls", "log"); ("put", "log"); ("logger.error", "")] /\
  (apply_tracked_changes two_models Examples.one_log Examples.model0).2
    = Raise not_a_mapping /\
  call_of <$> trace (apply_tracked_changes node_change Examples.one_log Examples.model0).1
    = [("model_cls", "log"); ("put", "log"); ("get", "log"); ("logger.error", "")] /\
  (apply_tracked_changes node_change Examples.one_log Examples.model0).2
    = Raise Examples.not_found /\
  call_of <$> trace (apply_tracked_changes node_change [] Examples.model0).1
    = [("get", "node"); ("setattr", "node"); ("update", "node")].
Proof. repeat split; vm_compute; reflexivity. Qed.

(** ** The executor *)

(** C6. For a [succeeded] message of a registered task, the handler first
    takes the task out of the registry, then applies the diff, in a state in
    which the task is no longer registered, and then reports the task failed
    with the exception of the applier (its message extended) if the applier
    raised, succeeded otherwise; either way the task is not registered
    afterwards. *)
Theorem succeeded_request_removes_task_then_applies_then_reports
    {S : Type} `{!Storage S} (self : ProcessExecutor S) (task_id : string)
    (task : Task) (request : request) :
  _tasks self !! task_id = Some task ->
  let removed := with_tasks self (delete task_id (_tasks self)) in
  let applied := apply_tracked_changes (req_tracked_changes request)
                   (req_new_instances request) (model self) in
  let report_of :=
    match applied.2 with
    | Raise e => TaskFailed task (Some (add_message e UPDATE_TRACKED_CHANGES_FAILED_STR)) None
    | Ok _ => TaskSucceeded task
    end in
  let handled := _handle_task_succeeded_request self task_id request in
  _remove_task self task_id = (removed, Ok task) /\
  _tasks removed !! task_id = None /\
  (_apply_tracked_changes removed task request).2 = applied.2 /\
  handled = (report (_apply_tracked_changes removed task request).1 report_of, Ok tt) /\
  history handled.1
    = history self ++ [Applied task (trace applied.1) applied.2; report_of] /\
  model handled.1 = store applied.1 /\
  _tasks handled.1 !! task_id = None.
Proof.
  intros Htask removed applied report_of handled.
  assert (_remove_task self task_id = (removed, Ok task)) as Hremove.
  { unfold _remove_task. by rewrite Htask. }
  assert (_tasks removed !! task_id = None) as Hgone by apply lookup_delete_eq.
  subst handled. unfold _handle_task_succeeded_request. rewrite Hremove.
  unfold _apply_tracked_changes. simpl. fold applied. subst report_of.
  destruct applied as [st [[] | e]]; simpl; rewrite <- app_assoc; done.
Qed.

Lemma succeeded_request_removes_task_then_applies_then_reports_witness :
  let task := MkTask "t1" in
  let self := Executor false {[ "t1" := task; "t2" := MkTask "t2" ]} Examples.model0 []
                (Messenger None 5000) [] false 0 in
  let change id := [("node", [(id, [("state", Scalar (Value PStub (PStr "b")))])])] in
  let good := _handle_task_succeeded_request self "t1"
                (Request "succeeded" (Some "t1") None "" (change 1%Z) []) in
  let bad := _handle_task_succeeded_request self "t1"
               (Request "succeeded" (Some "t1") None "" (change 9%Z) []) in
  _tasks good.1 !! "t1" = None /\ last (history good.1) = Some (TaskSucceeded task) /\
  _tasks bad.1 !! "t1" = None /\
  last (history bad.1)
    = Some (TaskFailed task
              (Some (add_message Examples.not_found UPDATE_TRACKED_CHANGES_FAILED_STR))
              None).
Proof.
  intros task self change good bad.
  destruct (succeeded_request_removes_task_then_applies_then_reports self "t1" task
              (Request "succeeded" (Some "t1") None "" (change 1%Z) []) eq_refl)
    as (_ & _ & _ & _ & Hh1 & _ & Hg1).
  destruct (succeeded_request_removes_task_then_applies_then_reports self "t1" task
              (Request "succeeded" (Some "t1") None "" (change 9%Z) []) eq_refl)
    as (_ & _ & _ & _ & Hh2 & _ & Hg2).
  split; [exact Hg1 |]. split; [subst good; rewrite Hh1; vm_compute; reflexivity |].
  split; [exact Hg2 |]. subst bad. rewrite Hh2. vm_compute. reflexivity.
Defined.

(** C9. After one call of [close()] the executor is stopped, and a second
    call, whatever the network would answer, returns at once and leaves the
    executor as the first call left it: no further [closed] message is sent
    (no socket is used), the server socket is not closed again and the
    listener thread is not joined again. *)
Theorem close_twice_is_close_once
    {S : Type} (dumps : request -> list byte) (loads : list byte -> result response)
    (wrap_if_needed : option exn -> option exn) (get_exception_as_string : string)
    (net net' : network) (self : ProcessExecutor S) :
  let once := close dumps loads wrap_if_needed get_exception_as_string net self in
  let twice := close dumps loads wrap_if_needed get_exception_as_string net' once.1 in
  _stopped once.1 = true /\
  twice = (once.1, Ok tt) /\
  messenger_sockets twice.1 = messenger_sockets once.1 /\
  _listener_thread_joins twice.1 = _listener_thread_joins once.1.
Proof.
  simpl.
  assert (_stopped (close dumps loads wrap_if_needed get_exception_as_string net self).1
          = true) as Hstopped.
  { unfold close. destruct (_stopped self) eqn:Hs; [done |].
    destruct (closed_message _ _ _ _ _ _) as [sock [[] | e]]; done. }
  assert (close dumps loads wrap_if_needed get_exception_as_string net'
            (close dumps loads wrap_if_needed get_exception_as_string net self).1
          = ((close dumps loads wrap_if_needed get_exception_as_string net self).1, Ok tt))
    as Htwice.
  { unfold close at 1. by rewrite Hstopped. }
  rewrite Htwice. done.
Qed.

Lemma close_twice_is_close_once_witness :
  let self := Executor false {[ "t1" := MkTask "t1" ]} Examples.model0 []
                (Messenger None 5000) [] false 0 in
  let once := close Examples.dumps0 Examples.loads0 (fun e => e) "" Examples.net_ok self in
  let twice := close Examples.dumps0 Examples.loads0 (fun e => e) ""
                 Examples.net_exception once.1 in
  once.2 = Ok tt /\ _listener_thread_joins once.1 = 1 /\
  length (messenger_sockets once.1) = 1 /\ _server_socket_closed once.1 = true /\
  twice = (once.1, Ok tt).
Proof.
  intros self once twice.
  destruct (close_twice_is_close_once Examples.dumps0 Examples.loads0 (fun e => e) ""
              Examples.net_ok Examples.net_exception self) as (_ & Htwice & _).
  split; [vm_compute; reflexivity |]. split; [vm_compute; reflexivity |].
  split; [vm_compute; reflexivity |]. split; [vm_compute; reflexivity |].
  exact Htwice.
Defined.

(** * Further properties *)

Import Examples.

(** ** Frames *)

Lemma of_N_mod_256 (x : N) :
  exists b, Byte.of_N (x mod 256) = Some b /\ Byte.to_N b = (x mod 256)%N.
Proof.
  destruct (Byte.of_N (x mod 256)) as [b |] eqn:Hb.
  - exists b. split; [done |]. by apply Byte.to_of_N.
  - apply Byte.of_N_None_iff in Hb. pose proof (N.mod_lt x 256). lia.
Qed.

Lemma pack_I_unpack_I (n : N) :
  (n < 2 ^ 32)%N ->
  exists data, pack_I n = Ok data /\ length data = 4 /\ unpack_I data = Ok n.
Proof.
  intros Hn. unfold pack_I. apply N.ltb_lt in Hn as Hn'. rewrite Hn'.
  destruct (of_N_mod_256 n) as (b0 & -> & H0).
  destruct (of_N_mod_256 (n / 256)) as (b1 & -> & H1).
  destruct (of_N_mod_256 (n / 65536)) as (b2 & -> & H2).
  destruct (of_N_mod_256 (n / 16777216)) as (b3 & -> & H3).
  eexists. split; [done |]. split; [done |]. simpl. f_equal.
  rewrite H0, H1, H2, H3. change (2 ^ 32)%N with 4294967296%N in Hn.
  replace (n / 65536)%N with (n / 256 / 256)%N by (rewrite N.Div0.div_div; reflexivity).
  replace (n / 16777216)%N with (n / 256 / 256 / 256)%N
    by (rewrite !N.Div0.div_div; reflexivity).
  pose proof (N.div_mod' n 256). pose proof (N.div_mod' (n / 256) 256).
  pose proof (N.div_mod' (n / 256 / 256) 256).
  assert (n / 256 / 256 / 256 < 256)%N.
  { rewrite !N.Div0.div_div. apply N.Div0.div_lt_upper_bound. simpl. lia. }
  rewrite (N.mod_small (n / 256 / 256 / 256) 256) by done. lia.
Qed.

Lemma _send_message_writes_frame {A} (dumps : A -> list byte) (c : connection) (msg : A) :
  (N.of_nat (length (dumps msg)) < 2 ^ 32)%N ->
  exists header,
    pack_I (N.of_nat (length (dumps msg))) = Ok header /\
    length header = 4 /\
    unpack_I header = Ok (N.of_nat (length (dumps msg))) /\
    _send_message dumps c msg
    = (Connection (pending c) (schedule c) (sent c ++ header ++ dumps msg) (closed c),
       Ok tt).
Proof.
  intros Hlen. destruct (pack_I_unpack_I _ Hlen) as (header & Hpack & Hl & Hunpack).
  exists header. unfold _send_message. rewrite Hpack. done.
Qed.

(** X1. A message written by [_send_message] is read back by
    [_recv_message] at the other end of the connection, however the network
    cuts the bytes into reads: when the serialized message is shorter than
    2^32 bytes, the send succeeds, what was sent before stays in front of
    the new frame, and a reader whose pending bytes start with the bytes
    just written decodes exactly the serialized message and leaves the
    bytes behind the frame pending. *)
Theorem send_message_then_recv_message_round_trip
    {A : Type} (dumps : A -> list byte) (loads : list byte -> result A)
    (sender receiver : connection) (msg : A) (rest : list byte) :
  (N.of_nat (length (dumps msg)) < 2 ^ 32)%N ->
  pending receiver
  = drop (length (sent sender)) (sent (_send_message dumps sender msg).1) ++ rest ->
  (_send_message dumps sender msg).2 = Ok tt /\
  take (length (sent sender)) (sent (_send_message dumps sender msg).1) = sent sender /\
  (_recv_message loads receiver).2 = loads (dumps msg) /\
  pending (_recv_message loads receiver).1 = rest.
Proof.
  intros Hlen Hpending.
  destruct (_send_message_writes_frame dumps sender msg Hlen)
    as (header & _ & Hheader & Hunpack & Hsend).
  rewrite Hsend in Hpending |- *. simpl in *.
  rewrite drop_app_length in Hpending. rewrite take_app_length.
  split; [done |]. split; [done |].
  destruct (_recv_message_spec loads receiver) as [Hrecv _].
  rewrite Hpending in Hrecv. unfold _INT_SIZE in Hrecv.
  rewrite <- app_assoc in Hrecv.
  rewrite <- Hheader in Hrecv. rewrite take_app_length, !drop_app_length in Hrecv.
  rewrite Hunpack, Nat2N.id in Hrecv.
  by rewrite take_app_length, drop_app_length in Hrecv.
Qed.

Lemma send_message_then_recv_message_round_trip_witness :
  let codec_dumps (s : string) := String.list_byte_of_string s in
  let codec_loads (data : list byte) := Ok (String.string_of_list_byte data) in
  let sender := Connection [] [] (frame "earlier") false in
  let sent_now := drop (length (sent sender))
                    (sent (_send_message codec_dumps sender "hello").1) in
  let receiver := Connection (sent_now ++ frame "next") [0; 0; 2; 1] [] false in
  (_recv_message codec_loads receiver).2 = Ok "hello" /\
  pending (_recv_message codec_loads receiver).1 = frame "next".
Proof.
  intros codec_dumps codec_loads sender sent_now receiver.
  destruct (send_message_then_recv_message_round_trip codec_dumps codec_loads
              sender receiver "hello" (frame "next")) as (_ & _ & Hmsg & Hrest);
    [vm_compute; reflexivity | reflexivity |].
  split; [by rewrite Hmsg | exact Hrest].
Defined.

Lemma _recv_message_short {A} (loads : list byte -> result A) (c : connection) :
  length (pending c) < _INT_SIZE ->
  exists c', _recv_message loads c = (c', Raise struct_error) /\
             pending c' = [] /\ sent c' = sent c /\ closed c' = closed c.
Proof.
  intros Hshort. destruct (_recv_message_spec loads c) as (Hrecv & Hsent & Hclosed).
  assert (unpack_I (take _INT_SIZE (pending c)) = Raise struct_error) as Hunpack.
  { rewrite take_ge by lia. unfold _INT_SIZE in Hshort.
    destruct (pending c) as [| ? [| ? [| ? [| ? ?]]]]; simpl in *; try done; lia. }
  rewrite Hunpack in Hrecv. destruct Hrecv as [Hr Hp].
  rewrite drop_ge in Hp by lia.
  destruct (_recv_message loads c) as [c' r]. simpl in *. subst r. by exists c'.
Qed.

(** X2. A connection that reaches EOF before four bytes arrived gives no
    length: [_recv_message] raises [struct.error], having consumed what did
    arrive; the decoder is not consulted and nothing is written. *)
Theorem recv_message_short_header_raises
    {A : Type} (loads : list byte -> result A) (c : connection) :
  length (pending c) < _INT_SIZE ->
  (_recv_message loads c).2 = Raise struct_error /\
  pending (_recv_message loads c).1 = [] /\
  sent (_recv_message loads c).1 = sent c.
Proof.
  intros Hshort. destruct (_recv_message_short loads c Hshort) as (c' & -> & ? & ? & _).
  done.
Qed.

Lemma recv_message_short_header_raises_witness :
  let c := Connection [x05; x00; x00] [0; 0] [] false in
  (_recv_message (fun data => Ok (String.string_of_list_byte data)) c).2
  = Raise struct_error.
Proof.
  intros c.
  apply (recv_message_short_header_raises
           (fun data => Ok (String.string_of_list_byte data)) c).
  vm_compute. lia.
Defined.


(** ** The messenger without an answer *)

(** X3. A worker does not mistake a listener that hangs up for success:
    when the request went out in full and the connection reaches EOF before
    the four bytes of a response length arrived, [_Messenger._send_message]
    raises [struct.error], and the socket is closed all the same. *)
Theorem messenger_raises_when_the_answer_is_cut_short
    (dumps : request -> list byte) (loads : list byte -> result response)
    (wrap_if_needed : option exn -> option exn) (get_exception_as_string : string)
    (self : _Messenger) (net : network) (type : string)
    (tracked_changes : option tracked_changes_items)
    (new_instances : option new_instances_items)
    (exception : option exn) (sock : connection) :
  let request := Request type (task_id self) (wrap_if_needed exception)
                   get_exception_as_string (default [] tracked_changes)
                   (default [] new_instances) in
  let outcome := _Messenger_send_message dumps loads wrap_if_needed
                   get_exception_as_string self net type tracked_changes
                   new_instances exception in
  net (port self) = Ok sock ->
  (N.of_nat (length (dumps request)) < 2 ^ 32)%N ->
  length (pending sock) < _INT_SIZE ->
  outcome.2 = Raise struct_error /\
  exists sock' header,
    outcome.1 = Some sock' /\ closed sock' = true /\
    length header = 4 /\ written sock sock' = header ++ dumps request.
Proof.
  intros request outcome Hnet Hlen Hshort. subst outcome.
  unfold _Messenger_send_message. rewrite Hnet. fold request.
  destruct (_send_message_writes_frame dumps sock request Hlen)
    as (header & _ & Hheader & _ & Hsend).
  rewrite Hsend.
  destruct (_recv_message_short loads
              (Connection (pending sock) (schedule sock)
                 (sent sock ++ header ++ dumps request) (closed sock)) Hshort)
    as (c' & Hrecv & _ & Hsent & _).
  rewrite Hrecv. simpl. split; [done |]. exists (close_socket c'), header.
  split; [done |]. split; [done |]. split; [done |].
  unfold written. simpl. rewrite Hsent. simpl. by rewrite drop_app_length.
Qed.

Lemma messenger_raises_when_the_answer_is_cut_short_witness :
  let hung_up : network := fun _ => Ok (Connection [x02; x00] [0] [] false) in
  (started_message dumps0 loads0 (fun e => e) "" (Messenger (Some "t1") 5000) hung_up).2
  = Raise struct_error.
Proof.
  intros hung_up.
  apply (messenger_raises_when_the_answer_is_cut_short dumps0 loads0 (fun e => e) ""
           (Messenger (Some "t1") 5000) hung_up "started" None None None
           (Connection [x02; x00] [0] [] false));
    [reflexivity | vm_compute; reflexivity | vm_compute; lia].
Defined.

(** ** The handlers of the listener *)

Section HandlerProperties.
Context {S : Type} `{!Storage S}.

Lemma _remove_task_registered (self : ProcessExecutor S) (task_id : string) (task : Task) :
  _tasks self !! task_id = Some task ->
  _remove_task self task_id = (with_tasks self (delete task_id (_tasks self)), Ok task).
Proof. intros H. unfold _remove_task. by rewrite H. Qed.

Lemma _remove_task_unknown (self : ProcessExecutor S) (task_id : string) :
  _tasks self !! task_id = None ->
  _remove_task self task_id = (self, Raise (Exn "KeyError" task_id)).
Proof. intros H. unfold _remove_task. by rewrite H. Qed.

Lemma lookup_task_unknown (self : ProcessExecutor S) (task_id : string) :
  _tasks self !! task_id = None ->
  lookup_task self task_id = Raise (Exn "KeyError" task_id).
Proof. intros H. unfold lookup_task. by rewrite H. Qed.

End HandlerProperties.

(** X4. For a [failed] message of a registered task the handler takes the
    task out of the registry, still applies the diff the worker sent, and
    reports the task failed in either case, never succeeded: with the
    worker's exception and traceback when the diff was applied, with the
    applier's exception (its message extended by the worker's) when the
    applier raised. *)
Theorem failed_request_applies_diff_and_reports_failure
    {S : Type} `{!Storage S} (get_exception_as_string : string)
    (self : ProcessExecutor S) (task_id : string) (task : Task) (request : request) :
  _tasks self !! task_id = Some task ->
  let applied := apply_tracked_changes (req_tracked_changes request)
                   (req_new_instances request) (model self) in
  let handled := _handle_task_failed_request get_exception_as_string self task_id request in
  handled.2 = Ok tt /\
  _tasks handled.1 = delete task_id (_tasks self) /\
  model handled.1 = store applied.1 /\
  exists exception traceback,
    history handled.1
    = history self ++ [Applied task (trace applied.1) applied.2;
                       TaskFailed task exception traceback] /\
    match applied.2 with
    | Ok _ => exception = req_exception request /\
              traceback = Some (req_traceback request)
    | Raise e => exists suffix, exception = Some (add_message e suffix) /\
                                traceback = Some get_exception_as_string
    end.
Proof.
  intros Htask applied handled. subst handled.
  unfold _handle_task_failed_request. rewrite (_remove_task_registered _ _ _ Htask).
  unfold _apply_tracked_changes. simpl. fold applied.
  destruct applied as [st [[] | e]]; simpl; (split; [done |]); (split; [done |]);
    (split; [done |]); eexists _, _; rewrite <- app_assoc; simpl; eauto.
Qed.

Lemma failed_request_applies_diff_and_reports_failure_witness :
  let task := MkTask "t1" in
  let self := Executor false {[ "t1" := task ]} model0 [] (Messenger None 5000) [] false 0 in
  let change id := [("node", [(id, [("state", Scalar (Value PStub (PStr "b")))])])] in
  let worker_error := Exn "ValueError" "boom" in
  let applied := _handle_task_failed_request "tb" self "t1"
                   (Request "failed" (Some "t1") (Some worker_error) "worker tb"
                      (change 1%Z) []) in
  let refused := _handle_task_failed_request "tb" self "t1"
                   (Request "failed" (Some "t1") (Some worker_error) "worker tb"
                      (change 9%Z) []) in
  _tasks applied.1 !! "t1" = None /\
  last (history applied.1) = Some (TaskFailed task (Some worker_error) (Some "worker tb")) /\
  _tasks refused.1 !! "t1" = None /\
  exists exception, last (history refused.1) = Some (TaskFailed task exception (Some "tb")).
Proof.
  intros task self change worker_error applied refused.
  destruct (failed_request_applies_diff_and_reports_failure "tb" self "t1" task
              (Request "failed" (Some "t1") (Some worker_error) "worker tb" (change 1%Z) [])
              eq_refl) as (_ & Ht1 & _ & ex1 & tb1 & Hh1 & Hcase1).
  destruct (failed_request_applies_diff_and_reports_failure "tb" self "t1" task
              (Request "failed" (Some "t1") (Some worker_error) "worker tb" (change 9%Z) [])
              eq_refl) as (_ & Ht2 & _ & ex2 & tb2 & Hh2 & Hcase2).
  vm_compute in Hcase1. destruct Hcase1 as [-> ->].
  vm_compute in Hcase2. destruct Hcase2 as (suffix & -> & ->).
  split; [subst applied; rewrite Ht1; apply lookup_delete_eq |].
  split; [subst applied; rewrite Hh1; reflexivity |].
  split; [subst refused; rewrite Ht2; apply lookup_delete_eq |].
  eexists. subst refused. rewrite Hh2. reflexivity.
Defined.

(** X5. For an [apply_tracked_changes] message of a registered task the
    handler applies the diff and never raises: the task stays registered,
    nothing is reported about it, and the response carries the (wrapped)
    exception of the applier exactly when the applier raised. *)
Theorem apply_request_keeps_task_and_answers_with_the_error
    {S : Type} `{!Storage S} (wrap_if_needed : option exn -> option exn)
    (self : ProcessExecutor S) (task_id : string) (task : Task) (request : request) :
  _tasks self !! task_id = Some task ->
  let applied := apply_tracked_changes (req_tracked_changes request)
                   (req_new_instances request) (model self) in
  let handled := _handle_apply_tracked_changes_request wrap_if_needed self task_id request in
  handled.2 = Ok (Response match applied.2 with
                           | Ok _ => None
                           | Raise e => wrap_if_needed (Some e)
                           end) /\
  _tasks handled.1 = _tasks self /\
  model handled.1 = store applied.1 /\
  history handled.1 = history self ++ [Applied task (trace applied.1) applied.2].
Proof.
  intros Htask applied handled. subst handled.
  unfold _handle_apply_tracked_changes_request, lookup_task. rewrite Htask.
  unfold _apply_tracked_changes. fold applied.
  destruct applied as [st [[] | e]]; done.
Qed.

Lemma apply_request_keeps_task_and_answers_with_the_error_witness :
  let task := MkTask "t1" in
  let self := Executor false {[ "t1" := task ]} model0 [] (Messenger None 5000) [] false 0 in
  let change id := [("node", [(id, [("state", Scalar (Value PStub (PStr "b")))])])] in
  let request id := Request "apply_tracked_changes" (Some "t1") None "" (change id) [] in
  (_handle_apply_tracked_changes_request (fun e => e) self "t1" (request 1%Z)).2
  = Ok (Response None) /\
  (_handle_apply_tracked_changes_request (fun e => e) self "t1" (request 9%Z)).2
  = Ok (Response (Some not_found)) /\
  _tasks (_handle_apply_tracked_changes_request (fun e => e) self "t1" (request 9%Z)).1
    !! "t1" = Some task.
Proof.
  intros task self change request.
  destruct (apply_request_keeps_task_and_answers_with_the_error (fun e => e) self "t1"
              task (request 1%Z) eq_refl) as (H1 & _).
  destruct (apply_request_keeps_task_and_answers_with_the_error (fun e => e) self "t1"
              task (request 9%Z) eq_refl) as (H2 & Ht & _).
  split; [rewrite H1; vm_compute; reflexivity |].
  split; [rewrite H2; vm_compute; reflexivity |].
  rewrite Ht. reflexivity.
Defined.

(** X6. A message that names a task the registry does not hold makes every
    handler raise [KeyError] at its first step: nothing is applied to the
    storage, nothing is reported, the executor is left as it was. *)
Theorem request_for_unknown_task_raises_and_changes_nothing
    {S : Type} `{!Storage S} (wrap_if_needed : option exn -> option exn)
    (get_exception_as_string : string)
    (self : ProcessExecutor S) (task_id : string) (request : request) :
  _tasks self !! task_id = None ->
  _handle_task_started_request self task_id = (self, Raise (Exn "KeyError" task_id)) /\
  _handle_task_succeeded_request self task_id request
  = (self, Raise (Exn "KeyError" task_id)) /\
  _handle_task_failed_request get_exception_as_string self task_id request
  = (self, Raise (Exn "KeyError" task_id)) /\
  _handle_apply_tracked_changes_request wrap_if_needed self task_id request
  = (self, Raise (Exn "KeyError" task_id)).
Proof.
  intros Hnone.
  unfold _handle_task_started_request, _handle_task_succeeded_request,
    _handle_task_failed_request, _handle_apply_tracked_changes_request.
  by rewrite (lookup_task_unknown _ _ Hnone), (_remove_task_unknown _ _ Hnone).
Qed.

Lemma request_for_unknown_task_raises_and_changes_nothing_witness :
  let self := Executor false {[ "t1" := MkTask "t1" ]} model0 [] (Messenger None 5000)
                [] false 0 in
  let request := Request "succeeded" (Some "t2") None "" [] one_log in
  _handle_task_succeeded_request self "t2" request = (self, Raise (Exn "KeyError" "t2")).
Proof.
  intros self request.
  apply (request_for_unknown_task_raises_and_changes_nothing (fun e => e) "" self "t2"
           request).
  reflexivity.
Defined.

(** ** Submitting tasks *)

(** X7. Once [close()] was called the executor refuses tasks: [_execute]
    raises [RuntimeError('Executor closed')] before it registers the task
    or spawns anything, however the close itself ended. *)
Theorem execute_after_close_is_refused
    {S : Type} `{!Storage S} (dumps : request -> list byte)
    (loads : list byte -> result response) (wrap_if_needed : option exn -> option exn)
    (get_exception_as_string : string) (net : network) (spawn : Task -> result unit)
    (self : ProcessExecutor S) (task : Task) :
  let closed_executor :=
    (close dumps loads wrap_if_needed get_exception_as_string net self).1 in
  _execute spawn closed_executor task
  = (closed_executor, Raise (Exn "RuntimeError" "Executor closed")).
Proof.
  simpl. unfold _execute, _check_closed.
  assert (_stopped (close dumps loads wrap_if_needed get_exception_as_string net self).1
          = true) as ->; [| done].
  unfold close. destruct (_stopped self) eqn:Hs; [done |].
  destruct (closed_message _ _ _ _ _ _) as [sock [[] | e]]; done.
Qed.

(** X8. On an executor that is not stopped, [_execute] registers the task
    under its id before it spawns the worker and does not take it back when
    spawning fails; the other tasks stay registered, and a [started]
    message for the task is then accepted and reported. *)
Theorem execute_registers_task_before_spawning
    {S : Type} `{!Storage S} (spawn : Task -> result unit)
    (self : ProcessExecutor S) (task : Task) :
  _stopped self = false ->
  let executed := _execute spawn self task in
  executed.2 = spawn task /\
  _tasks executed.1 !! tid task = Some task /\
  (forall other, other <> tid task -> _tasks executed.1 !! other = _tasks self !! other) /\
  _handle_task_started_request executed.1 (tid task)
  = (report executed.1 (TaskStarted task), Ok tt).
Proof.
  intros Hopen. simpl. unfold _execute, _check_closed. rewrite Hopen. simpl.
  split; [done |]. split; [apply lookup_insert_eq |].
  split; [intros other Hne; by apply lookup_insert_ne |].
  unfold _handle_task_started_request, lookup_task. simpl. by rewrite lookup_insert_eq.
Qed.

Lemma execute_registers_task_before_spawning_witness :
  let self := Executor false {[ "t1" := MkTask "t1" ]} model0 [] (Messenger None 5000)
                [] false 0 in
  let failing_spawn (_ : Task) : result unit := Raise (Exn "OSError" "no more processes") in
  let executed := _execute failing_spawn self (MkTask "t2") in
  executed.2 = Raise (Exn "OSError" "no more processes") /\
  _tasks executed.1 !! "t2" = Some (MkTask "t2") /\
  _tasks executed.1 !! "t1" = Some (MkTask "t1").
Proof.
  intros self failing_spawn executed.
  destruct (execute_registers_task_before_spawning failing_spawn self (MkTask "t2")
              eq_refl) as (Hr & Ht & Hothers & _).
  split; [exact Hr |]. split; [exact Ht |].
  subst executed. rewrite (Hothers "t1") by discriminate. reflexivity.
Defined.


Lemma _recv_message_frame {A} (loads : list byte -> result A) (c : connection)
    (header data rest : list byte) :
  pending c = header ++ data ++ rest ->
  length header = 4 ->
  unpack_I header = Ok (N.of_nat (length data)) ->
  exists c', _recv_message loads c = (c', loads data) /\
             pending c' = rest /\ sent c' = sent c /\ closed c' = closed c.
Proof.
  intros Hpending Hheader Hunpack.
  destruct (_recv_message_spec loads c) as (Hrecv & Hsent & Hclosed).
  rewrite Hpending in Hrecv. unfold _INT_SIZE in Hrecv.
  rewrite <- Hheader in Hrecv. rewrite take_app_length, !drop_app_length in Hrecv.
  rewrite Hunpack, Nat2N.id in Hrecv.
  rewrite take_app_length, drop_app_length in Hrecv.
  destruct (_recv_message loads c) as [c' r]. simpl in *. destruct Hrecv as [-> ?].
  by exists c'.
Qed.

(** ** The listener *)

Section ListenerProperties.
Context {S : Type} `{!Storage S}.
Context (loads : list byte -> result request) (dumps : response -> list byte).
Context (wrap_if_needed : option exn -> option exn) (get_exception_as_string : string).

Lemma serve_decoded (connection c1 : connection) (message : request)
    (self : ProcessExecutor S) :
  _recv_message loads connection = (c1, Ok message) ->
  let dispatched := dispatch wrap_if_needed get_exception_as_string self message in
  let answer := final_response wrap_if_needed dispatched.1.2 dispatched.2 in
  (N.of_nat (length (dumps answer)) < 2 ^ 32)%N ->
  exists header,
    unpack_I header = Ok (N.of_nat (length (dumps answer))) /\
    length header = 4 /\
    serve loads dumps wrap_if_needed get_exception_as_string (Ok connection) self
    = ((dispatched.1.1,
        Some (Connection (pending c1) (schedule c1)
                (sent c1 ++ header ++ dumps answer) true)),
       dispatched.2).
Proof.
  intros Hrecv dispatched answer Hlen.
  destruct (_send_message_writes_frame dumps c1 answer Hlen)
    as (header & _ & Hheader & Hunpack & Hsend).
  exists header. split; [done |]. split; [done |].
  unfold serve. rewrite Hrecv. subst answer dispatched.
  destruct (dispatch _ _ self message) as [[self' left] r]. simpl in *.
  by rewrite Hsend.
Qed.

End ListenerProperties.

(** X9. One round of the listener answers every request it could decode
    with exactly one response frame and then closes the connection,
    whatever the request asks for and however its handler ends; the
    response carries the (wrapped) exception the block raised, or else what
    the handler put into it. *)
Theorem every_decoded_request_is_answered_once
    {S : Type} `{!Storage S}
    (loads : list byte -> result request) (dumps : response -> list byte)
    (wrap_if_needed : option exn -> option exn) (get_exception_as_string : string)
    (connection c1 : connection) (message : request) (self : ProcessExecutor S) :
  _recv_message loads connection = (c1, Ok message) ->
  let dispatched := dispatch wrap_if_needed get_exception_as_string self message in
  let answer := final_response wrap_if_needed dispatched.1.2 dispatched.2 in
  let served := serve loads dumps wrap_if_needed get_exception_as_string
                  (Ok connection) self in
  (N.of_nat (length (dumps answer)) < 2 ^ 32)%N ->
  served.1.1 = dispatched.1.1 /\
  served.2 = dispatched.2 /\
  (exists c' header,
     served.1.2 = Some c' /\ closed c' = true /\
     length header = 4 /\ unpack_I header = Ok (N.of_nat (length (dumps answer))) /\
     sent c' = sent connection ++ header ++ dumps answer) /\
  resp_exception answer
  = match dispatched.2 with
    | Raise e => wrap_if_needed (Some e)
    | Ok _ => resp_exception dispatched.1.2
    end.
Proof.
  intros Hrecv dispatched answer served Hlen.
  destruct (serve_decoded loads dumps wrap_if_needed get_exception_as_string
              connection c1 message self Hrecv Hlen) as (header & Hunpack & Hheader & Hserve).
  subst served. rewrite Hserve. simpl.
  split; [done |]. split; [done |]. split.
  - eexists _, header. split; [done |]. simpl. split; [done |]. split; [done |].
    split; [done |].
    destruct (_recv_message_spec loads connection) as (_ & Hsent & _).
    rewrite Hrecv in Hsent. simpl in Hsent. by rewrite Hsent.
  - subst answer. by destruct (dispatched.2).
Qed.

Lemma every_decoded_request_is_answered_once_witness :
  let accepted := Connection (frame "started" ++ frame "later") [1; 0; 4] [] false in
  let served := serve (loads_request0 []) dumps_response0 wrap0 "" (Ok accepted) executor0 in
  served.2 = Ok Continue /\
  history served.1.1 = [TaskStarted (MkTask "t1")] /\
  exists c', served.1.2 = Some c' /\ closed c' = true /\ sent c' = frame "{}".
Proof.
  intros accepted served.
  pose (c1 := (_recv_message (loads_request0 []) accepted).1).
  destruct (every_decoded_request_is_answered_once (loads_request0 []) dumps_response0
              wrap0 "" accepted c1
              (Request "started" (Some "t1") None "" [] []) executor0)
    as (Hself & Hr & (c' & header & Hc' & Hclosed & Hheader & Hunpack & Hsent) & _);
    [vm_compute; reflexivity | vm_compute; reflexivity |].
  split; [subst served; rewrite Hr; vm_compute; reflexivity |].
  split; [subst served; rewrite Hself; vm_compute; reflexivity |].
  exists c'. split; [exact Hc' |]. split; [exact Hclosed |].
  vm_compute in Hc'. injection Hc' as <-. reflexivity.
Defined.

Lemma dispatch_unknown_type {S : Type} `{!Storage S}
    (wrap_if_needed : option exn -> option exn) (get_exception_as_string : string)
    (self : ProcessExecutor S) (message : request) :
  req_type message ∉ ["closed"; "started"; "succeeded"; "failed"; "apply_tracked_changes"] ->
  dispatch wrap_if_needed get_exception_as_string self message
  = ((self, Response None), Raise (invalid_request_type (req_type message))).
Proof.
  intros Hunknown. unfold dispatch. cbv zeta.
  repeat (let Hne := fresh "Hne" in
          apply not_elem_of_cons in Hunknown as [Hne Hunknown];
          apply String.eqb_neq in Hne; rewrite Hne).
  done.
Qed.

Lemma _handle_apply_tracked_changes_request_registered {S : Type} `{!Storage S}
    (wrap_if_needed : option exn -> option exn)
    (self : ProcessExecutor S) (task_id : string) (task : Task) (request : request) :
  _tasks self !! task_id = Some task ->
  let applied := apply_tracked_changes (req_tracked_changes request)
                   (req_new_instances request) (model self) in
  let handled := _handle_apply_tracked_changes_request wrap_if_needed self task_id request in
  handled.2 = Ok (Response match applied.2 with
                           | Ok _ => None
                           | Raise e => wrap_if_needed (Some e)
                           end) /\
  _tasks handled.1 = _tasks self /\
  model handled.1 = store applied.1 /\
  history handled.1 = history self ++ [Applied task (trace applied.1) applied.2].
Proof.
  intros Htask applied handled. subst handled.
  unfold _handle_apply_tracked_changes_request, lookup_task. rewrite Htask.
  unfold _apply_tracked_changes. fold applied.
  destruct applied as [st [[] | e]]; done.
Qed.

(** X10. A request of a type the listener has no handler for changes
    nothing in the executor; it is answered with a response that carries
    [RuntimeError('Invalid request type: ...')], the connection is closed,
    and the error is what the round leaves for the loop to log. *)
Theorem unknown_request_type_is_answered_with_an_error
    {S : Type} `{!Storage S}
    (loads : list byte -> result request) (dumps : response -> list byte)
    (wrap_if_needed : option exn -> option exn) (get_exception_as_string : string)
    (connection c1 : connection) (message : request) (self : ProcessExecutor S) :
  _recv_message loads connection = (c1, Ok message) ->
  req_type message ∉ ["closed"; "started"; "succeeded"; "failed"; "apply_tracked_changes"] ->
  let error := invalid_request_type (req_type message) in
  let answer := Response (wrap_if_needed (Some error)) in
  let served := serve loads dumps wrap_if_needed get_exception_as_string
                  (Ok connection) self in
  (N.of_nat (length (dumps answer)) < 2 ^ 32)%N ->
  served.1.1 = self /\
  served.2 = Raise error /\
  exists c' header,
    served.1.2 = Some c' /\ closed c' = true /\ length header = 4 /\
    sent c' = sent connection ++ header ++ dumps answer.
Proof.
  intros Hrecv Hunknown error answer served Hlen.
  pose proof (dispatch_unknown_type wrap_if_needed get_exception_as_string self message
                Hunknown) as Hdispatch.
  destruct (serve_decoded loads dumps wrap_if_needed get_exception_as_string
              connection c1 message self Hrecv) as (header & _ & Hheader & Hserve).
  { by rewrite Hdispatch. }
  subst served. rewrite Hserve, Hdispatch. simpl.
  split; [done |]. split; [done |]. eexists _, header.
  split; [done |]. simpl. split; [done |]. split; [done |].
  destruct (_recv_message_spec loads connection) as (_ & Hsent & _).
  rewrite Hrecv in Hsent. simpl in Hsent. by rewrite Hsent.
Qed.

Lemma unknown_request_type_is_answered_with_an_error_witness :
  let accepted := Connection (frame "bogus") [1; 0; 4] [] false in
  let served := serve (loads_request0 []) dumps_response0 wrap0 "" (Ok accepted) executor0 in
  served.1.1 = executor0 /\
  served.2 = Raise (Exn "RuntimeError" "Invalid request type: bogus") /\
  exists c', served.1.2 = Some c' /\ closed c' = true.
Proof.
  intros accepted served.
  pose (c1 := (_recv_message (loads_request0 []) accepted).1).
  destruct (unknown_request_type_is_answered_with_an_error (loads_request0 [])
              dumps_response0 wrap0 "" accepted c1
              (Request "bogus" (Some "t1") None "" [] []) executor0)
    as (Hself & Hr & c' & header & Hc' & Hclosed & _);
    [vm_compute; reflexivity | compute_done | vm_compute; reflexivity |].
  split; [exact Hself |]. split; [exact Hr |]. by exists c'.
Defined.

(** X11. A flush from the worker, end to end. The worker's messenger sends
    [apply_tracked_changes] for a registered task, the listener serves the
    connection, and each side reads what the other wrote. With a codec that
    reads back what it writes (and frames shorter than 2^32 bytes), the
    parent applies the diff and keeps the task registered, and the call in
    the worker raises the (wrapped) exception of the applier when the
    applier raised and returns normally when it did not. *)
Theorem worker_flush_raises_what_the_applier_raised
    {S : Type} `{!Storage S}
    (dumps_request : request -> list byte) (loads_request : list byte -> result request)
    (dumps_response : response -> list byte) (loads_response : list byte -> result response)
    (wrap_if_needed : option exn -> option exn)
    (worker_traceback parent_traceback : string)
    (messenger : _Messenger) (net : network) (sock accepted : connection)
    (tracked_changes : tracked_changes_items) (new_instances : new_instances_items)
    (self : ProcessExecutor S) (task_id : string) (task : Task) :
  let request := Request "apply_tracked_changes" (Process.task_id messenger)
                   (wrap_if_needed None) worker_traceback tracked_changes new_instances in
  let applied := apply_tracked_changes tracked_changes new_instances (model self) in
  let answer := Response match applied.2 with
                         | Ok _ => None
                         | Raise e => wrap_if_needed (Some e)
                         end in
  let served := serve loads_request dumps_response wrap_if_needed parent_traceback
                  (Ok accepted) self in
  let flushed := apply_tracked_changes_message dumps_request loads_response wrap_if_needed
                   worker_traceback messenger net (Some tracked_changes)
                   (Some new_instances) in
  loads_request (dumps_request request) = Ok request ->
  loads_response (dumps_response answer) = Ok answer ->
  (N.of_nat (length (dumps_request request)) < 2 ^ 32)%N ->
  (N.of_nat (length (dumps_response answer)) < 2 ^ 32)%N ->
  Process.task_id messenger = Some task_id ->
  _tasks self !! task_id = Some task ->
  net (port messenger) = Ok sock ->
  pending accepted = written sock (_send_message dumps_request sock request).1 ->
  pending sock = from_option (written accepted) [] served.1.2 ->
  flushed.2 = match resp_exception answer with
              | Some e => Raise e
              | None => Ok tt
              end /\
  (exists sock', flushed.1 = Some sock' /\ closed sock' = true) /\
  served.2 = Ok Continue /\
  _tasks served.1.1 = _tasks self /\
  model served.1.1 = store applied.1.
Proof.
  intros request applied answer served flushed Hcodec_req Hcodec_resp Hsize_req Hsize_resp
    Hid Htask Hnet Hto_parent Hto_worker.
  (* the worker writes the request *)
  destruct (_send_message_writes_frame dumps_request sock request Hsize_req)
    as (header & _ & Hheader & Hunpack & Hsend).
  rewrite Hsend in Hto_parent. unfold written in Hto_parent. simpl in Hto_parent.
  rewrite drop_app_length in Hto_parent.
  (* the parent reads it *)
  destruct (_recv_message_frame loads_request accepted header (dumps_request request) [])
    as (c1 & Hrecv & Hc1 & Hsent1 & _); [by rewrite app_nil_r | done | done |].
  rewrite Hcodec_req in Hrecv.
  (* and dispatches it to the handler *)
  assert (dispatch wrap_if_needed parent_traceback self request
          = ((_handle_apply_tracked_changes_request wrap_if_needed self task_id request).1,
             answer, Ok Continue)) as Hdispatch.
  { unfold dispatch. simpl. rewrite Hid. simpl.
    destruct (_handle_apply_tracked_changes_request_registered wrap_if_needed self
                task_id task request Htask) as (Hresp & _).
    destruct (_handle_apply_tracked_changes_request _ _ _ _) as [self' r]. simpl in *.
    by rewrite Hresp. }
  destruct (serve_decoded loads_request dumps_response wrap_if_needed parent_traceback
              accepted c1 request self Hrecv) as (header' & Hunpack' & Hheader' & Hserve).
  { by rewrite Hdispatch. }
  subst served. rewrite Hserve in Hto_worker |- *.
  rewrite Hdispatch in Hto_worker |- *. simpl in Hto_worker |- *.
  unfold written in Hto_worker. simpl in Hto_worker.
  rewrite Hsent1, drop_app_length in Hto_worker.
  destruct (_handle_apply_tracked_changes_request_registered wrap_if_needed self
              task_id task request Htask) as (_ & Htasks & Hmodel & _).
  (* the worker reads the answer *)
  subst flushed. unfold apply_tracked_changes_message, _Messenger_send_message.
  rewrite Hnet. simpl. fold request. rewrite Hsend.
  destruct (_recv_message_frame loads_response
              (Connection (pending sock) (schedule sock)
                 (sent sock ++ header ++ dumps_request request) (closed sock))
              header' (dumps_response answer) [])
    as (c2 & Hrecv2 & _).
  { simpl. by rewrite app_nil_r. }
  { done. }
  { by rewrite Hdispatch in Hunpack'. }
  rewrite Hrecv2, Hcodec_resp. cbv beta iota zeta.
  destruct (resp_exception answer) eqn:Hex; cbn [fst snd]; simpl in Hex; rewrite Hex.
  all: split; [done |]. all: split; [eexists; split; reflexivity |].
  all: split; [done |]. all: split; [done |]. all: exact Hmodel.
Qed.

Lemma worker_flush_raises_what_the_applier_raised_witness :
  let messenger := Messenger (Some "t1") 5000 in
  let answers (payload : string) : network :=
    fun _ => Ok (Connection (frame payload) [0; 5] [] false) in
  let flush id payload :=
    apply_tracked_changes_message dumps0 loads0 wrap0 "" messenger (answers payload)
      (Some (state_change id)) (Some []) in
  (flush 9%Z "{'exception': ...}").2 = Raise boom /\ (flush 1%Z "{}").2 = Ok tt.
Proof.
  intros messenger answers flush.
  pose (accepted := Connection (frame "apply_tracked_changes") [2; 0] [] false).
  destruct (worker_flush_raises_what_the_applier_raised dumps0
              (loads_request0 (state_change 9)) dumps_response0 loads0 wrap0 "" ""
              messenger (answers "{'exception': ...}")
              (Connection (frame "{'exception': ...}") [0; 5] [] false) accepted
              (state_change 9) [] executor0 "t1" (MkTask "t1")) as (Hraise & _);
    [vm_compute; reflexivity .. |].
  destruct (worker_flush_raises_what_the_applier_raised dumps0
              (loads_request0 (state_change 1)) dumps_response0 loads0 wrap0 "" ""
              messenger (answers "{}")
              (Connection (frame "{}") [0; 5] [] false) accepted
              (state_change 1) [] executor0 "t1" (MkTask "t1")) as (Hreturn & _);
    [vm_compute; reflexivity .. |].
  split; [etrans; [exact Hraise |] | etrans; [exact Hreturn |]]; vm_compute; reflexivity.
Defined.

(** *** What serving requests leaves alone *)

Section ServedWithin.
Context {S : Type} `{!Storage S}.
Context (loads : list byte -> result request) (dumps : response -> list byte).
Context (wrap_if_needed : option exn -> option exn) (get_exception_as_string : string).

Lemma served_within_refl (self : ProcessExecutor S) : served_within self self.
Proof. repeat split; try done. exists []. by rewrite app_nil_r. Qed.

Lemma served_within_trans (a b c : ProcessExecutor S) :
  served_within a b -> served_within b c -> served_within a c.
Proof.
  intros (H1 & H2 & H3 & H4 & H5 & H6 & r1 & H7) (G1 & G2 & G3 & G4 & G5 & G6 & r2 & G7).
  repeat split; try congruence.
  - by etrans.
  - exists (r1 ++ r2). by rewrite G7, H7, app_assoc.
Qed.

Lemma served_within_report (self : ProcessExecutor S) (ev : executor_event) :
  served_within self (report self ev).
Proof. repeat split; try done. by exists [ev]. Qed.

Lemma served_within__remove_task (self : ProcessExecutor S) (task_id : string) :
  served_within self (_remove_task self task_id).1.
Proof.
  unfold _remove_task. destruct (_tasks self !! task_id); [| apply served_within_refl].
  repeat split; try done.
  - apply delete_subseteq.
  - exists []. by rewrite app_nil_r.
Qed.

Lemma served_within__apply_tracked_changes (self : ProcessExecutor S) (task : Task)
    (request : request) :
  served_within self (_apply_tracked_changes self task request).1.
Proof.
  unfold _apply_tracked_changes. destruct (apply_tracked_changes _ _ _) as [st r].
  repeat split; try done. by eexists.
Qed.

Lemma served_within_started (self : ProcessExecutor S) (task_id : string) :
  served_within self (_handle_task_started_request self task_id).1.
Proof.
  unfold _handle_task_started_request. destruct (lookup_task self task_id).
  - apply served_within_report.
  - apply served_within_refl.
Qed.

Lemma served_within_succeeded (self : ProcessExecutor S) (task_id : string)
    (request : request) :
  served_within self (_handle_task_succeeded_request self task_id request).1.
Proof.
  unfold _handle_task_succeeded_request.
  pose proof (served_within__remove_task self task_id) as Hremove.
  destruct (_remove_task self task_id) as [self1 [task | e]]; [| done].
  pose proof (served_within__apply_tracked_changes self1 task request) as Happly.
  destruct (_apply_tracked_changes self1 task request) as [self2 [[] | e]]; simpl in *.
  all: eapply served_within_trans; [exact Hremove |].
  all: eapply served_within_trans; [exact Happly | apply served_within_report].
Qed.

Lemma served_within_failed (self : ProcessExecutor S) (task_id : string)
    (request : request) :
  served_within self
    (_handle_task_failed_request get_exception_as_string self task_id request).1.
Proof.
  unfold _handle_task_failed_request.
  pose proof (served_within__remove_task self task_id) as Hremove.
  destruct (_remove_task self task_id) as [self1 [task | e]]; [| done].
  pose proof (served_within__apply_tracked_changes self1 task request) as Happly.
  destruct (_apply_tracked_changes self1 task request) as [self2 [[] | e]]; simpl in *.
  all: eapply served_within_trans; [exact Hremove |].
  all: eapply served_within_trans; [exact Happly | apply served_within_report].
Qed.

Lemma served_within_apply (self : ProcessExecutor S) (task_id : string)
    (request : request) :
  served_within self
    (_handle_apply_tracked_changes_request wrap_if_needed self task_id request).1.
Proof.
  unfold _handle_apply_tracked_changes_request.
  destruct (lookup_task self task_id) as [task | e]; [| apply served_within_refl].
  pose proof (served_within__apply_tracked_changes self task request) as Happly.
  by destruct (_apply_tracked_changes self task request) as [self2 [[] | e]].
Qed.

Lemma served_within_dispatch (self : ProcessExecutor S) (message : request) :
  served_within self (dispatch wrap_if_needed get_exception_as_string self message).1.1.
Proof.
  unfold dispatch. cbv zeta.
  destruct (String.eqb _ "closed"); [apply served_within_refl |].
  destruct (String.eqb _ "started").
  { destruct (req_task_id message) as [task_id |]; simpl; [| apply served_within_refl].
    pose proof (served_within_started self task_id) as H.
    by destruct (_handle_task_started_request self task_id) as [? [[] | ?]]. }
  destruct (String.eqb _ "succeeded").
  { destruct (req_task_id message) as [task_id |]; simpl; [| apply served_within_refl].
    pose proof (served_within_succeeded self task_id message) as H.
    by destruct (_handle_task_succeeded_request self task_id message) as [? [[] | ?]]. }
  destruct (String.eqb _ "failed").
  { destruct (req_task_id message) as [task_id |]; simpl; [| apply served_within_refl].
    pose proof (served_within_failed self task_id message) as H.
    by destruct (_handle_task_failed_request _ self task_id message) as [? [[] | ?]]. }
  destruct (String.eqb _ "apply_tracked_changes"); [| apply served_within_refl].
  destruct (req_task_id message) as [task_id |]; simpl; [| apply served_within_refl].
  pose proof (served_within_apply self task_id message) as H.
  by destruct (_handle_apply_tracked_changes_request _ self task_id message) as [? [? | ?]].
Qed.

Lemma served_within_serve (accepted : result connection) (self : ProcessExecutor S) :
  served_within self
    (serve loads dumps wrap_if_needed get_exception_as_string accepted self).1.1.
Proof.
  unfold serve. destruct accepted as [connection | e]; [| apply served_within_refl].
  destruct (_recv_message loads connection) as [c1 [message | e]];
    [| apply served_within_refl].
  pose proof (served_within_dispatch self message) as H.
  destruct (dispatch _ _ self message) as [[self' response] r]. simpl in H.
  by destruct (_send_message dumps c1 _) as [c2 [[] | e]].
Qed.

Lemma served_within__listener (accepts : list (result connection))
    (self : ProcessExecutor S) :
  served_within self
    (_listener loads dumps wrap_if_needed get_exception_as_string accepts self).1.1.
Proof.
  revert self. induction accepts as [| accepted accepts IH]; intros self; simpl.
  - destruct (_stopped self); apply served_within_refl.
  - destruct (_stopped self); [apply served_within_refl |].
    pose proof (served_within_serve accepted self) as Hserve.
    destruct (serve _ _ _ _ accepted self) as [[self1 connection] [[] | e]];
      simpl in Hserve; [| done |].
    all: specialize (IH self1).
    all: destruct (_listener _ _ _ _ accepts self1) as [[self2 connections] logged].
    all: simpl in *; by eapply served_within_trans.
Qed.

End ServedWithin.

(** X12. However many connections the listener serves and whatever they
    carry, it never sets the stopped flag, never touches the executor's own
    messenger, its sockets or the join count, never registers a task or
    replaces a registered one (the registry only loses tasks), and never
    takes back what was reported. *)
Theorem listener_only_removes_tasks_and_adds_reports
    {S : Type} `{!Storage S}
    (loads : list byte -> result request) (dumps : response -> list byte)
    (wrap_if_needed : option exn -> option exn) (get_exception_as_string : string)
    (accepts : list (result connection)) (self : ProcessExecutor S) :
  let after := (_listener loads dumps wrap_if_needed get_exception_as_string
                  accepts self).1.1 in
  _stopped after = _stopped self /\
  _messenger after = _messenger self /\
  messenger_sockets after = messenger_sockets self /\
  _server_socket_closed after = _server_socket_closed self /\
  _listener_thread_joins after = _listener_thread_joins self /\
  (forall task_id task, _tasks after !! task_id = Some task ->
                        _tasks self !! task_id = Some task) /\
  exists reported, history after = history self ++ reported.
Proof.
  simpl.
  destruct (served_within__listener loads dumps wrap_if_needed get_exception_as_string
              accepts self) as (H1 & H2 & H3 & H4 & H5 & H6 & H7).
  do 5 (split; [done |]). split; [| done].
  intros task_id task Hafter. by eapply lookup_weaken.
Qed.

Lemma listener_only_removes_tasks_and_adds_reports_witness :
  let connection payload : result connection := Ok (Connection (frame payload) [] [] false) in
  let after := (_listener (loads_request0 (state_change 1)) dumps_response0 wrap0 ""
                  [connection "bogus"; connection "started"; Raise boom;
                   connection "succeeded"; connection "closed"; connection "started"]
                  executor0) in
  _stopped after.1.1 = false /\ _tasks after.1.1 = ∅ /\
  length after.1.2 = 5 /\ length after.2 = 2 /\
  head (history after.1.1) = Some (TaskStarted (MkTask "t1")) /\
  last (history after.1.1) = Some (TaskSucceeded (MkTask "t1")) /\
  length (history after.1.1) = 3.
Proof.
  intros connection after.
  destruct (listener_only_removes_tasks_and_adds_reports
              (loads_request0 (state_change 1)) dumps_response0 wrap0 ""
              [connection "bogus"; connection "started"; Raise boom;
               connection "succeeded"; connection "closed"; connection "started"]
              executor0) as (Hstopped & _).
  split; [exact Hstopped |]. split; [vm_compute; reflexivity |].
  split; [vm_compute; reflexivity |]. split; [vm_compute; reflexivity |].
  split; [vm_compute; reflexivity |]. split; vm_compute; reflexivity.
Defined.

Section ConnectionProperties.
Context {S : Type} `{!Storage S}.
Context (loads : list byte -> result request) (dumps : response -> list byte).
Context (wrap_if_needed : option exn -> option exn) (get_exception_as_string : string).

Lemma serve_releases (accepted : result connection) (self : ProcessExecutor S) :
  released (serve loads dumps wrap_if_needed get_exception_as_string accepted self).1.2 /\
  ((serve loads dumps wrap_if_needed get_exception_as_string accepted self).1.2 = None <->
   exists e, accepted = Raise e).
Proof.
  unfold serve. destruct accepted as [connection | e].
  2:{ simpl. split; [done |]. split; [intros _; by exists e | done]. }
  destruct (_recv_message loads connection) as [c1 [message | e]]; simpl.
  - destruct (dispatch _ _ _ _) as [[self' response] r].
    destruct (_send_message dumps c1 _) as [c2 [[] | e]]; simpl;
      (split; [done | split; [done | by intros [? ?]]]).
  - split; [done | split; [done | by intros [? ?]]].
Qed.

End ConnectionProperties.

(** X13. The listener leaks no connection: every connection it accepted
    is closed when its round is over, whether the request could be read or
    not, whatever the handler did and whether the answer could be written
    (an entry is [None] exactly where [accept()] itself raised); it serves
    the accepts in order, at most one round each, and logs at most one error
    for a round; a stopped executor serves nothing. *)
Theorem listener_closes_every_connection_it_accepted
    {S : Type} `{!Storage S}
    (loads : list byte -> result request) (dumps : response -> list byte)
    (wrap_if_needed : option exn -> option exn) (get_exception_as_string : string)
    (accepts : list (result connection)) (self : ProcessExecutor S) :
  let run := _listener loads dumps wrap_if_needed get_exception_as_string accepts self in
  Forall released run.1.2 /\
  Forall2 (fun served accepted => served = None <-> exists e, accepted = Raise e)
    run.1.2 (take (length run.1.2) accepts) /\
  length run.2 <= length run.1.2 /\
  (_stopped self = true -> run = (self, [], [])).
Proof.
  simpl. revert self. induction accepts as [| accepted accepts IH]; intros self.
  - simpl. destruct (_stopped self); simpl; by repeat split.
  - simpl. destruct (_stopped self) eqn:Hstopped; [simpl; by repeat split |].
    destruct (serve_releases loads dumps wrap_if_needed get_exception_as_string
                accepted self) as [Hreleased Hnone].
    destruct (serve _ _ _ _ accepted self) as [[self1 served] [[] | e]]; simpl in *.
    + destruct (IH self1) as (IH1 & IH2 & IH3 & _).
      destruct (_listener _ _ _ _ accepts self1) as [[self2 connections] logged].
      simpl in *. split; [by constructor |]. split; [by constructor |].
      split; [lia | done].
    + split; [by repeat constructor |]. split; [| split; [lia | done]].
      rewrite take_0. constructor; [exact Hnone | constructor].
    + destruct (IH self1) as (IH1 & IH2 & IH3 & _).
      destruct (_listener _ _ _ _ accepts self1) as [[self2 connections] logged].
      simpl in *. split; [by constructor |]. split; [by constructor |].
      split; [lia | done].
Qed.

(** ** The worker side *)

(** *** New instances in the worker *)

Lemma temp_id_inj (a b : nat) : temp_id a = temp_id b -> a = b.
Proof.
  unfold temp_id, _NEW_INSTANCE. intros H. injection H as H.
  change (pretty a = pretty b) in H. by apply (inj pretty) in H.
Qed.

Lemma new_instance_entry_insert (self : _Instrumentation) (m tmp : string) (kw : kwargs)
    (tc : gmap string (gmap Z (gmap string tracked))) (queue : list entity)
    (m' tmp' : string) :
  new_instance_entry
    (Instr tc (<[m := <[tmp := kw]> (default ∅ (new_instances_as_dict self !! m))]>
                 (new_instances_as_dict self)) queue) m' tmp'
  = if decide (m' = m /\ tmp' = tmp) then Some kw else new_instance_entry self m' tmp'.
Proof.
  unfold new_instance_entry. simpl. case_decide as Hcase.
  - destruct Hcase as [-> ->]. rewrite lookup_insert_eq. simpl. apply lookup_insert_eq.
  - destruct (decide (m' = m)) as [-> | Hm].
    + rewrite lookup_insert_eq. simpl. rewrite lookup_insert_ne by naive_solver.
      destruct (new_instances_as_dict self !! m); simpl; [done | apply lookup_empty].
    + by rewrite lookup_insert_ne.
Qed.

Lemma new_instance_listener_unfold (self : _Instrumentation) (instance : entity) :
  let m := __modelname__ instance in
  let tmp := temp_id (S (length (_instances_to_expunge self))) in
  let tracked_instances := default ∅ (new_instances_as_dict self !! m) in
  new_instance_listener self instance
  = Instr (tracked_changes self)
      (<[m := <[tmp := __dict__ instance ∪ default ∅ (tracked_instances !! tmp)]>
                tracked_instances]> (new_instances_as_dict self))
      (_instances_to_expunge self ++ [instance]).
Proof.
  unfold new_instance_listener, _new_instance_id, temp_id. simpl.
  by rewrite length_app, Nat.add_1_r.
Qed.


Lemma new_instance_listener_records (self : _Instrumentation) (queue : list entity)
    (instance : entity) :
  records_exactly self queue ->
  records_exactly (new_instance_listener self instance) (queue ++ [instance]) /\
  tracked_changes (new_instance_listener self instance) = tracked_changes self.
Proof.
  intros [Hqueue Hentries]. rewrite new_instance_listener_unfold. cbv zeta.
  split; [| done]. split; [simpl; by rewrite Hqueue |].
  assert (new_instance_entry self (__modelname__ instance) (temp_id (S (length queue)))
          = None) as Hfresh.
  { destruct (new_instance_entry self _ _) as [kw |] eqn:Hkw; [| done].
    apply Hentries in Hkw as (k & i & Hk & _ & Hid & _).
    apply temp_id_inj in Hid. apply lookup_lt_Some in Hk. lia. }
  intros m tmp kw. rewrite Hqueue.
  assert (default ∅ (default ∅ (new_instances_as_dict self !! __modelname__ instance)
                       !! temp_id (S (length queue))) = (∅ : kwargs)) as ->.
  { unfold new_instance_entry in Hfresh.
    destruct (new_instances_as_dict self !! __modelname__ instance) as [d |]; simpl in *.
    - by rewrite Hfresh.
    - by rewrite lookup_empty. }
  rewrite (right_id_L ∅ (∪)). rewrite new_instance_entry_insert. case_decide as Hcase.
  - destruct Hcase as [-> ->]. split.
    + intros [= <-]. exists (length queue), instance.
      by rewrite lookup_app_r, Nat.sub_diag by done.
    + intros (k & i & Hk & Hm & Hid & ->). apply temp_id_inj in Hid. injection Hid as <-.
      rewrite lookup_app_r, Nat.sub_diag in Hk by done. by injection Hk as ->.
  - rewrite Hentries. split.
    + intros (k & i & Hk & ? & ? & ?). exists k, i. by rewrite lookup_app_l
        by (by eapply lookup_lt_Some).
    + intros (k & i & Hk & Hm & Hid & Hkw).
      destruct (decide (k < length queue)) as [Hlt | Hge].
      * exists k, i. by rewrite lookup_app_l in Hk.
      * rewrite lookup_app_r in Hk by lia.
        destruct (k - length queue) as [| n] eqn:Hn; simpl in Hk; [| done].
        injection Hk as ->. assert (k = length queue) as -> by lia. by destruct Hcase.
Qed.

Lemma attached_records (instances : list entity) :
  forall (self : _Instrumentation) (queue : list entity),
  records_exactly self queue ->
  records_exactly (foldl new_instance_listener self instances) (queue ++ instances) /\
  tracked_changes (foldl new_instance_listener self instances) = tracked_changes self.
Proof.
  induction instances as [| instance instances IH]; intros self queue Hself; simpl.
  - by rewrite app_nil_r.
  - destruct (new_instance_listener_records self queue instance Hself) as [Hstep Htc].
    destruct (IH _ _ Hstep) as [Hrest Htc']. rewrite <- app_assoc in Hrest.
    split; [done | congruence].
Qed.

(** X14. Starting from a context that holds no new instance (as
    [__init__] and [clear] leave it), the instances attached to the session
    are queued for expunge in the order they came, and the k-th of them is
    recorded under its model name with the id [NEW_INSTANCE_k] and its own
    field map: no instance takes the id, or overwrites the record, of
    another, and nothing else is recorded. The tracked changes are left
    alone. *)
Theorem attached_instances_are_recorded_under_successive_ids
    (self : _Instrumentation) (instances : list entity) :
  new_instances_as_dict self = ∅ ->
  _instances_to_expunge self = [] ->
  let after := foldl new_instance_listener self instances in
  _instances_to_expunge after = instances /\
  (forall k instance, instances !! k = Some instance ->
     new_instance_entry after (__modelname__ instance) (temp_id (S k))
     = Some (__dict__ instance)) /\
  (forall m tmp kw, new_instance_entry after m tmp = Some kw ->
     exists k instance, instances !! k = Some instance /\ m = __modelname__ instance /\
                        tmp = temp_id (S k) /\ kw = __dict__ instance) /\
  tracked_changes after = tracked_changes self.
Proof.
  intros Hnone Hqueue.
  assert (records_exactly self []) as Hself.
  { split; [done |]. intros m tmp kw. unfold new_instance_entry. rewrite Hnone.
    rewrite lookup_empty. simpl. split; [done |]. by intros (k & i & Hk & _). }
  destruct (attached_records instances self [] Hself) as [[Hq Hentries] Htc].
  simpl in *. split; [done |]. split; [| split; [| done]].
  - intros k instance Hk. apply Hentries. by exists k, instance.
  - intros m tmp kw Hkw. by apply Hentries.
Qed.

Lemma attached_instances_are_recorded_under_successive_ids_witness :
  let log1 := Entity "log" 0 {[ "msg" := PStr "one" ]} in
  let log2 := Entity "log" 0 {[ "msg" := PStr "two" ]} in
  let event := Entity "event" 0 {[ "kind" := PStr "x" ]} in
  let after := foldl new_instance_listener (clear empty_instrumentation None)
                 [log1; event; log2] in
  new_instances_as_dict after
  = {[ "log" := {[ "NEW_INSTANCE_1" := __dict__ log1; "NEW_INSTANCE_3" := __dict__ log2 ]};
       "event" := {[ "NEW_INSTANCE_2" := __dict__ event ]} ]} /\
  new_instance_entry after "log" (temp_id 3) = Some (__dict__ log2).
Proof.
  intros log1 log2 event after.
  destruct (attached_instances_are_recorded_under_successive_ids
              (clear empty_instrumentation None) [log1; event; log2] eq_refl eq_refl)
    as (_ & Hrecorded & _).
  split; [vm_compute; reflexivity |]. exact (Hrecorded 2 log2 eq_refl).
Defined.

(** *** Collections *)


Lemma append_listener_collection (key : string) (self : _Instrumentation)
    (target value : entity) (collection : list kwargs) :
  tracked_attributes_of self (__modelname__ target) (entity_id target) !! key
  = Some (Appended collection) ->
  (append_listener key self target value).2 = Ok tt /\
  tracked_attributes_of (append_listener key self target value).1
    (__modelname__ target) (entity_id target)
  = <[key := Appended (collection ++ [serialize_member value])]>
      (tracked_attributes_of self (__modelname__ target) (entity_id target)).
Proof.
  intros H. unfold append_listener. rewrite H. simpl.
  by rewrite tracked_attributes_of_set.
Qed.

Lemma append_listener_first (key : string) (self : _Instrumentation)
    (target value : entity) :
  tracked_attributes_of self (__modelname__ target) (entity_id target) !! key = None ->
  (append_listener key self target value).2 = Ok tt /\
  tracked_attributes_of (append_listener key self target value).1
    (__modelname__ target) (entity_id target)
  = <[key := Appended [serialize_member value]]>
      (tracked_attributes_of self (__modelname__ target) (entity_id target)).
Proof.
  intros H. unfold append_listener. rewrite H. simpl.
  by rewrite tracked_attributes_of_set.
Qed.

Lemma append_all_collection (key : string) (target : entity) (members : list entity) :
  forall (self : _Instrumentation) (collection : list kwargs),
  tracked_attributes_of self (__modelname__ target) (entity_id target) !! key
  = Some (Appended collection) ->
  tracked_attributes_of (append_all key target self members)
    (__modelname__ target) (entity_id target)
  = <[key := Appended (collection ++ (serialize_member <$> members))]>
      (tracked_attributes_of self (__modelname__ target) (entity_id target)).
Proof.
  induction members as [| value members IH]; intros self collection H; simpl.
  - rewrite app_nil_r. by rewrite insert_id.
  - destruct (append_listener_collection key self target value collection H) as [_ Hstep].
    rewrite (IH _ (collection ++ [serialize_member value])).
    + rewrite Hstep, insert_insert_eq. by rewrite <- app_assoc.
    + rewrite Hstep. apply lookup_insert_eq.
Qed.

(** X15. The append listener keeps the members of a collection in the
    order they were appended: after the members [value :: members] were
    appended to an attribute of an entity, the entry of that attribute is
    the list it held before (none, if it was not tracked) followed by the
    serialized members in that order, each tagged with its model name, and
    the other attributes of the entity are tracked as before. On an
    attribute tracked as a scalar the listener raises [AttributeError] and
    leaves the tracked value. *)
Theorem appended_members_are_tracked_in_order
    (key : string) (self : _Instrumentation) (target value : entity)
    (members : list entity) :
  let before := tracked_attributes_of self (__modelname__ target) (entity_id target) in
  let after := tracked_attributes_of (append_all key target self (value :: members))
                 (__modelname__ target) (entity_id target) in
  match before !! key with
  | Some (Scalar v) =>
      (append_listener key self target value).2 = Raise (AttributeError "append") /\
      tracked_attributes_of (append_listener key self target value).1
        (__modelname__ target) (entity_id target) = before
  | Some (Appended collection) =>
      after = <[key := Appended (collection ++ (serialize_member <$> value :: members))]>
                before
  | None => after = <[key := Appended (serialize_member <$> value :: members)]> before
  end.
Proof.
  simpl.
  destruct (tracked_attributes_of self _ _ !! key) as [[v | collection] |] eqn:Hkey.
  - unfold append_listener. rewrite Hkey. simpl. by rewrite tracked_attributes_of_set.
  - by apply (append_all_collection key target (value :: members)).
  - destruct (append_listener_first key self target value Hkey) as [_ Hstep].
    rewrite (append_all_collection key target members _ [serialize_member value]).
    + by rewrite Hstep, insert_insert_eq.
    + rewrite Hstep. apply lookup_insert_eq.
Qed.

Lemma appended_members_are_tracked_in_order_witness :
  let a := Entity "attribute" 0 {[ "name" := PStr "a" ]} in
  let b := Entity "attribute" 0 {[ "name" := PStr "b" ]} in
  let c := Entity "attribute" 0 {[ "name" := PStr "c" ]} in
  tracked_attributes_of
    (append_all "attributes" node1_entity empty_instrumentation [a; b; c]) "node" 1
  = {[ "attributes" := Appended [serialize_member a; serialize_member b;
                                 serialize_member c] ]}.
Proof.
  intros a b c.
  pose proof (appended_members_are_tracked_in_order "attributes" empty_instrumentation
                node1_entity a [b; c]) as H.
  vm_compute in H. vm_compute. exact H.
Defined.

(** *** Refresh *)

Lemma tracked_entry_clear (self : _Instrumentation) (target : entity) :
  tracked_entry (clear self (Some target)) (__modelname__ target) (entity_id target) = None.
Proof.
  unfold tracked_entry, clear. simpl. rewrite lookup_insert_eq. simpl.
  apply lookup_delete_eq.
Qed.

Lemma tracked_entry_clear_ne (self : _Instrumentation) (target : entity)
    (m : string) (i : Z) :
  (m, i) <> (__modelname__ target, entity_id target) ->
  tracked_entry (clear self (Some target)) m i = tracked_entry self m i.
Proof.
  intros Hne. unfold tracked_entry, clear. simpl.
  destruct (decide (__modelname__ target = m)) as [<- | Hm].
  - rewrite lookup_insert_eq. simpl. rewrite lookup_delete_ne by congruence.
    destruct (tracked_changes self !! __modelname__ target); simpl;
      [done | apply lookup_empty].
  - by rewrite lookup_insert_ne.
Qed.

(** X16. The patched [session.refresh] of an instrumented entity forgets
    what the worker did to that entity and tracks it anew from the database:
    for a registry with distinct attribute names and a reloaded entity that
    carries them (with values their coercions accept), the refresh returns
    normally, and afterwards every instrumented attribute of the target is
    tracked as [_Value(reloaded value, coerced copy)] (a value assigned
    before the refresh, tracked with the sentinel as [initial], is gone) and
    the entity holds the coerced copy; the version is tracked as
    [_Value(_STUB, reloaded version)]; nothing else is tracked for the
    target (collection members appended before are dropped); and the
    entries of every other entity are as they were. *)
Theorem refresh_tracks_the_target_anew
    (reload : entity -> entity) (attrs : list (string * attribute_type))
    (self : _Instrumentation) (target : entity) :
  entity_id (reload target) = entity_id target ->
  NoDup attrs.*1 ->
  (forall a ty, (a, ty) ∈ attrs ->
     exists x c, __dict__ (reload target) !! a = Some x /\ is_coerced_copy ty x c) ->
  exists self' target',
    patched_refresh reload (Some (__modelname__ target, attrs)) self target
    = ((self', target'), Ok tt) /\
    let after := tracked_attributes_of self' (__modelname__ target) (entity_id target) in
    (forall a ty, (a, ty) ∈ attrs ->
       a <> _VERSION_ID_COL \/ __dict__ (reload target) !! _VERSION_ID_COL = None ->
       exists x c, __dict__ (reload target) !! a = Some x /\ is_coerced_copy ty x c /\
                   after !! a = Some (Scalar (Value x c)) /\
                   __dict__ target' !! a = Some c) /\
    (forall version, __dict__ (reload target) !! _VERSION_ID_COL = Some version ->
       after !! _VERSION_ID_COL = Some (Scalar (Value PStub version))) /\
    (forall a, a ∉ attrs.*1 -> a <> _VERSION_ID_COL -> after !! a = None) /\
    (forall m i, (m, i) <> (__modelname__ target, entity_id target) ->
       tracked_entry self' m i = tracked_entry self m i).
Proof.
  intros Hid Hnodup Hcarries.
  set (cleared := clear self (Some target)).
  assert (tracked_attributes_of cleared (__modelname__ target) (entity_id target) = ∅)
    as Hcleared.
  { rewrite tracked_attributes_of_entry. unfold cleared. by rewrite tracked_entry_clear. }
  set (at_loop := capture_version (reload target) ∅).
  destruct (track_attributes_spec attrs (reload target) at_loop Hnodup)
    as (target' & ta' & Hrun & _ & _ & Hkeep & Hout & Hin).
  { intros a ty Ha _. destruct (Hcarries a ty Ha) as (x & c & Hx & Hc).
    exists x, c. by rewrite coerced_copy_Ok. }
  { intros a ty t Ha Hsome. unfold at_loop, capture_version in Hsome.
    destruct (__dict__ (reload target) !! _VERSION_ID_COL) as [version |].
    - rewrite lookup_empty in Hsome.
      apply lookup_insert_Some in Hsome as [[_ <-] | [_ Hsome]]; [eauto |].
      by rewrite lookup_empty in Hsome.
    - by rewrite lookup_empty in Hsome. }
  exists (set_tracked_attributes cleared (__modelname__ target) (entity_id target) ta'),
    target'.
  split.
  { unfold patched_refresh, original_refresh, instance_listener. fold cleared.
    rewrite Hid, Hcleared. fold at_loop. by rewrite Hrun. }
  simpl. rewrite tracked_attributes_of_set.
  split; [| split; [| split]].
  - intros a ty Ha Hcase. destruct (Hin a ty Ha) as [Hnew Hcur].
    destruct Hnew as (x & c & Hx & Hc & Hrec).
    { apply capture_version_lookup_None. split; [apply lookup_empty | done]. }
    exists x, c. split; [done |]. split; [by apply coerced_copy_Ok |].
    split; [done |]. destruct Hcur as (v & Hv & Hd). rewrite Hrec in Hv.
    by injection Hv as <-.
  - intros version Hv. apply Hkeep. unfold at_loop, capture_version.
    rewrite Hv, lookup_empty. apply lookup_insert_eq.
  - intros a Ha Hne. destruct (Hout a Ha) as [-> _].
    apply capture_version_lookup_None. split; [apply lookup_empty | by left].
  - intros m i Hne. rewrite tracked_entry_set_ne by done.
    by apply tracked_entry_clear_ne.
Qed.

Lemma refresh_tracks_the_target_anew_witness :
  let reload := fun e : entity =>
    Entity (__modelname__ e) (entity_id e) {[ "state" := PStr "stored"; "version" := PInt 4 ]} in
  let node2 := Entity "node" 2 {[ "state" := PStr "b" ]} in
  let written :=
    (append_listener "attributes"
       (set_attribute_listener "state" str
          (set_attribute_listener "state" str empty_instrumentation node2 (PStr "y")).1
          node1_entity (PStr "x")).1
       node1_entity node2).1 in
  let refreshed := patched_refresh reload (Some ("node", [("state", str)])) written
                     node1_entity in
  tracked_attributes_of written "node" 1 !! "state" = Some (Scalar (Value PStub (PStr "x"))) /\
  refreshed.2 = Ok tt /\
  tracked_attributes_of refreshed.1.1 "node" 1
  = {[ "state" := Scalar (Value (PStr "stored") (PStr "stored"));
       "version" := Scalar (Value PStub (PInt 4)) ]} /\
  tracked_attributes_of refreshed.1.1 "node" 2 !! "state"
  = Some (Scalar (Value PStub (PStr "y"))).
Proof.
  intros reload node2 written refreshed.
  destruct (refresh_tracks_the_target_anew reload [("state", str)] written node1_entity)
    as (self' & target' & Hrun & Hattrs & Hversion & Hnone & Hothers).
  { reflexivity. }
  { compute_done. }
  { intros a ty Ha. apply list_elem_of_singleton in Ha. injection Ha as -> ->.
    exists (PStr "stored"), (PStr "stored"). split; [reflexivity |]. right.
    split; [discriminate |]. by exists (PStr "stored"). }
  split; [vm_compute; reflexivity |].
  subst refreshed. change (__modelname__ node1_entity) with "node" in Hrun.
  rewrite Hrun. split; [done |]. split.
  - apply map_eq. intros a.
    destruct (decide (a = "state")) as [-> | Hstate].
    { destruct (Hattrs "state" str) as (x & c & Hx & Hc & Hrec & _);
        [apply list_elem_of_singleton; reflexivity | by left |].
      vm_compute in Hx. injection Hx as <-.
      destruct Hc as [[? _] | (_ & v & Hv & ->)]; [done |]. injection Hv as <-.
      etrans; [exact Hrec | reflexivity]. }
    destruct (decide (a = "version")) as [-> | Hv].
    { etrans; [exact (Hversion (PInt 4) eq_refl) | reflexivity]. }
    etrans; [apply (Hnone a) |].
    + intros Hin. apply list_elem_of_singleton in Hin. simpl in Hin. congruence.
    + done.
    + rewrite lookup_insert_ne by done. by rewrite lookup_singleton_ne.
  - cbn [fst snd]. rewrite tracked_attributes_of_entry.
    rewrite (Hothers "node" 2%Z) by discriminate.
    vm_compute; reflexivity.
Defined.

(** ** More on the applier *)

(** *** Collections in the parent *)

Lemma append_item_serialized {S : Type} `{!Storage S}
    (mapi_name : string) (instance_id : Z) (attribute_name : string)
    (instance : Instance) (value : entity) (child : Instance) (st : state S) :
  __dict__ value !! "_MODEL_CLS" = None ->
  has_mapi (store st) (__modelname__ value) = true ->
  model_cls (store st) (__modelname__ value) (__dict__ value) = Ok child ->
  append_item mapi_name instance_id attribute_name instance (serialize_member value) st
  = (State (store st)
       (trace st ++ [EvConstruct (__modelname__ value) (__dict__ value);
                     EvAppend mapi_name instance_id attribute_name child])
       (new_instances st) (successfully_updated_changes st),
     Ok (collection_add instance attribute_name child)).
Proof.
  intros Htag Hmapi Hcls. unfold append_item, serialize_member.
  rewrite lookup_insert_eq, delete_insert_id by done.
  unfold mbind, M_bind, getattr_model. rewrite Hmapi.
  unfold note, call. simpl. rewrite Hcls. simpl.
  by rewrite <- app_assoc.
Qed.

(** X17. A collection entry that the worker's append listener built is
    applied member by member, in the order of the appends: for a member
    whose fields do not use the name [_MODEL_CLS], the parent constructs the
    child through the mapi of the member's model from exactly the member's
    fields (the tag taken out again) and adds it to the collection of the
    fetched instance; the storage itself is not written by this. *)
Theorem appended_members_are_rebuilt_from_their_fields
    {S : Type} `{!Storage S}
    (mapi_name : string) (instance_id : Z) (attribute_name : string)
    (members : list entity) (children : list Instance)
    (instance : Instance) (st : state S) :
  Forall2 (fun value child =>
             __dict__ value !! "_MODEL_CLS" = None /\
             has_mapi (store st) (__modelname__ value) = true /\
             model_cls (store st) (__modelname__ value) (__dict__ value) = Ok child)
    members children ->
  apply_attribute mapi_name instance_id (Some instance)
    (attribute_name, Appended (serialize_member <$> members)) st
  = (State (store st)
       (trace st ++ rebuilt_calls mapi_name instance_id attribute_name members children)
       (new_instances st) (successfully_updated_changes st),
     Ok (Some (with_members instance attribute_name children))).
Proof.
  intros Hall.
  assert (fold_each (append_item mapi_name instance_id attribute_name) instance
            (serialize_member <$> members) st
          = (State (store st)
               (trace st ++ rebuilt_calls mapi_name instance_id attribute_name
                              members children)
               (new_instances st) (successfully_updated_changes st),
             Ok (with_members instance attribute_name children))) as Hfold.
  { revert children instance st Hall.
    induction members as [| value members IH]; intros children instance st Hall.
    - apply Forall2_nil_inv_l in Hall as ->. simpl. rewrite app_nil_r. by destruct st.
    - apply Forall2_cons_inv_l in Hall as (child & rest & (Htag & Hmapi & Hcls) & Hall & ->).
      simpl. unfold mbind at 1, M_bind at 1.
      rewrite (append_item_serialized _ _ _ _ _ child st Htag Hmapi Hcls).
      rewrite (IH rest) by done. simpl. unfold rebuilt_calls. simpl.
      by rewrite <- app_assoc. }
  unfold apply_attribute. unfold mbind, M_bind. simpl.
  unfold mbind, M_bind in Hfold. by rewrite Hfold.
Qed.

Lemma appended_members_are_rebuilt_from_their_fields_witness :
  let a := Entity "node" 0 {[ "name" := PStr "a" ]} in
  let b := Entity "node" 0 {[ "name" := PStr "b" ]} in
  let st := State model0 [] [] ∅ in
  exists child_a child_b,
    model_cls model0 "node" {[ "name" := PStr "a" ]} = Ok child_a /\
    model_cls model0 "node" {[ "name" := PStr "b" ]} = Ok child_b /\
    (apply_attribute "node" 1 (Some node1)
       ("children", Appended [serialize_member a; serialize_member b]) st).2
    = Ok (Some (collection_add (collection_add node1 "children" child_a)
                  "children" child_b)).
Proof.
  intros a b st.
  destruct (model_cls model0 "node" {[ "name" := PStr "a" ]}) as [child_a |] eqn:Ha;
    [| vm_compute in Ha; discriminate].
  destruct (model_cls model0 "node" {[ "name" := PStr "b" ]}) as [child_b |] eqn:Hb;
    [| vm_compute in Hb; discriminate].
  exists child_a, child_b. split; [done |]. split; [done |].
  change [serialize_member a; serialize_member b] with (serialize_member <$> [a; b]).
  rewrite (appended_members_are_rebuilt_from_their_fields "node" 1 "children"
             [a; b] [child_a; child_b] node1 st); [done |].
  repeat constructor; try done.
Defined.

(** *** Rollback and logging *)

Section RollbackProperties.
Context {S : Type} `{!Storage S}.

Lemma stops_at_rollback_silent {A} (m : M (S := S) A) :
  (forall st, trace (m st).1 = trace st) -> stops_at_rollback m.
Proof.
  intros H st. exists []. rewrite H, app_nil_r. split; [done |].
  destruct (m st).2; simpl; [done |]. exists []. split; [done | by left].
Qed.

Lemma stops_at_rollback_ret {A} (a : A) : stops_at_rollback (mret a : M (S := S) A).
Proof. by apply stops_at_rollback_silent. Qed.

Lemma stops_at_rollback_raise {A} (e : exn) :
  stops_at_rollback (raise (S := S) e : M A).
Proof. by apply stops_at_rollback_silent. Qed.

Lemma stops_at_rollback_call {A} (ev : event) (op : S -> S * result A) :
  is_plain_call ev -> stops_at_rollback (call (S := S) ev op).
Proof.
  intros Hev st. exists [ev]. unfold call. destruct (op (store st)) as [s [a | e]]; simpl.
  - split; [done | by constructor].
  - split; [done |]. exists [ev]. split; [by constructor | by left].
Qed.

Lemma stops_at_rollback_bind {A B} (m : M (S := S) A) (f : A -> M (S := S) B) :
  stops_at_rollback m -> (forall a, stops_at_rollback (f a)) -> stops_at_rollback (m ≫= f).
Proof.
  intros Hm Hf st. unfold mbind, M_bind. destruct (Hm st) as (evs1 & H1 & Hend1).
  destruct (m st) as [st1 [a | e]]; simpl in *.
  - destruct (Hf a st1) as (evs2 & H2 & Hend2). exists (evs1 ++ evs2).
    rewrite H2, H1, app_assoc. split; [done |].
    destruct (f a st1).2 as [b | e]; simpl in *.
    + by apply Forall_app.
    + destruct Hend2 as (plain & Hplain & Hcase). exists (evs1 ++ plain).
      split; [by apply Forall_app |].
      destruct Hcase as [-> | [mapi_name ->]]; [by left | right].
      exists mapi_name. by rewrite app_assoc.
  - by exists evs1.
Qed.

Lemma stops_at_rollback_for_each {A} (body : A -> M (S := S) unit) (items : list A) :
  (forall x, stops_at_rollback (body x)) -> stops_at_rollback (for_each body items).
Proof.
  intros Hbody. induction items as [| x rest IH]; simpl.
  - apply stops_at_rollback_ret.
  - apply stops_at_rollback_bind; [apply Hbody | by intros _].
Qed.

Lemma stops_at_rollback_fold_each {A B} (body : B -> A -> M (S := S) B) (items : list A) :
  (forall acc x, stops_at_rollback (body acc x)) ->
  forall acc, stops_at_rollback (fold_each body acc items).
Proof.
  intros Hbody. induction items as [| x rest IH]; intros acc; simpl.
  - apply stops_at_rollback_ret.
  - apply stops_at_rollback_bind; [apply Hbody | apply IH].
Qed.

Local Ltac plain_call := apply stops_at_rollback_call; by split.
Local Ltac silent := apply stops_at_rollback_silent; intros ?; try done.
Local Ltac step := apply stops_at_rollback_bind; [| intros ?].

Lemma stops_at_rollback_getattr_model (m : string) :
  stops_at_rollback (getattr_model (S := S) m).
Proof. silent. unfold getattr_model. by destruct (has_mapi _ _). Qed.

Lemma stops_at_rollback_handle_new_instance (m : string) (entry : string * new_entry) :
  stops_at_rollback (handle_new_instance (S := S) m entry).
Proof.
  destruct entry as [tmp_id [kw | i]]; simpl; [| apply stops_at_rollback_raise].
  step; [plain_call |]. step; [plain_call |]. step; silent.
Qed.

Lemma stops_at_rollback_handle_new_instances (items : new_instances_items) (m : string) :
  stops_at_rollback (handle_new_instances (S := S) items m).
Proof.
  revert m. induction items as [| [m' new_instance] rest IH]; intros m; simpl.
  - apply stops_at_rollback_ret.
  - step; [silent |]. step; [apply stops_at_rollback_getattr_model |].
    step; [| apply IH].
    apply stops_at_rollback_for_each. intros ?. apply stops_at_rollback_handle_new_instance.
Qed.

(** The one place that rolls back raises right after it. *)
Lemma stops_at_rollback__validate_version_id (i : Instance) (m : string) :
  stops_at_rollback (_validate_version_id (S := S) i m).
Proof.
  unfold _validate_version_id. destruct (truthy _); [| apply stops_at_rollback_ret].
  destruct (inst_attrs i !! _VERSION_ID_COL); [| apply stops_at_rollback_raise].
  destruct (py_ne _ _); [| apply stops_at_rollback_ret].
  intros st. exists [EvRollback m]. split; [done |]. simpl.
  exists []. split; [done |]. right. by exists m.
Qed.

Lemma stops_at_rollback_append_item (m : string) (id : Z) (a : string) (i : Instance)
    (item : kwargs) :
  stops_at_rollback (append_item (S := S) m id a i item).
Proof.
  unfold append_item.
  destruct (item !! "_MODEL_CLS") as [[| | |] |]; try apply stops_at_rollback_raise.
  step; [apply stops_at_rollback_getattr_model |]. step; [plain_call |].
  step; [plain_call | apply stops_at_rollback_ret].
Qed.

Lemma stops_at_rollback_apply_attribute (m : string) (id : Z)
    (instance : option Instance) (entry : string * tracked) :
  stops_at_rollback (apply_attribute (S := S) m id instance entry).
Proof.
  destruct entry as [a value]. simpl.
  step; [destruct instance; [apply stops_at_rollback_ret | plain_call] |].
  destruct value as [v | items].
  - destruct (py_ne _ _); [| apply stops_at_rollback_ret].
    step; [plain_call | apply stops_at_rollback_ret].
  - step; [| apply stops_at_rollback_ret].
    apply stops_at_rollback_fold_each. intros ? ?. apply stops_at_rollback_append_item.
Qed.

Lemma stops_at_rollback_apply_instance (m : string) (entry : Z * list (string * tracked)) :
  stops_at_rollback (apply_instance (S := S) m entry).
Proof.
  destruct entry as [id tracked_attributes]. simpl.
  step; [silent |]. step.
  - apply stops_at_rollback_fold_each. intros ? ?. apply stops_at_rollback_apply_attribute.
  - destruct a0 as [i |]; [| apply stops_at_rollback_ret]. unfold validate_and_update.
    step; [apply stops_at_rollback__validate_version_id | plain_call].
Qed.

Lemma stops_at_rollback_apply_model (entry : string * list (Z * list (string * tracked))) :
  stops_at_rollback (apply_model (S := S) entry).
Proof.
  destruct entry as [m0 tracked_instances]. simpl.
  step; [silent |]. step; [apply stops_at_rollback_getattr_model |]. step.
  - intros st. apply stops_at_rollback_handle_new_instances.
  - apply stops_at_rollback_for_each. intros ?. apply stops_at_rollback_apply_instance.
Qed.

End RollbackProperties.

(** X18. Whatever the diff and the storage, the applier writes nothing
    after it rolled a session back, and logs an error only when it fails,
    once, as the last thing it does. When it returns, the calls it made are
    storage calls without a rollback and without an error log. When it
    raises, its calls are such storage calls, then at most one rollback,
    then either the one error log (of the successful updates without the
    empty dictionaries; the exception raised is the one that stopped the
    loops) or no log at all, when the successful updates cannot be
    serialized and the [TypeError] of [json.dumps] is raised instead. *)
Theorem applier_stops_at_rollback_and_logs_failure_once
    {S : Type} `{!Storage S}
    (tracked_changes : tracked_changes_items) (new_instances : new_instances_items)
    (model : S) :
  let run := apply_tracked_changes tracked_changes new_instances model in
  match run.2 with
  | Ok _ => Forall is_plain_call (trace run.1)
  | Raise e =>
      exists plain rolled logged,
        trace run.1 = plain ++ rolled ++ logged /\
        Forall is_plain_call plain /\
        (rolled = [] \/ exists mapi_name, rolled = [EvRollback mapi_name]) /\
        ((logged = [EvLogError (successfully_updated_changes run.1)] /\
          map_Forall (fun _ by_id => by_id <> ∅) (successfully_updated_changes run.1) /\
          (for_each apply_model tracked_changes (State model [] new_instances ∅)).2
          = Raise e) \/
         (logged = [] /\ e = Exn "TypeError" "is not JSON serializable"))
  end.
Proof.
  simpl. unfold apply_tracked_changes.
  destruct (stops_at_rollback_for_each apply_model tracked_changes
              stops_at_rollback_apply_model (State model [] new_instances ∅))
    as (evs & Htrace & Hend).
  destruct (for_each apply_model tracked_changes _) as [st [[] | e]]; simpl in *.
  - by rewrite Htrace.
  - destruct Hend as (plain & Hplain & Hcase).
    assert (exists rolled, evs = plain ++ rolled /\
              (rolled = [] \/ exists mapi_name, rolled = [EvRollback mapi_name]))
      as (rolled & -> & Hrolled).
    { destruct Hcase as [-> | [mapi_name ->]].
      - exists []. rewrite app_nil_r. split; [done | by left].
      - exists [EvRollback mapi_name]. split; [done | right; by exists mapi_name]. }
    unfold log_and_reraise. destruct (json_serializable _); simpl.
    + exists plain, rolled, [EvLogError (filter (fun kv => kv.2 ≠ ∅)
                                           (successfully_updated_changes st))].
      rewrite Htrace. simpl. split; [by rewrite <- app_assoc |].
      split; [done |]. split; [done |]. left. split; [done |]. split; [| done].
      intros k by_id Hk. by apply map_lookup_filter_Some in Hk as [_ ?].
    + exists plain, rolled, []. rewrite Htrace, app_nil_r. simpl.
      split; [done |]. split; [done |]. split; [done |]. by right.
Qed.

(** On the example storage: node 1 is stored with version 2 and was loaded
    with version 1, so its update is refused; the change of node 2 that
    follows in the diff is not looked at any more. *)
Lemma applier_trace_on_version_conflict :
  let stored := Inst (Some 1%Z) {[ "state" := PStr "a"; "version" := PInt 2 ]} ∅ [] in
  let model := Mem {[ "node" := {[ 1%Z := stored ]} ]} 2 0 in
  let diff := [("node", [(1%Z, [("version", Scalar (Value PStub (PInt 1)));
                                ("state", Scalar (Value PStub (PStr "b")))]);
                         (2%Z, [("state", Scalar (Value PStub (PStr "c")))])])] in
  let run := apply_tracked_changes diff [] model in
  call_of <$> trace run.1
  = [("get", "node"); ("setattr", "node"); ("setattr", "node"); ("rollback", "node");
     ("logger.error", "")] /\
  run.2 = Raise (version_conflict (PInt 2) (PInt 1)).
Proof. split; vm_compute; reflexivity. Qed.

(** *** New instances are put once *)

Lemma puts_app (evs1 evs2 : list event) : puts (evs1 ++ evs2) = puts evs1 + puts evs2.
Proof. unfold puts. by rewrite filter_app, length_app. Qed.

Lemma getitem_middle {V} (key : string) (value : V) (pre post : list (string * V)) :
  key ∉ pre.*1 -> getitem key (pre ++ (key, value) :: post) = Some value.
Proof.
  induction pre as [| [k v] pre IH]; intros Hkey; simpl.
  - by rewrite String.eqb_refl.
  - apply not_elem_of_cons in Hkey as [Hne Hkey].
    destruct (String.eqb_spec k key) as [-> | _]; [done | by apply IH].
Qed.

Lemma setitem_middle {V} (key : string) (old value : V) (pre post : list (string * V)) :
  key ∉ pre.*1 ->
  setitem key value (pre ++ (key, old) :: post) = pre ++ (key, value) :: post.
Proof.
  induction pre as [| [k v] pre IH]; intros Hkey; simpl.
  - by rewrite String.eqb_refl.
  - apply not_elem_of_cons in Hkey as [Hne Hkey].
    destruct (String.eqb_spec k key) as [-> | _]; [done | by rewrite IH].
Qed.

Lemma count_kwargs_cons (mapi_name : string) (new_instance : list (string * new_entry))
    (new_instances : new_instances_items) :
  count_kwargs ((mapi_name, new_instance) :: new_instances)
  = length (List.filter is_kwargs new_instance.*2) + count_kwargs new_instances.
Proof. reflexivity. Qed.

Lemma all_handled_count (new_instance : list (string * new_entry)) :
  all_handled new_instance -> length (List.filter is_kwargs new_instance.*2) = 0.
Proof.
  induction 1 as [| [tmp e] d He _ IH]; [done |].
  rewrite fmap_cons. simpl in *. by rewrite He.
Qed.

Lemma count_kwargs_handled (new_instances : new_instances_items) :
  Forall (fun item => all_handled item.2) new_instances -> count_kwargs new_instances = 0.
Proof.
  induction 1 as [| [m d] rest Hd _ IH]; [done |].
  by rewrite count_kwargs_cons, IH, all_handled_count.
Qed.

Section PutProperties.
Context {S : Type} `{!Storage S}.

Lemma puts_nothing_silent {A} (m : M (S := S) A) :
  (forall st, trace (m st).1 = trace st /\ new_instances (m st).1 = new_instances st) ->
  puts_nothing m.
Proof.
  intros H st. destruct (H st) as [Ht Hn]. split; [done |].
  exists []. by rewrite Ht, app_nil_r.
Qed.

Lemma puts_nothing_ret {A} (a : A) : puts_nothing (mret a : M (S := S) A).
Proof. by apply puts_nothing_silent. Qed.

Lemma puts_nothing_raise {A} (e : exn) : puts_nothing (raise (S := S) e : M A).
Proof. by apply puts_nothing_silent. Qed.

Lemma puts_nothing_call {A} (ev : event) (op : S -> S * result A) :
  is_put ev = false -> puts_nothing (call (S := S) ev op).
Proof.
  intros Hev st. unfold call. destruct (op (store st)) as [s r]. simpl.
  split; [done |]. exists [ev]. split; [done |].
  unfold puts. rewrite filter_cons_False; [done |]. rewrite Hev. simpl. tauto.
Qed.

Lemma puts_nothing_bind {A B} (m : M (S := S) A) (f : A -> M (S := S) B) :
  puts_nothing m -> (forall a, puts_nothing (f a)) -> puts_nothing (m ≫= f).
Proof.
  intros Hm Hf st. unfold mbind, M_bind. destruct (Hm st) as (Hn1 & evs1 & H1 & Hp1).
  destruct (m st) as [st1 [a | e]]; simpl in *.
  - destruct (Hf a st1) as (Hn2 & evs2 & H2 & Hp2). split; [congruence |].
    exists (evs1 ++ evs2). rewrite H2, H1, app_assoc, puts_app. split; [done | lia].
  - split; [done |]. by exists evs1.
Qed.

Lemma puts_nothing_for_each {A} (body : A -> M (S := S) unit) (items : list A) :
  (forall x, puts_nothing (body x)) -> puts_nothing (for_each body items).
Proof.
  intros Hbody. induction items as [| x rest IH]; simpl.
  - apply puts_nothing_ret.
  - apply puts_nothing_bind; [apply Hbody | by intros _].
Qed.

Lemma puts_nothing_fold_each {A B} (body : B -> A -> M (S := S) B) (items : list A) :
  (forall acc x, puts_nothing (body acc x)) ->
  forall acc, puts_nothing (fold_each body acc items).
Proof.
  intros Hbody. induction items as [| x rest IH]; intros acc; simpl.
  - apply puts_nothing_ret.
  - apply puts_nothing_bind; [apply Hbody | apply IH].
Qed.

Local Ltac other_call := by apply puts_nothing_call.
Local Ltac silent := apply puts_nothing_silent; intros ?; try done.
Local Ltac step := apply puts_nothing_bind; [| intros ?].

Lemma puts_nothing_getattr_model (m : string) : puts_nothing (getattr_model (S := S) m).
Proof. silent. unfold getattr_model. by destruct (has_mapi _ _). Qed.

Lemma puts_nothing__validate_version_id (i : Instance) (m : string) :
  puts_nothing (_validate_version_id (S := S) i m).
Proof.
  unfold _validate_version_id. destruct (truthy _); [| apply puts_nothing_ret].
  destruct (inst_attrs i !! _VERSION_ID_COL); [| apply puts_nothing_raise].
  destruct (py_ne _ _); [| apply puts_nothing_ret].
  step; [other_call | apply puts_nothing_raise].
Qed.

Lemma puts_nothing_append_item (m : string) (id : Z) (a : string) (i : Instance)
    (item : kwargs) :
  puts_nothing (append_item (S := S) m id a i item).
Proof.
  unfold append_item.
  destruct (item !! "_MODEL_CLS") as [[| | |] |]; try apply puts_nothing_raise.
  step; [apply puts_nothing_getattr_model |]. step; [other_call |].
  step; [other_call | apply puts_nothing_ret].
Qed.

Lemma puts_nothing_apply_attribute (m : string) (id : Z)
    (instance : option Instance) (entry : string * tracked) :
  puts_nothing (apply_attribute (S := S) m id instance entry).
Proof.
  destruct entry as [a value]. simpl.
  step; [destruct instance; [apply puts_nothing_ret | other_call] |].
  destruct value as [v | items].
  - destruct (py_ne _ _); [| apply puts_nothing_ret].
    step; [other_call | apply puts_nothing_ret].
  - step; [| apply puts_nothing_ret].
    apply puts_nothing_fold_each. intros ? ?. apply puts_nothing_append_item.
Qed.

Lemma puts_nothing_apply_instance (m : string) (entry : Z * list (string * tracked)) :
  puts_nothing (apply_instance (S := S) m entry).
Proof.
  destruct entry as [id tracked_attributes]. simpl.
  step; [silent |]. step.
  - apply puts_nothing_fold_each. intros ? ?. apply puts_nothing_apply_attribute.
  - destruct a0 as [i |]; [| apply puts_nothing_ret]. unfold validate_and_update.
    step; [apply puts_nothing__validate_version_id | other_call].
Qed.

(** The loops over the new instances call [put] at most once for each
    field map they are given. *)
Lemma puts_at_most_bind (k1 k2 : nat) {A B} (m : M (S := S) A) (f : A -> M (S := S) B) :
  puts_at_most k1 m -> (forall a, puts_at_most k2 (f a)) -> puts_at_most (k1 + k2) (m ≫= f).
Proof.
  intros Hm Hf st. unfold mbind, M_bind. destruct (Hm st) as (evs1 & H1 & Hp1).
  destruct (m st) as [st1 [a | e]]; simpl in *.
  - destruct (Hf a st1) as (evs2 & H2 & Hp2).
    exists (evs1 ++ evs2). rewrite H2, H1, app_assoc, puts_app. split; [done | lia].
  - exists evs1. split; [done | lia].
Qed.

Lemma puts_at_most_nothing {A} (m : M (S := S) A) : puts_nothing m -> puts_at_most 0 m.
Proof. intros H st. destruct (H st) as (_ & evs & Ht & Hp). exists evs. split; [done | lia]. Qed.

Lemma puts_at_most_handle_new_instance (m : string) (entry : string * new_entry) :
  puts_at_most (if is_kwargs entry.2 then 1 else 0) (handle_new_instance (S := S) m entry).
Proof.
  destruct entry as [tmp_id [kw | i]]; simpl.
  - apply (puts_at_most_bind 0 1).
    { apply puts_at_most_nothing. by apply puts_nothing_call. }
    intros instance. apply (puts_at_most_bind 1 0).
    { intros st. exists [EvPut m instance]. unfold call.
      destruct (put m instance (store st)). simpl. split; [done |]. unfold puts. simpl. lia. }
    intros instance' st. exists []. rewrite app_nil_r. split; [reflexivity | done].
  - apply puts_at_most_nothing, puts_nothing_raise.
Qed.

Lemma puts_at_most_new_instance (m : string) (new_instance : list (string * new_entry)) :
  puts_at_most (length (List.filter is_kwargs new_instance.*2))
    (for_each (handle_new_instance (S := S) m) new_instance).
Proof.
  induction new_instance as [| [tmp_id e] rest IH]; simpl.
  - apply puts_at_most_nothing, puts_nothing_ret.
  - pose proof (puts_at_most_bind (if is_kwargs e then 1 else 0)
                  (length (List.filter is_kwargs rest.*2))
                  (handle_new_instance m (tmp_id, e))
                  (fun _ => for_each (handle_new_instance m) rest)
                  (puts_at_most_handle_new_instance m (tmp_id, e)) (fun _ => IH)) as H.
    by destruct (is_kwargs e).
Qed.

Lemma puts_at_most_handle_new_instances (items : new_instances_items) (m : string) :
  puts_at_most (count_kwargs items) (handle_new_instances (S := S) items m).
Proof.
  revert m. induction items as [| [m' new_instance] rest IH]; intros m.
  - apply puts_at_most_nothing, puts_nothing_ret.
  - rewrite count_kwargs_cons. simpl.
    apply (puts_at_most_bind 0); [by intros st; exists []; rewrite app_nil_r | intros _].
    apply (puts_at_most_bind 0);
      [apply puts_at_most_nothing, puts_nothing_getattr_model | intros _].
    apply puts_at_most_bind; [apply puts_at_most_new_instance | intros _; apply IH].
Qed.

(** What a round that returns leaves in [new_instances]. *)
Lemma handle_new_instance_Ok (m tmp_id : string) (e : new_entry) (st st' : state S) :
  handle_new_instance m (tmp_id, e) st = (st', Ok tt) ->
  exists instance,
    new_instances st'
    = setitem m (setitem tmp_id (NewInstance instance)
                   (default [] (getitem m (new_instances st))))
        (new_instances st).
Proof.
  destruct e as [kw | i]; simpl; [| done].
  unfold mbind, M_bind, call. destruct (model_cls (store st) m kw) as [instance |]; [| done].
  simpl. destruct (put m instance (store st)) as [s [instance' |]]; [| done].
  simpl. intros [= <-]. by exists instance'.
Qed.

Lemma new_instance_handled (m : string) (pre post : new_instances_items)
    (todo : list (string * new_entry)) :
  forall (handled : list (string * new_entry)) (st st' : state S),
  new_instances st = pre ++ (m, handled ++ todo) :: post ->
  m ∉ pre.*1 ->
  NoDup (handled ++ todo).*1 ->
  all_handled handled ->
  for_each (handle_new_instance m) todo st = (st', Ok tt) ->
  exists new_instance,
    new_instances st' = pre ++ (m, new_instance) :: post /\
    new_instance.*1 = (handled ++ todo).*1 /\
    all_handled new_instance.
Proof.
  induction todo as [| [tmp_id e] todo IH]; intros handled st st' Hst Hm Hnodup Hhandled Hrun.
  - injection Hrun as <-. exists handled. by rewrite app_nil_r in *.
  - cbn [for_each] in Hrun. unfold mbind at 1, M_bind at 1 in Hrun.
    destruct (handle_new_instance m (tmp_id, e) st) as [st1 [[] | ?]] eqn:Hstep; [| done].
    destruct (handle_new_instance_Ok _ _ _ _ _ Hstep) as [instance Hst1].
    assert (tmp_id ∉ handled.*1) as Htmp.
    { rewrite fmap_app in Hnodup. apply NoDup_app in Hnodup as (_ & Hdisjoint & _).
      intros Hin. apply (Hdisjoint _ Hin). left. }
    rewrite Hst, getitem_middle in Hst1 by done. simpl in Hst1.
    rewrite setitem_middle, setitem_middle in Hst1 by done.
    destruct (IH (handled ++ [(tmp_id, NewInstance instance)]) st1 st')
      as (new_instance & Hnew & Hkeys & Hall).
    + by rewrite <- app_assoc.
    + done.
    + rewrite <- app_assoc. simpl. by rewrite !fmap_app in *.
    + apply Forall_app. split; [done | by constructor].
    + done.
    + exists new_instance. split; [done |]. split; [| done].
      rewrite Hkeys, <- app_assoc. by rewrite !fmap_app.
Qed.

Lemma new_instances_handled (todo : new_instances_items) :
  forall (handled : new_instances_items) (m m' : string) (st st' : state S),
  new_instances st = handled ++ todo ->
  NoDup (handled ++ todo).*1 ->
  Forall (fun item => NoDup item.2.*1) todo ->
  Forall (fun item => all_handled item.2 /\ NoDup item.2.*1) handled ->
  handle_new_instances todo m st = (st', Ok m') ->
  (new_instances st').*1 = (handled ++ todo).*1 /\
  Forall (fun item => all_handled item.2 /\ NoDup item.2.*1) (new_instances st').
Proof.
  induction todo as [| [mapi_name new_instance] todo IH];
    intros handled m m' st st' Hst Hnodup Hdistinct Hhandled Hrun.
  - injection Hrun as <- _. rewrite Hst, app_nil_r. done.
  - simpl in Hrun. unfold mbind, M_bind, reset_successes, getattr_model in Hrun.
    simpl in Hrun. destruct (has_mapi (store st) mapi_name); [| done].
    destruct (for_each (handle_new_instance mapi_name) new_instance _)
      as [st1 [[] | ?]] eqn:Hloop; [| done].
    apply Forall_cons in Hdistinct as [Hkeys Hdistinct]. simpl in Hkeys.
    assert (mapi_name ∉ handled.*1) as Hm.
    { rewrite fmap_app in Hnodup. apply NoDup_app in Hnodup as (_ & Hdisjoint & _).
      intros Hin. apply (Hdisjoint _ Hin). left. }
    destruct (new_instance_handled mapi_name handled todo new_instance []
                (State (store st) (trace st) (new_instances st)
                   (<[mapi_name := ∅]> (successfully_updated_changes st))) st1
                Hst Hm Hkeys (Forall_nil_2 _) Hloop)
      as (new_instance' & Hst1 & Hkeys' & Hall).
    simpl in Hkeys'.
    destruct (IH (handled ++ [(mapi_name, new_instance')]) mapi_name m' st1 st')
      as [Hkeys'' Hall'].
    + by rewrite <- app_assoc.
    + rewrite <- app_assoc. simpl. by rewrite !fmap_app in *.
    + done.
    + apply Forall_app. split; [done |]. constructor; [| done]. simpl.
      split; [done | by rewrite Hkeys'].
    + done.
    + split; [| done]. rewrite Hkeys'', <- app_assoc. by rewrite !fmap_app.
Qed.

(** One round of the outer loop: the [put]s it adds are covered by the
    field maps still in [new_instances], and if it returns none is left. *)
Lemma apply_model_puts (entry : string * list (Z * list (string * tracked)))
    (st : state S) :
  distinct_keys (new_instances st) ->
  exists evs,
    trace (apply_model entry st).1 = trace st ++ evs /\
    puts evs <= count_kwargs (new_instances st) /\
    ((apply_model entry st).2 = Ok tt ->
     count_kwargs (new_instances (apply_model entry st).1) = 0 /\
     distinct_keys (new_instances (apply_model entry st).1)).
Proof.
  intros [Hnodup Hdistinct]. destruct entry as [m0 tracked_instances].
  unfold apply_model, mbind, M_bind, reset_successes, getattr_model. simpl.
  destruct (has_mapi (store st) m0).
  2:{ exists []. rewrite app_nil_r. simpl. split; [done |].
      split; [unfold puts; simpl; lia | done]. }
  set (st0 := State (store st) (trace st) (new_instances st)
                (<[m0 := ∅]> (successfully_updated_changes st))).
  destruct (puts_at_most_handle_new_instances (new_instances st0) m0 st0)
    as (evs1 & Htrace1 & Hputs1).
  change (new_instances st0) with (new_instances st) in Hputs1.
  change (trace st0) with (trace st) in Htrace1.
  destruct (handle_new_instances (new_instances st0) m0 st0) as [st1 [m' | e]] eqn:Hrun.
  2:{ by exists evs1. }
  destruct (new_instances_handled (new_instances st) [] m0 m' st0 st1) as [Hkeys Hall];
    try done.
  destruct (puts_nothing_for_each (apply_instance m') tracked_instances
              (puts_nothing_apply_instance m') st1) as (Hsame & evs2 & Htrace2 & Hputs2).
  exists (evs1 ++ evs2). simpl in *.
  rewrite Htrace2, Htrace1, app_assoc, puts_app. split; [done |]. split; [lia |].
  intros _. rewrite Hsame. split.
  - apply count_kwargs_handled. eapply Forall_impl; [exact Hall |]. by intros ? [? _].
  - split; [by rewrite Hkeys |]. eapply Forall_impl; [exact Hall |]. by intros ? [_ ?].
Qed.

Lemma for_each_apply_model_puts (tracked_changes : tracked_changes_items) :
  forall st : state S,
  distinct_keys (new_instances st) ->
  exists evs,
    trace (for_each apply_model tracked_changes st).1 = trace st ++ evs /\
    puts evs <= count_kwargs (new_instances st).
Proof.
  induction tracked_changes as [| entry rest IH]; intros st Hdistinct; simpl.
  - exists []. rewrite app_nil_r. split; [done |]. unfold puts. simpl. lia.
  - unfold mbind, M_bind. destruct (apply_model_puts entry st Hdistinct)
      as (evs1 & Htrace1 & Hputs1 & Hok).
    destruct (apply_model entry st) as [st1 [[] | e]]; simpl in *.
    + destruct (Hok eq_refl) as [Hnone Hdistinct1].
      destruct (IH st1 Hdistinct1) as (evs2 & Htrace2 & Hputs2).
      exists (evs1 ++ evs2). rewrite Htrace2, Htrace1, app_assoc, puts_app.
      split; [done | lia].
    + by exists evs1.
Qed.

End PutProperties.

(** X19. However often the loop over the new instances is run (once for
    every model of the diff), the applier calls [put] at most once for each
    new instance it was sent: the number of [put] calls is at most the
    number of field maps in [new_instances], a dictionary of dictionaries
    (so the keys of its items are distinct). *)
Theorem new_instances_are_put_at_most_once
    {S : Type} `{!Storage S}
    (tracked_changes : tracked_changes_items) (new_instances : new_instances_items)
    (model : S) :
  distinct_keys new_instances ->
  puts (trace (apply_tracked_changes tracked_changes new_instances model).1)
  <= count_kwargs new_instances.
Proof.
  intros Hdistinct. unfold apply_tracked_changes.
  destruct (for_each_apply_model_puts tracked_changes (State model [] new_instances ∅)
              Hdistinct) as (evs & Htrace & Hputs).
  destruct (for_each apply_model tracked_changes _) as [st [[] | e]]; simpl in *.
  - by rewrite Htrace.
  - unfold log_and_reraise. destruct (json_serializable _); simpl.
    + rewrite Htrace. simpl. rewrite puts_app. unfold puts at 2. simpl. lia.
    + by rewrite Htrace.
Qed.

Lemma new_instances_are_put_at_most_once_witness :
  let three_models := [("task", []); ("node", []); ("log", [])] in
  puts (trace (apply_tracked_changes three_models one_log model0).1) <= 1.
Proof.
  intros three_models.
  apply (new_instances_are_put_at_most_once three_models one_log model0).
  split; [compute_done |]. repeat constructor; compute_done.
Defined.
